(** * GammaRay metaobject registry and classes-icons repository client

    A shallow embedding of [core/metaobjectregistry.cpp] and
    [client/classesiconsrepositoryclient.cpp], with the properties of the
    class-hierarchy graph, the instance counters and the fetch latch.

    Conventions of the embedding.
    - A [const QMetaObject *] and a [QObject *] are addresses, numbers of
      type [N]; [0] is [nullptr].  Pointer comparison is [N] comparison.
    - What the registry reads through a pointer (super class, class name,
      storage class of a descriptor; runtime descriptor of an object) is
      owned by the inspected process: it is the record [Host], the same
      for all the calls of a run.
    - A [QHash] is a [gmap]; [QHash::value] on a missing key is the default
      value of the value type, [QHash::operator[]] inserts that default.
    - [emit] appends to the list [emitted] of the registry.
    - The table of [QMetaType] is finite: [metaTypes] holds what
      [QMetaType::metaObjectForType] returns for the ids 0, 1, ... below
      its end, [nullptr] for a type without descriptor, and no id from the
      end on is registered.
    - Recursion over the super-class chain and the [while (current)] loops
      take a [fuel]; the result [None] stands for a call that has not
      returned within it (or that dereferences [nullptr]).
    - [assert] and [Q_ASSERT] are compiled out ([NDEBUG], [QT_NO_DEBUG]);
      that the counters they test are not negative is part of C4, that the
      entry they look for exists is part of the invariant [Inv].
    - The counters are mathematical integers: no run considered here
      comes near the range of a C++ [int]. *)

From Stdlib Require Import ZArith Lia.
From stdpp Require Import gmap strings list fin_maps sorting.

Open Scope Z_scope.

Abbreviation MO := N (only parsing).
Abbreviation Obj := N (only parsing).

(** ** The inspected process *)

Record Host := {
  superClass : MO → MO;            (* QMetaObject::superClass() *)
  mo_className : MO → string;      (* QMetaObject::className() *)
  isReadOnlyData : MO → bool;      (* Execution::isReadOnlyData() *)
  metaObject : Obj → MO;           (* QObject::metaObject() *)
  hasDynamicMetaObject : Obj → bool;
  QMetaType_User : nat;            (* QMetaType::User *)
  isRegistered : nat → bool;       (* QMetaType::isRegistered() *)
  metaTypes : list MO;             (* QMetaType::metaObjectForType() by id *)
  staticQtMetaObject : MO
}.

(** ** Data model *)

(** Modelled from the spec: the struct [MetaObjectInfo] is declared in
    [metaobjectregistry.h], which is not among the sources.  Its fields are
    the ones the code reads and writes; the counters are the spec's counts
    (integers), a default-constructed entry has every counter zero, every
    flag false and an empty name. *)
Record MetaObjectInfo := {
  className : string;
  isStatic : bool;
  isDynamic : bool;
  invalid : bool;
  selfCount : Z;
  inclusiveCount : Z;
  selfAliveCount : Z;
  inclusiveAliveCount : Z
}.

Definition defaultInfo : MetaObjectInfo :=
  {| className := ""; isStatic := false; isDynamic := false; invalid := false;
     selfCount := 0; inclusiveCount := 0; selfAliveCount := 0;
     inclusiveAliveCount := 0 |}.

Inductive Signal :=
| beforeMetaObjectAdded (mo : MO)
| afterMetaObjectAdded (mo : MO)
| dataChanged (mo : MO).

#[global] Instance Signal_eq_dec : EqDecision Signal.
Proof. solve_decision. Defined.

Record Registry := {
  m_metaObjectInfoMap : gmap N MetaObjectInfo;
  m_childParentMap : gmap N N;
  m_parentChildMap : gmap N (list N);
  m_metaObjectNameMap : gmap string N;
  m_metaObjectMap : gmap N N;
  m_aliveInstances : gmap N (list N);
  m_dynamicMetaObjectMap : gmap N N;
  m_canonicalMetaObjectMap : gmap N N;
  emitted : list Signal
}.

(** The registry before the constructor's scan. *)
Definition emptyRegistry : Registry :=
  {| m_metaObjectInfoMap := ∅; m_childParentMap := ∅; m_parentChildMap := ∅;
     m_metaObjectNameMap := ∅; m_metaObjectMap := ∅; m_aliveInstances := ∅;
     m_dynamicMetaObjectMap := ∅; m_canonicalMetaObjectMap := ∅;
     emitted := [] |}.

Definition set_infoMap (f : gmap N MetaObjectInfo → gmap N MetaObjectInfo)
    (r : Registry) : Registry :=
  {| m_metaObjectInfoMap := f (m_metaObjectInfoMap r);
     m_childParentMap := m_childParentMap r;
     m_parentChildMap := m_parentChildMap r;
     m_metaObjectNameMap := m_metaObjectNameMap r;
     m_metaObjectMap := m_metaObjectMap r;
     m_aliveInstances := m_aliveInstances r;
     m_dynamicMetaObjectMap := m_dynamicMetaObjectMap r;
     m_canonicalMetaObjectMap := m_canonicalMetaObjectMap r;
     emitted := emitted r |}.

Definition set_metaObjectMap (f : gmap N N → gmap N N) (r : Registry) : Registry :=
  {| m_metaObjectInfoMap := m_metaObjectInfoMap r;
     m_childParentMap := m_childParentMap r;
     m_parentChildMap := m_parentChildMap r;
     m_metaObjectNameMap := m_metaObjectNameMap r;
     m_metaObjectMap := f (m_metaObjectMap r);
     m_aliveInstances := m_aliveInstances r;
     m_dynamicMetaObjectMap := m_dynamicMetaObjectMap r;
     m_canonicalMetaObjectMap := m_canonicalMetaObjectMap r;
     emitted := emitted r |}.

Definition emit (s : Signal) (r : Registry) : Registry :=
  {| m_metaObjectInfoMap := m_metaObjectInfoMap r;
     m_childParentMap := m_childParentMap r;
     m_parentChildMap := m_parentChildMap r;
     m_metaObjectNameMap := m_metaObjectNameMap r;
     m_metaObjectMap := m_metaObjectMap r;
     m_aliveInstances := m_aliveInstances r;
     m_dynamicMetaObjectMap := m_dynamicMetaObjectMap r;
     m_canonicalMetaObjectMap := m_canonicalMetaObjectMap r;
     emitted := emitted r ++ [s] |}.

(** [m_metaObjectInfoMap.value(mo)], also the entry [operator[]] yields. *)
Definition infoOf (r : Registry) (mo : MO) : MetaObjectInfo :=
  default defaultInfo (m_metaObjectInfoMap r !! mo).

(** Field updates of one [MetaObjectInfo]. *)
Definition describe (name : string) (st dy : bool) (i : MetaObjectInfo) :=
  {| className := name; isStatic := st; isDynamic := dy; invalid := invalid i;
     selfCount := selfCount i; inclusiveCount := inclusiveCount i;
     selfAliveCount := selfAliveCount i;
     inclusiveAliveCount := inclusiveAliveCount i |}.

Definition incSelf (i : MetaObjectInfo) :=
  {| className := className i; isStatic := isStatic i; isDynamic := isDynamic i;
     invalid := invalid i;
     selfCount := selfCount i + 1; inclusiveCount := inclusiveCount i;
     selfAliveCount := selfAliveCount i + 1;
     inclusiveAliveCount := inclusiveAliveCount i |}.

Definition incInclusive (i : MetaObjectInfo) :=
  {| className := className i; isStatic := isStatic i; isDynamic := isDynamic i;
     invalid := false;
     selfCount := selfCount i; inclusiveCount := inclusiveCount i + 1;
     selfAliveCount := selfAliveCount i;
     inclusiveAliveCount := inclusiveAliveCount i + 1 |}.

Definition decSelfAlive (i : MetaObjectInfo) :=
  {| className := className i; isStatic := isStatic i; isDynamic := isDynamic i;
     invalid := invalid i;
     selfCount := selfCount i; inclusiveCount := inclusiveCount i;
     selfAliveCount := selfAliveCount i - 1;
     inclusiveAliveCount := inclusiveAliveCount i |}.

Definition decAlive (i : MetaObjectInfo) :=
  {| className := className i; isStatic := isStatic i; isDynamic := isDynamic i;
     invalid := invalid i;
     selfCount := selfCount i; inclusiveCount := inclusiveCount i;
     selfAliveCount := selfAliveCount i;
     inclusiveAliveCount := inclusiveAliveCount i - 1 |}.

Definition markInvalid (i : MetaObjectInfo) :=
  {| className := className i; isStatic := isStatic i; isDynamic := isDynamic i;
     invalid := true;
     selfCount := selfCount i; inclusiveCount := inclusiveCount i;
     selfAliveCount := selfAliveCount i;
     inclusiveAliveCount := inclusiveAliveCount i |}.

(** What one pass of the loop of [objectRemoved] makes of an entry:
    decremented, and marked invalid when it reached zero and is not
    static. *)
Definition decInclusiveAlive (i : MetaObjectInfo) :=
  let n := inclusiveAliveCount i - 1 in
  {| className := className i; isStatic := isStatic i; isDynamic := isDynamic i;
     invalid := if (n =? 0) && negb (isStatic i) then true else invalid i;
     selfCount := selfCount i; inclusiveCount := inclusiveCount i;
     selfAliveCount := selfAliveCount i;
     inclusiveAliveCount := n |}.

(** ** std::lower_bound on a sorted pool of descriptor addresses *)

(** Position of the first element that is not less than [x]. *)
Fixpoint lower_bound (l : list N) (x : N) : nat :=
  match l with
  | [] => 0%nat
  | y :: l' => if (y <? x)%N then S (lower_bound l' x) else 0%nat
  end.

(** [pool.insert(pool.begin() + i, x)]. *)
Definition insertAt (i : nat) (x : N) (l : list N) : list N :=
  take i l ++ x :: drop i l.

(** ** Walking the child-parent map *)

(** [m_childParentMap.value(mo)]. *)
Definition parentIn (cp : gmap N N) (mo : MO) : MO := default 0%N (cp !! mo).

(** The nodes a [while (current)] loop visits from [current], in order. *)
Fixpoint walk (fuel : nat) (cp : gmap N N) (current : MO) : option (list MO) :=
  match fuel with
  | O => None
  | S fuel' =>
      if (current =? 0)%N then Some []
      else cons current <$> walk fuel' cp (parentIn cp current)
  end.

Inductive path (cp : gmap N N) : MO → list MO → Prop :=
| path_nil : path cp 0%N []
| path_cons m l : m ≠ 0%N → path cp (parentIn cp m) l → path cp m (m :: l).

(** The child-parent map is a forest: [nullptr] is no node, a parent that
    is not [nullptr] is a node, and parents come with a smaller rank. *)
Record forest (cp : gmap N N) : Prop := {
  forest_null : cp !! 0%N = None;
  forest_closed : ∀ m p, cp !! m = Some p → p ≠ 0%N → is_Some (cp !! p);
  forest_rank : ∃ rank : N → nat,
      ∀ m p, cp !! m = Some p → p ≠ 0%N → (rank p < rank m)%nat
}.

Module MetaObjectRegistry.
Section WithHost.
Variable h : Host.

(** *** Queries *)

Definition isKnownMetaObject (r : Registry) (mo : MO) : bool :=
  bool_decide (is_Some (m_childParentMap r !! mo)).

Definition parentOf (r : Registry) (mo : MO) : MO :=
  default 0%N (m_childParentMap r !! mo).

Definition childrenOf (r : Registry) (mo : MO) : list MO :=
  default [] (m_parentChildMap r !! mo).

Definition isValid (r : Registry) (mo : MO) : bool :=
  match m_metaObjectInfoMap r !! mo with
  | None => false
  | Some i => negb (invalid i)
  end.

Definition isStaticMO (r : Registry) (mo : MO) : bool :=
  match m_metaObjectInfoMap r !! mo with
  | None => false
  | Some i => isStatic i
  end.

Definition aliveInstance (r : Registry) (mo : MO) : MO :=
  match m_aliveInstances r !! mo with
  | None => mo (* static QMO *)
  | Some pool =>
      match pool with
      | [] => 0%N
      | first :: _ => first
      end
  end.

Definition canonicalMetaObject (r : Registry) (mo : MO) : MO :=
  match m_canonicalMetaObjectMap r !! mo with
  | Some c => c
  | None => mo
  end.

(** *** addMetaObject *)

(** Lines 232-245: the node is entered in the info map, the child-parent
    map and its parent's children, between the two notifications. *)
Definition insertNode (r : Registry) (mo parent : MO) (st merge : bool) : Registry :=
  {| m_metaObjectInfoMap :=
       <[mo := describe (mo_className h mo) st (negb st && merge) (infoOf r mo)]>
         (m_metaObjectInfoMap r);
     m_childParentMap := <[mo := parent]> (m_childParentMap r);
     m_parentChildMap :=
       <[parent := default [] (m_parentChildMap r !! parent) ++ [mo]]>
         (m_parentChildMap r);
     m_metaObjectNameMap := m_metaObjectNameMap r;
     m_metaObjectMap := m_metaObjectMap r;
     m_aliveInstances := m_aliveInstances r;
     m_dynamicMetaObjectMap := m_dynamicMetaObjectMap r;
     m_canonicalMetaObjectMap := m_canonicalMetaObjectMap r;
     emitted := emitted r ++ [beforeMetaObjectAdded mo; afterMetaObjectAdded mo] |}.

Definition set_nameMap (f : gmap string N → gmap string N) (r : Registry) : Registry :=
  {| m_metaObjectInfoMap := m_metaObjectInfoMap r;
     m_childParentMap := m_childParentMap r;
     m_parentChildMap := m_parentChildMap r;
     m_metaObjectNameMap := f (m_metaObjectNameMap r);
     m_metaObjectMap := m_metaObjectMap r;
     m_aliveInstances := m_aliveInstances r;
     m_dynamicMetaObjectMap := m_dynamicMetaObjectMap r;
     m_canonicalMetaObjectMap := m_canonicalMetaObjectMap r;
     emitted := emitted r |}.

Fixpoint addMetaObject (fuel : nat) (r : Registry) (mo : MO) (mergeDynamic : bool)
    : option (MO * Registry) :=
  match fuel with
  | O => None
  | S fuel' =>
      if isKnownMetaObject r mo then Some (mo, r)
      else if (mo =? 0)%N then None (* metaObject->superClass() on nullptr *)
      else
        let super := superClass h mo in
        match
          (if negb (super =? 0)%N && negb (isKnownMetaObject r super)
           then addMetaObject fuel' r super mergeDynamic (* add parent first *)
           else Some (super, r))
        with
        | None => None
        | Some (parentMetaObject, r1) =>
            let st := isReadOnlyData h mo in
            if negb st && mergeDynamic then
              let name := mo_className h mo in
              match m_metaObjectNameMap r1 !! name with
              | Some canonical => Some (canonical, r1)
              | None =>
                  Some (mo, insertNode (set_nameMap <[name := mo]> r1)
                                       mo parentMetaObject st mergeDynamic)
              end
            else Some (mo, insertNode r1 mo parentMetaObject st mergeDynamic)
        end
  end.

(** The constructor's scan.  The loop of line 202 runs through the ids
    from 0 as long as
    [mtId <= QMetaType::User || QMetaType::isRegistered(mtId)] holds: it
    skips an id that is not registered, and ends at the first such id above
    [QMetaType::User].  [mts] are the descriptors of the ids from [mtId]
    to the end of the table; behind the table the loop visits no
    registered id.
    Modelled from the spec: the default value of [mergeDynamic], which these
    calls take, is declared in [metaobjectregistry.h], not among the sources;
    it is [false], the scan inserting static nodes only. *)
Fixpoint scanLoop (fuel : nat) (r : Registry) (mtId : nat) (mts : list MO)
    : option Registry :=
  match mts with
  | [] => Some r
  | mt :: rest =>
      if (mtId <=? QMetaType_User h)%nat || isRegistered h mtId then
        if negb (isRegistered h mtId) then scanLoop fuel r (S mtId) rest
        else if (mt =? 0)%N then scanLoop fuel r (S mtId) rest
        else match addMetaObject fuel r mt false with
             | None => None
             | Some (_, r') => scanLoop fuel r' (S mtId) rest
             end
      else Some r
  end.

Definition scanMetaTypes (fuel : nat) (r : Registry) : option Registry :=
  match scanLoop fuel r 0 (metaTypes h) with
  | None => None
  | Some r' => snd <$> addMetaObject fuel r' (staticQtMetaObject h) false
  end.

(** *** Alive instances of dynamic nodes *)

Definition addAliveInstance (r : Registry) (obj : Obj) (canonicalMO : MO) : Registry :=
  let aliveMO := metaObject h obj in
  let alivePool := default [] (m_aliveInstances r !! canonicalMO) in
  {| m_metaObjectInfoMap := m_metaObjectInfoMap r;
     m_childParentMap := m_childParentMap r;
     m_parentChildMap := m_parentChildMap r;
     m_metaObjectNameMap := m_metaObjectNameMap r;
     m_metaObjectMap := m_metaObjectMap r;
     m_aliveInstances :=
       <[canonicalMO := insertAt (lower_bound alivePool aliveMO) aliveMO alivePool]>
         (m_aliveInstances r);
     m_dynamicMetaObjectMap := <[obj := aliveMO]> (m_dynamicMetaObjectMap r);
     m_canonicalMetaObjectMap := <[aliveMO := canonicalMO]> (m_canonicalMetaObjectMap r);
     emitted := emitted r |}.

Definition removeAliveInstance (r : Registry) (obj : Obj) (canonicalMO : MO) : Registry :=
  let aliveMO := default 0%N (m_dynamicMetaObjectMap r !! obj) in
  let alivePool := default [] (m_aliveInstances r !! canonicalMO) in
  let it := lower_bound alivePool aliveMO in
  {| m_metaObjectInfoMap := m_metaObjectInfoMap r;
     m_childParentMap := m_childParentMap r;
     m_parentChildMap := m_parentChildMap r;
     m_metaObjectNameMap := m_metaObjectNameMap r;
     m_metaObjectMap := m_metaObjectMap r;
     m_aliveInstances :=
       <[canonicalMO := if bool_decide (alivePool !! it = Some aliveMO)
                        then delete it alivePool else alivePool]>
         (m_aliveInstances r);
     m_dynamicMetaObjectMap := delete obj (m_dynamicMetaObjectMap r);
     m_canonicalMetaObjectMap := delete aliveMO (m_canonicalMetaObjectMap r);
     emitted := emitted r |}.

(** *** objectAdded *)

(** The loop "increase inclusive counts". *)
Fixpoint increaseInclusive (fuel : nat) (r : Registry) (current : MO) : option Registry :=
  match fuel with
  | O => None
  | S fuel' =>
      if (current =? 0)%N then Some r
      else
        let r1 := set_infoMap <[current := incInclusive (infoOf r current)]> r in
        let r2 := emit (dataChanged current) r1 in
        increaseInclusive fuel' r2 (parentOf r2 current)
  end.

Definition objectAdded (fuel : nat) (r : Registry) (obj : Obj) : option Registry :=
  match addMetaObject fuel r (metaObject h obj) (hasDynamicMetaObject h obj) with
  | None => None
  | Some (mo, r1) =>
      let r2 := set_metaObjectMap <[obj := mo]> r1 in
      let info := incSelf (infoOf r2 mo) in
      let r3 := set_infoMap <[mo := info]> r2 in
      let r4 := if isDynamic info then addAliveInstance r3 obj mo else r3 in
      increaseInclusive fuel r4 mo
  end.

(** *** objectRemoved *)

(** The loop "decrease inclusive counts". *)
Fixpoint decreaseInclusive (fuel : nat) (r : Registry) (current : MO) : option Registry :=
  match fuel with
  | O => None
  | S fuel' =>
      if (current =? 0)%N then Some r
      else
        let r1 := set_infoMap <[current := decAlive (infoOf r current)]> r in
        let r2 := emit (dataChanged current) r1 in
        let parent := parentOf r2 current in
        let info := infoOf r2 current in
        let r3 := if (inclusiveAliveCount info =? 0) && negb (isStatic info)
                  then set_infoMap <[current := markInvalid info]> r2
                  else r2 in
        decreaseInclusive fuel' r3 parent
  end.

Definition objectRemoved (fuel : nat) (r : Registry) (obj : Obj) : option Registry :=
  (* m_metaObjectMap.take(obj) *)
  let mo := default 0%N (m_metaObjectMap r !! obj) in
  let r1 := set_metaObjectMap (delete obj) r in
  if (mo =? 0)%N then Some r1
  else
    let info := infoOf r1 mo in
    if selfAliveCount info =? 0 then
      (* the entry operator[] made, if any, stays *)
      Some (set_infoMap <[mo := info]> r1)
    else
      let r2 := set_infoMap <[mo := decSelfAlive info]> r1 in
      let r3 := if isDynamic info then removeAliveInstance r2 obj mo else r2 in
      decreaseInclusive fuel r3 mo.

(** *** Event sequences *)

(** The calls that change a registry.  [EvAddMetaObject] is a call of
    [addMetaObject] by itself, as the constructor's scan makes them. *)
Inductive Event :=
| EvAddMetaObject (mo : MO) (mergeDynamic : bool)
| EvObjectAdded (obj : Obj)
| EvObjectRemoved (obj : Obj).

Definition step (fuel : nat) (r : Registry) (ev : Event) : option Registry :=
  match ev with
  | EvAddMetaObject mo b => snd <$> addMetaObject fuel r mo b
  | EvObjectAdded obj => objectAdded fuel r obj
  | EvObjectRemoved obj => objectRemoved fuel r obj
  end.

(** [run evs r]: the calls [evs], each of which returned, lead from the
    empty registry to [r]. *)
Inductive run : list Event → Registry → Prop :=
| run_nil : run [] emptyRegistry
| run_snoc evs r fuel ev r' :
    run evs r → step fuel r ev = Some r' → run (evs ++ [ev]) r'.

(** The objects alive after a sequence of events. *)
Definition track (s : gset N) (ev : Event) : gset N :=
  match ev with
  | EvObjectAdded obj => s ∪ {[obj]}
  | EvObjectRemoved obj => s ∖ {[obj]}
  | EvAddMetaObject _ _ => s
  end.

Definition aliveAfter (evs : list Event) : gset N := foldl track ∅ evs.

(** Every object is added while it is not alive and removed while it is. *)
Definition wellOrdered (evs : list Event) : Prop :=
  ∀ pre ev post, evs = pre ++ ev :: post →
    match ev with
    | EvObjectAdded obj => obj ∉ aliveAfter pre
    | EvObjectRemoved obj => obj ∈ aliveAfter pre
    | EvAddMetaObject _ _ => True
    end.

(** The same as a test, the objects of [s] being alive at the start. *)
Fixpoint orderedFrom (s : gset N) (evs : list Event) : bool :=
  match evs with
  | [] => true
  | ev :: rest =>
      match ev with
      | EvObjectAdded obj => bool_decide (obj ∉ s)
      | EvObjectRemoved obj => bool_decide (obj ∈ s)
      | EvAddMetaObject _ _ => true
      end && orderedFrom (track s ev) rest
  end.

(** *** Notions the properties are stated with *)

Definition known (r : Registry) (mo : MO) : Prop :=
  is_Some (m_childParentMap r !! mo).

(** The node [mo] and its ancestors, the node first. *)
Definition lineage (r : Registry) (mo : MO) : list MO :=
  default [] (walk (S (S (size (m_childParentMap r)))) (m_childParentMap r) mo).

(** The tracked objects whose node is [n] / lies in the subtree of [n]. *)
Definition selfAlive (r : Registry) (n : MO) : nat :=
  size (filter (λ om : N * N, om.2 = n) (m_metaObjectMap r)).

Definition subtreeAlive (r : Registry) (n : MO) : nat :=
  size (filter (λ om : N * N, n ∈ lineage r om.2) (m_metaObjectMap r)).

(** [superChain mo n]: the super-class chain of [mo] ends after [n] steps. *)
Inductive superChain : MO → nat → Prop :=
| superChain_null : superChain 0%N 0
| superChain_step mo n :
    mo ≠ 0%N → superChain (superClass h mo) n → superChain mo (S n).

(** [unknownChain r mo n]: the super-class chain of [mo] reaches [nullptr]
    or a known descriptor after [n] unknown ones. *)
Inductive unknownChain (r : Registry) : MO → nat → Prop :=
| unknownChain_stop mo : mo = 0%N ∨ known r mo → unknownChain r mo 0
| unknownChain_step mo n :
    mo ≠ 0%N → ¬ known r mo → unknownChain r (superClass h mo) n →
    unknownChain r mo (S n).

(** Lines 223-245 of [addMetaObject], once the parent is resolved. *)
Definition finishAdd (r1 : Registry) (mo parentMetaObject : MO) (mergeDynamic : bool)
    : MO * Registry :=
  let st := isReadOnlyData h mo in
  if negb st && mergeDynamic then
    match m_metaObjectNameMap r1 !! mo_className h mo with
    | Some canonical => (canonical, r1)
    | None => (mo, insertNode (set_nameMap <[mo_className h mo := mo]> r1)
                              mo parentMetaObject st mergeDynamic)
    end
  else (mo, insertNode r1 mo parentMetaObject st mergeDynamic).

(** [addMetaObject] as a relation, without fuel. *)
Inductive Adds (b : bool) : Registry → MO → MO → Registry → Prop :=
| Adds_known r mo : known r mo → Adds b r mo mo r
| Adds_direct r mo c r' :
    ¬ known r mo → mo ≠ 0%N →
    superClass h mo = 0%N ∨ known r (superClass h mo) →
    finishAdd r mo (superClass h mo) b = (c, r') →
    Adds b r mo c r'
| Adds_parent r mo p r1 c r' :
    ¬ known r mo → mo ≠ 0%N →
    superClass h mo ≠ 0%N → ¬ known r (superClass h mo) →
    Adds b r (superClass h mo) p r1 →
    finishAdd r1 mo p b = (c, r') →
    Adds b r mo c r'.

(** The descriptor the registry enters as parent of a node whose super
    class is [s]: [s] itself, or the canonical node of its name. *)
Definition resolves (r : Registry) (s p : MO) : Prop :=
  p = s ∨ (isReadOnlyData h s = false ∧
           m_metaObjectNameMap r !! mo_className h s = Some p).

(** One node entered by [addMetaObject r _ b], and several. *)
Inductive grows (b : bool) : Registry → Registry → Prop :=
| grows_refl r : grows b r r
| grows_node r r1 mo parent :
    grows b r r1 →
    mo ≠ 0%N → ¬ known r1 mo →
    (parent = 0%N ↔ superClass h mo = 0%N) →
    (parent ≠ 0%N → known r1 parent) →
    resolves r1 (superClass h mo) parent →
    (negb (isReadOnlyData h mo) && b = true →
     m_metaObjectNameMap r1 !! mo_className h mo = None) →
    grows b r
      (insertNode
         (if negb (isReadOnlyData h mo) && b
          then set_nameMap <[mo_className h mo := mo]> r1 else r1)
         mo parent (isReadOnlyData h mo) b).

(** What holds of every registry a sequence of calls leads to. *)
Record Inv (r : Registry) : Prop := {
  inv_forest : forest (m_childParentMap r);
  inv_names : ∀ k c, m_metaObjectNameMap r !! k = Some c → known r c;
  inv_info : ∀ m, is_Some (m_metaObjectInfoMap r !! m) ↔ known r m;
  inv_objs : ∀ o m, m_metaObjectMap r !! o = Some m → known r m;
  inv_flags : ∀ m i, m_metaObjectInfoMap r !! m = Some i →
      (isStatic i = true → invalid i = false) ∧
      (isDynamic i = true → isStatic i = false);
  inv_class : ∀ m i, m_metaObjectInfoMap r !! m = Some i →
      isStatic i = isReadOnlyData h m;
  inv_pools : ∀ m pool, m_aliveInstances r !! m = Some pool →
      StronglySorted N.le pool ∧ isDynamic (infoOf r m) = true;
  inv_log : ∀ m, known r m ↔ beforeMetaObjectAdded m ∈ emitted r;
  inv_order : ∀ l1 l2 m p,
      emitted r = l1 ++ beforeMetaObjectAdded m :: l2 →
      m_childParentMap r !! m = Some p → p ≠ 0%N →
      beforeMetaObjectAdded p ∈ l1;
  inv_super : ∀ m p, m_childParentMap r !! m = Some p →
      (p = 0%N ↔ superClass h m = 0%N) ∧ resolves r (superClass h m) p
}.

(** What holds in addition when the objects come and go in order. *)
Record Counts (r : Registry) : Prop := {
  cnt_self : ∀ n, selfAliveCount (infoOf r n) = Z.of_nat (selfAlive r n);
  cnt_incl : ∀ n, inclusiveAliveCount (infoOf r n) = Z.of_nat (subtreeAlive r n);
  cnt_invalid : ∀ n, invalid (infoOf r n) = true →
      inclusiveAliveCount (infoOf r n) = 0
}.

End WithHost.
End MetaObjectRegistry.

(** [objectAdded] between [addMetaObject] and the loop, [objectRemoved]
    between the test of [selfAliveCount] and the loop. *)
Definition addSelf (h : Host) (r1 : Registry) (obj : Obj) (mo : MO) : Registry :=
  let r2 := set_metaObjectMap <[obj := mo]> r1 in
  let info := incSelf (infoOf r2 mo) in
  let r3 := set_infoMap <[mo := info]> r2 in
  if isDynamic info then MetaObjectRegistry.addAliveInstance h r3 obj mo else r3.

Definition removeSelf (r : Registry) (obj : Obj) (mo : MO) : Registry :=
  let r1 := set_metaObjectMap (delete obj) r in
  let info := infoOf r1 mo in
  let r2 := set_infoMap <[mo := decSelfAlive info]> r1 in
  if isDynamic info then MetaObjectRegistry.removeAliveInstance r2 obj mo else r2.

(** [increaseInclusive] and [decreaseInclusive] on the info map alone:
    [f] applied to the entry of every node of [l] in turn. *)
Definition bumpAll (f : MetaObjectInfo → MetaObjectInfo) (l : list N)
    (im : gmap N MetaObjectInfo) : gmap N MetaObjectInfo :=
  foldl (λ im c, <[c := f (default defaultInfo (im !! c))]> im) im l.

Definition afterLoop (f : MetaObjectInfo → MetaObjectInfo) (r : Registry)
    (l : list N) : Registry :=
  {| m_metaObjectInfoMap := bumpAll f l (m_metaObjectInfoMap r);
     m_childParentMap := m_childParentMap r;
     m_parentChildMap := m_parentChildMap r;
     m_metaObjectNameMap := m_metaObjectNameMap r;
     m_metaObjectMap := m_metaObjectMap r;
     m_aliveInstances := m_aliveInstances r;
     m_dynamicMetaObjectMap := m_dynamicMetaObjectMap r;
     m_canonicalMetaObjectMap := m_canonicalMetaObjectMap r;
     emitted := emitted r ++ (dataChanged <$> l) |}.

(** ** The classes-icons repository client *)

Module ClassesIconsRepositoryClient.

(** The client with the state of its base class [ClassesIconsRepository]
    (the index), the latch, the invocations sent through the endpoint and
    the number of [indexChanged] signals emitted. *)
Record Client := {
  m_iconsIndex : list string;
  m_ready : bool;
  invoked : list string;
  indexChanged : nat
}.

(** Modelled from the spec: [ClassesIconsRepository::filePath] is defined in
    [common/classesiconsrepository.cpp], which is not among the sources; it
    returns the cached path of the id if present, an empty string
    otherwise. *)
Definition baseFilePath (index : list string) (id : Z) : string :=
  if id <? 0 then "" else default "" (index !! Z.to_nat id).

(** Modelled from the spec: [ClassesIconsRepository::setIndex], not among
    the sources, replaces the full local index. *)
Definition setIndex (index : list string) (c : Client) : Client :=
  {| m_iconsIndex := index; m_ready := m_ready c; invoked := invoked c;
     indexChanged := indexChanged c |}.

(** Modelled from the spec: the latch [m_ready] is initialised in
    [classesiconsrepositoryclient.h], which is not among the sources; no
    fetch has been requested by a new client, whose index is empty. *)
Definition newClient : Client :=
  {| m_iconsIndex := []; m_ready := false; invoked := []; indexChanged := 0 |}.

Definition requestIndex (c : Client) : Client :=
  {| m_iconsIndex := m_iconsIndex c; m_ready := true;
     invoked := invoked c ++ ["requestIndex"];
     indexChanged := indexChanged c |}.

Definition filePath (c : Client) (id : Z) : string * Client :=
  let filePath := baseFilePath (m_iconsIndex c) id in
  (filePath,
   if bool_decide (filePath = "") && negb (m_ready c) then requestIndex c else c).

Definition indexReceived (c : Client) (index : list string) : Client :=
  let c' := setIndex index c in
  {| m_iconsIndex := m_iconsIndex c'; m_ready := m_ready c';
     invoked := invoked c'; indexChanged := S (indexChanged c') |}.

(** A query the cache cannot answer. *)
Definition isMiss (c : Client) (id : Z) : bool :=
  bool_decide (baseFilePath (m_iconsIndex c) id = "").

(** A sequence of [filePath] calls: the values returned and the client. *)
Fixpoint filePaths (c : Client) (ids : list Z) : list string * Client :=
  match ids with
  | [] => ([], c)
  | id :: rest =>
      let '(p, c1) := filePath c id in
      let '(ps, c2) := filePaths c1 rest in
      (p :: ps, c2)
  end.

End ClassesIconsRepositoryClient.

Import MetaObjectRegistry.

(** A sequence of calls with one fuel for all of them. *)
Fixpoint runFrom (h : Host) (fuel : nat) (r : Registry) (evs : list Event)
    : option Registry :=
  match evs with
  | [] => Some r
  | ev :: rest =>
      match step h fuel r ev with
      | None => None
      | Some r' => runFrom h fuel r' rest
      end
  end.

(** ** Inspected processes used as examples *)

(** Three classes in read-only storage, [A] (1) the root, [B] (2) and
    [C] (3), and the [Qt] namespace (4); every object is a [C]. *)
Definition hostABC : Host :=
  {| superClass := λ m, match m with 3 => 2 | 2 => 1 | _ => 0 end%N;
     mo_className := λ m,
       match m with 1 => "A" | 2 => "B" | 3 => "C" | 4 => "Qt" | _ => "" end%N;
     isReadOnlyData := λ _, true;
     metaObject := λ _, 3%N;
     hasDynamicMetaObject := λ _, false;
     QMetaType_User := 1024;
     isRegistered := λ mtId, (mtId <? 4)%nat;
     metaTypes := [1; 0; 2; 3]%N;
     staticQtMetaObject := 4%N |}.

(** Two classes in read-only storage, [QObject] (8) and [Item] (4)
    derived from it, and the [Qt] namespace (9); on the heap [Base] (1)
    derived from [QObject], two descriptors named [ScriptObject], 2 derived
    from [Base] and 3 derived from [Item], and two descriptors named [Lone]
    (5, 6) derived from [QObject].  The scan finds [QObject] and [Qt].
    Object 11 has descriptor 3, objects 12 and 14 descriptor 5, object 13
    descriptor 6, every other object descriptor 2; every object but 12 has
    a dynamic meta object. *)
Definition hostScript : Host :=
  {| superClass := λ m,
       match m with 2 => 1 | 3 => 4 | 1 | 4 | 5 | 6 => 8 | _ => 0 end%N;
     mo_className := λ m,
       match m with
       | 1 => "Base" | 2 | 3 => "ScriptObject" | 4 => "Item"
       | 5 | 6 => "Lone" | 8 => "QObject" | 9 => "Qt" | _ => ""
       end%N;
     isReadOnlyData := λ m, match m with 4 | 8 | 9 => true | _ => false end%N;
     metaObject := λ o,
       match o with 11 => 3 | 12 | 14 => 5 | 13 => 6 | _ => 2 end%N;
     hasDynamicMetaObject := λ o, negb (o =? 12)%N;
     QMetaType_User := 1024;
     isRegistered := λ mtId, (mtId <? 1)%nat;
     metaTypes := [8%N];
     staticQtMetaObject := 9%N |}.

(** The registry of [hostABC] after the scan, then with one instance of
    [C], then with that instance removed. *)
Definition regABC_scanned : Registry :=
  default emptyRegistry (scanMetaTypes hostABC 4 emptyRegistry).

Definition regABC_added : Registry :=
  default emptyRegistry (objectAdded hostABC 6 regABC_scanned 100%N).

Definition regABC_removed : Registry :=
  default emptyRegistry (objectRemoved 6 regABC_added 100%N).

(** The registry of [hostScript] after the scan, then with object 10, an
    instance of descriptor 2, and then with object 11, an instance of
    descriptor 3. *)
Definition regScript_scanned : Registry :=
  default emptyRegistry (scanMetaTypes hostScript 4 emptyRegistry).

Definition eventsScript_scanned : list Event :=
  [EvAddMetaObject 8 false; EvAddMetaObject 9 false]%N.

Definition regScript_one : Registry :=
  default emptyRegistry (objectAdded hostScript 8 regScript_scanned 10%N).

Definition regScript_two : Registry :=
  default emptyRegistry (objectAdded hostScript 8 regScript_one 11%N).

(** The events that lead to [regABC_added]. *)
Definition eventsABC_added : list Event :=
  [EvAddMetaObject 1 false; EvAddMetaObject 2 false; EvAddMetaObject 3 false;
   EvAddMetaObject 4 false; EvObjectAdded 100]%N.

(** [regScript_one] with object 10 removed again. *)
Definition regScript_gone : Registry :=
  default emptyRegistry (objectRemoved 8 regScript_one 10%N).

(** The registry of [hostScript] after the scan and the objects 12 and
    13: descriptor 5 is registered without merging and descriptor 6, of the
    same name, with merging. *)
Definition regScript_lone : Registry :=
  default emptyRegistry
    (runFrom hostScript 8 regScript_scanned
       [EvObjectAdded 12%N; EvObjectAdded 13%N]).

(** A registry in which object 7 is tracked under node 5 although no
    instance of node 5 is counted alive. *)
Definition regStale : Registry :=
  {| m_metaObjectInfoMap := {[ 5%N := describe "Gone" false false defaultInfo ]};
     m_childParentMap := {[ 5%N := 0%N ]};
     m_parentChildMap := {[ 0%N := [5%N] ]};
     m_metaObjectNameMap := ∅;
     m_metaObjectMap := {[ 7%N := 5%N ]};
     m_aliveInstances := ∅;
     m_dynamicMetaObjectMap := ∅;
     m_canonicalMetaObjectMap := ∅;
     emitted := [beforeMetaObjectAdded 5; afterMetaObjectAdded 5] |}.


(** ** Further queries and notions *)

(** [inheritsQObject]; [qobject] is the address of
    [QObject::staticMetaObject]. *)
Fixpoint inheritsQObject (fuel : nat) (qobject : MO) (r : Registry) (mo : MO)
    : option bool :=
  match fuel with
  | O => None
  | S fuel' =>
      if (mo =? 0)%N then Some false
      else if (mo =? qobject)%N then Some true
      else inheritsQObject fuel' qobject r (parentIn (m_childParentMap r) mo)
  end.

(** The roles of [data], and the variants of [QVariant] it returns. *)
Inductive MetaObjectData :=
| ClassName | Valid | SelfCount | InclusiveCount | SelfAliveCount
| InclusiveAliveCount.

Inductive QVariant :=
| QVariant_string (s : string)
| QVariant_bool (b : bool)
| QVariant_int (n : Z).

Definition countOrDash (inherits : bool) (n : Z) : QVariant :=
  if inherits then QVariant_int n else QVariant_string "-".

Definition data (fuel : nat) (qobject : MO) (r : Registry) (mo : MO)
    (type : MetaObjectData) : option QVariant :=
  match type with
  | ClassName => Some (QVariant_string (className (infoOf r mo)))
  | Valid => Some (QVariant_bool (isValid r mo))
  | SelfCount =>
      (λ b, countOrDash b (selfCount (infoOf r mo)))
        <$> inheritsQObject fuel qobject r mo
  | InclusiveCount =>
      (λ b, countOrDash b (inclusiveCount (infoOf r mo)))
        <$> inheritsQObject fuel qobject r mo
  | SelfAliveCount =>
      (λ b, countOrDash b (selfAliveCount (infoOf r mo)))
        <$> inheritsQObject fuel qobject r mo
  | InclusiveAliveCount =>
      (λ b, countOrDash b (inclusiveAliveCount (infoOf r mo)))
        <$> inheritsQObject fuel qobject r mo
  end.

(** The parent-children map lists, under every parent, the nodes that
    have it as parent in the child-parent map, each once. *)
Record Mirror (r : Registry) : Prop := {
  mirror_children : ∀ p m,
      m ∈ childrenOf r p ↔ m_childParentMap r !! m = Some p;
  mirror_NoDup : ∀ p, NoDup (childrenOf r p)
}.

(** The order the code keeps among the counters of one entry. *)
Definition bounded (i : MetaObjectInfo) : Prop :=
  0 ≤ selfAliveCount i ∧ selfAliveCount i ≤ selfCount i ∧
  selfCount i ≤ inclusiveCount i ∧
  inclusiveAliveCount i ≤ inclusiveCount i.

(** [regScript_one] after [addMetaObject] of descriptor 3 with merging. *)
Definition regScript_merged : Registry :=
  default emptyRegistry (snd <$> addMetaObject hostScript 6 regScript_one 3%N true).

(** The alive instances recorded for node [c]. *)
Definition poolOf (r : Registry) (c : MO) : list MO :=
  default [] (m_aliveInstances r !! c).

(** Every descriptor the canonical map resolves is an alive instance of
    the node it resolves to. *)
Definition canonicalAlive (r : Registry) : Prop :=
  ∀ a c, m_canonicalMetaObjectMap r !! a = Some c → a ∈ poolOf r c.

(** The tracked objects of node [n] whose descriptor is [d]. *)
Definition trackedAs (h : Host) (r : Registry) (n d : MO) : nat :=
  size (filter (λ om : N * N, om.2 = n ∧ metaObject h om.1 = d)
          (m_metaObjectMap r)).

(** How often [d] occurs in a pool. *)
Definition occurrences (d : MO) (l : list MO) : nat :=
  length (filter (λ y, y = d) l).

(** What the pools of the dynamic nodes hold after any sequence of calls. *)
Record Pooled (h : Host) (r : Registry) : Prop := {
  pooled_dyn : ∀ o n, m_metaObjectMap r !! o = Some n →
      isDynamic (infoOf r n) = true →
      m_dynamicMetaObjectMap r !! o = Some (metaObject h o);
  pooled_le : ∀ n d, isDynamic (infoOf r n) = true →
      (trackedAs h r n d ≤ occurrences d (poolOf r n))%nat;
  pooled_len : ∀ n, isDynamic (infoOf r n) = true →
      selfAliveCount (infoOf r n) = Z.of_nat (length (poolOf r n));
  pooled_nonnull : ∀ n, 0%N ∉ poolOf r n
}.

(** And when the objects come and go in order. *)
Definition PooledExact (h : Host) (r : Registry) : Prop :=
  ∀ n d, isDynamic (infoOf r n) = true →
         occurrences d (poolOf r n) = trackedAs h r n d.

(** ** The client between its user and the server *)

(** What happens to a client: its user calls [filePath], or the server's
    [indexResponse] arrives, which the constructor connects to
    [indexReceived]. *)
Inductive ClientEvent :=
| CallFilePath (id : Z)
| IndexResponse (index : list string).

Definition clientStep (c : ClassesIconsRepositoryClient.Client)
    (ev : ClientEvent) : ClassesIconsRepositoryClient.Client :=
  match ev with
  | CallFilePath id => (ClassesIconsRepositoryClient.filePath c id).2
  | IndexResponse index => ClassesIconsRepositoryClient.indexReceived c index
  end.

Fixpoint clientRun (c : ClassesIconsRepositoryClient.Client)
    (evs : list ClientEvent) : ClassesIconsRepositoryClient.Client :=
  match evs with
  | [] => c
  | ev :: rest => clientRun (clientStep c ev) rest
  end.

(** The indexes received, in order. *)
Definition received (evs : list ClientEvent) : list (list string) :=
  omap (λ ev, match ev with
              | IndexResponse index => Some index
              | CallFilePath _ => None
              end) evs.

(** What the name map holds after any sequence of calls: the nodes
    classified dynamic, each under its class name. *)
Record Named (h : Host) (r : Registry) : Prop := {
  named_entry : ∀ k c, m_metaObjectNameMap r !! k = Some c →
      mo_className h c = k ∧ isDynamic (infoOf r c) = true;
  named_dynamic : ∀ c, isDynamic (infoOf r c) = true →
      m_metaObjectNameMap r !! mo_className h c = Some c
}.

(** How often the signal [s] occurs in a log, and was emitted. *)
Definition count_signal (s : Signal) (es : list Signal) : nat :=
  length (filter (λ e, e = s) es).

Definition signalled (s : Signal) (r : Registry) : nat :=
  count_signal s (emitted r).

(** What the signals emitted tell after any sequence of calls. *)
Record Logged (r : Registry) : Prop := {
  logged_before : ∀ m,
      signalled (beforeMetaObjectAdded m) r
      = if MetaObjectRegistry.isKnownMetaObject r m then 1%nat else 0%nat;
  logged_after : ∀ m,
      signalled (afterMetaObjectAdded m) r
      = if MetaObjectRegistry.isKnownMetaObject r m then 1%nat else 0%nat;
  logged_changes : ∀ n,
      Z.of_nat (signalled (dataChanged n) r)
      = 2 * inclusiveCount (infoOf r n) - inclusiveAliveCount (infoOf r n)
}.

(** ** Sums over the subtree of a node *)

Definition sumZ (l : list Z) : Z := foldr Z.add 0 l.

(** The nodes of the graph. *)
Definition nodes (r : Registry) : list MO := elements (dom (m_childParentMap r)).

(** The sum of the counter [f] over the node [n] and its descendants, which
    are the nodes that have [n] on their ancestor path. *)
Definition subtreeSum (f : MetaObjectInfo → Z) (r : Registry) (n : MO) : Z :=
  sumZ ((λ m, if bool_decide (n ∈ lineage r m) then f (infoOf r m) else 0)
          <$> nodes r).

Record Summed (r : Registry) : Prop := {
  summed_created : ∀ n, inclusiveCount (infoOf r n) = subtreeSum selfCount r n;
  summed_alive : ∀ n,
      inclusiveAliveCount (infoOf r n) = subtreeSum selfAliveCount r n
}.

(** Every descriptor the canonical map resolves stands for the node it
    resolves to: it is that node, or a descriptor outside read-only storage
    whose class name has that node as its canonical one. *)
Definition canonicalResolves (h : Host) (r : Registry) : Prop :=
  ∀ a c, m_canonicalMetaObjectMap r !! a = Some c →
         MetaObjectRegistry.resolves h r a c.

(** [derivesFrom h m x]: [x] is the descriptor [m], which is not
    [nullptr], or one of its super classes. *)
Inductive derivesFrom (h : Host) : MO → MO → Prop :=
| derives_self m : m ≠ 0%N → derivesFrom h m m
| derives_super m x :
    m ≠ 0%N → derivesFrom h (superClass h m) x → derivesFrom h m x.

(** [regScript_lone] with object 14, whose descriptor 5 is known but not
    the canonical one of its class name. *)
Definition regScript_three : Registry :=
  default emptyRegistry (objectAdded hostScript 8 regScript_lone 14%N).

(** [regScript_lone] with object 10, and then with object 11. *)
Definition regScript_lone_one : Registry :=
  default emptyRegistry (objectAdded hostScript 8 regScript_lone 10%N).

Definition regScript_lone_two : Registry :=
  default emptyRegistry (objectAdded hostScript 8 regScript_lone_one 11%N).

(** The ids of registered meta types that the loop of the scan reaches:
    no id between [QMetaType::User] and the id is without a registered
    type. *)
Definition reached (h : Host) (mtId : nat) : bool :=
  isRegistered h mtId
  && forallb (isRegistered h)
       (seq (S (QMetaType_User h)) (mtId - S (QMetaType_User h))).

(** Classes in read-only storage, [A] (1), [B] (2) derived from it, [Late]
    (3) and the [Qt] namespace (4).  [QMetaType::User] is 2; the ids 0, 4
    and 5 are registered, with the descriptors 1, 3 and 2: the scan ends at
    id 3 and reaches id 0 only. *)
Definition hostGap : Host :=
  {| superClass := λ m, match m with 2 => 1 | _ => 0 end%N;
     mo_className := λ m,
       match m with
       | 1 => "A" | 2 => "B" | 3 => "Late" | 4 => "Qt" | _ => ""
       end%N;
     isReadOnlyData := λ _, true;
     metaObject := λ _, 2%N;
     hasDynamicMetaObject := λ _, false;
     QMetaType_User := 2;
     isRegistered := λ mtId,
       match mtId with 0 | 4 | 5 => true | _ => false end%nat;
     metaTypes := [1; 0; 0; 0; 3; 2]%N;
     staticQtMetaObject := 4%N |}.

Definition regGap_scanned : Registry :=
  default emptyRegistry (scanMetaTypes hostGap 4 emptyRegistry).

(** * Properties *)

(** ** Paths in the child-parent map *)

Section Paths.
Implicit Types (cp : gmap N N) (m p : N) (l : list N).

Lemma path_det cp m l1 l2 : path cp m l1 → path cp m l2 → l1 = l2.
Proof.
  intros H1; revert l2; induction H1; intros l2 H2; inversion H2; subst;
    try congruence.
  f_equal; auto.
Qed.

Lemma walk_path fuel cp m l : walk fuel cp m = Some l → path cp m l.
Proof.
  revert m l; induction fuel as [|f IH]; intros m l; simpl; [done|].
  destruct (N.eqb_spec m 0) as [->|Hm].
  - intros [= <-]; constructor.
  - destruct (walk f cp (parentIn cp m)) as [l'|] eqn:E; simpl; [|done].
    intros [= <-]; constructor; auto.
Qed.

Lemma path_walk fuel cp m l :
  path cp m l → (length l < fuel)%nat → walk fuel cp m = Some l.
Proof.
  intros Hp; revert fuel; induction Hp as [|m l Hm Hp IH]; intros fuel Hlen.
  - destruct fuel; [simpl in Hlen; lia|done].
  - destruct fuel as [|f]; [simpl in Hlen; lia|]; simpl.
    destruct (N.eqb_spec m 0); [done|].
    rewrite IH; [done|simpl in Hlen; lia].
Qed.

Lemma path_head cp m l : path cp m l → m ≠ 0%N → ∃ l', l = m :: l'.
Proof. destruct 1; [done|eauto]. Qed.

Lemma path_unknown cp m : m ≠ 0%N → cp !! m = None → path cp m [m].
Proof.
  intros Hm Hn; constructor; [done|].
  unfold parentIn; rewrite Hn; constructor.
Qed.

Lemma path_nonzero cp m l x : path cp m l → x ∈ l → x ≠ 0%N.
Proof.
  induction 1 as [|m l Hm Hp IH]; [by intros ?%elem_of_nil|].
  intros [->|?]%elem_of_cons; auto.
Qed.

Lemma path_known cp m l x :
  forest cp → is_Some (cp !! m) → path cp m l → x ∈ l → is_Some (cp !! x).
Proof.
  intros Hf Hk Hp; revert Hk; induction Hp as [|m l Hm Hp IH]; intros Hk.
  - by intros ?%elem_of_nil.
  - intros [->|Hx]%elem_of_cons; [done|].
    destruct Hk as [q Hq]. unfold parentIn in *; rewrite Hq in *; simpl in *.
    destruct (decide (q = 0%N)) as [->|Hq0].
    + inversion Hp; subst; [by apply elem_of_nil in Hx|done].
    + apply IH; [|done]. eapply forest_closed; eauto.
Qed.

Lemma path_rank cp (rank : N → nat) m l x :
  (∀ m p, cp !! m = Some p → p ≠ 0%N → (rank p < rank m)%nat) →
  path cp m l → x ∈ l → (rank x ≤ rank m)%nat.
Proof.
  intros Hr Hp; induction Hp as [|m l Hm Hp IH]; [by intros ?%elem_of_nil|].
  intros [->|Hx]%elem_of_cons; [done|].
  specialize (IH Hx). unfold parentIn in *.
  destruct (cp !! m) as [q|] eqn:Hq; simpl in *.
  - assert (q ≠ 0%N) by (intros ->; inversion Hp; subst; [by apply elem_of_nil in Hx|done]).
    specialize (Hr _ _ Hq H). lia.
  - inversion Hp; subst; [by apply elem_of_nil in Hx|done].
Qed.

Lemma path_NoDup cp m l : forest cp → path cp m l → NoDup l.
Proof.
  intros [_ _ [rank Hr]] Hp; induction Hp as [|m l Hm Hp IH]; constructor; [|done].
  intros Hin. unfold parentIn in *.
  destruct (cp !! m) as [q|] eqn:Hq; simpl in *.
  - assert (q ≠ 0%N) by (intros ->; inversion Hp; subst; [by apply elem_of_nil in Hin|done]).
    pose proof (path_rank _ _ _ _ _ Hr Hp Hin). specialize (Hr _ _ Hq H). lia.
  - inversion Hp; subst; [by apply elem_of_nil in Hin|done].
Qed.

Lemma path_exists cp m : forest cp → ∃ l, path cp m l.
Proof.
  intros [_ _ [rank Hr]].
  remember (rank m) as k eqn:Hk. revert m Hk.
  induction k as [k IH] using lt_wf_ind; intros m ->.
  destruct (decide (m = 0%N)) as [->|Hm]; [eexists; constructor|].
  destruct (cp !! m) as [q|] eqn:Hq; [|eexists; by apply path_unknown].
  destruct (decide (q = 0%N)) as [->|Hq0].
  - exists [m]; constructor; [done|]. unfold parentIn; rewrite Hq; constructor.
  - destruct (IH (rank q) (Hr _ _ Hq Hq0) q eq_refl) as [l Hl].
    exists (m :: l); constructor; [done|]. by unfold parentIn; rewrite Hq.
Qed.

Lemma path_length cp m l :
  forest cp → path cp m l → (length l ≤ S (size cp))%nat.
Proof.
  intros Hf Hp.
  destruct (decide (m = 0%N)) as [->|Hm]; [inversion Hp; subst; simpl; lia|].
  destruct (cp !! m) as [q|] eqn:Hq.
  - assert (l ⊆+ elements (dom cp)) as Hs.
    { apply NoDup_submseteq; [by eapply path_NoDup|].
      intros x Hx. apply elem_of_elements, elem_of_dom.
      eapply path_known; eauto. }
    apply submseteq_length in Hs.
    rewrite <-size_dom. unfold size, set_size; simpl. lia.
  - pose proof (path_det _ _ _ _ Hp (path_unknown _ _ Hm Hq)) as ->. simpl; lia.
Qed.

(** Entering a new node leaves the paths of the nodes that do not pass
    through it. *)
Lemma path_insert cp k q m l :
  path cp m l → k ∉ l → path (<[k := q]> cp) m l.
Proof.
  induction 1 as [|m l Hm Hp IH]; [constructor|].
  intros Hk. apply not_elem_of_cons in Hk as [Hkm Hkl].
  constructor; [done|]. unfold parentIn in *.
  rewrite lookup_insert_ne; auto.
Qed.

End Paths.

(** ** The two loops over the ancestors *)

Section Loops.
Implicit Types (im : gmap N MetaObjectInfo) (l : list N) (r : Registry).

Lemma bumpAll_notin f l im n : n ∉ l → bumpAll f l im !! n = im !! n.
Proof.
  revert im; induction l as [|c l IH]; intros im Hn; [done|].
  apply not_elem_of_cons in Hn as [Hnc Hnl]. simpl.
  rewrite IH by done. by rewrite lookup_insert_ne.
Qed.

Lemma bumpAll_in f l im n :
  NoDup l → n ∈ l →
  bumpAll f l im !! n = Some (f (default defaultInfo (im !! n))).
Proof.
  revert im; induction l as [|c l IH]; intros im Hd Hn;
    [by apply elem_of_nil in Hn|].
  apply NoDup_cons in Hd as [Hc Hd]. simpl.
  apply elem_of_cons in Hn as [->|Hn].
  - by rewrite bumpAll_notin, lookup_insert_eq.
  - rewrite IH by done. rewrite lookup_insert_ne; [done|]. by intros ->.
Qed.

Lemma bumpAll_is_Some f l im n :
  is_Some (bumpAll f l im !! n) ↔ is_Some (im !! n) ∨ n ∈ l.
Proof.
  revert im; induction l as [|c l IH]; intros im; simpl.
  - split; [by left|]. intros [?|?%elem_of_nil]; done.
  - rewrite IH, elem_of_cons. destruct (decide (c = n)) as [->|Hne].
    + rewrite lookup_insert_eq. split; [by right; left|]. intros _; left; eauto.
    + rewrite lookup_insert_ne by done. split; [tauto|].
      intros [?|[?|?]]; [tauto|congruence|tauto].
Qed.

Lemma infoOf_afterLoop f r l n :
  NoDup l →
  infoOf (afterLoop f r l) n = if decide (n ∈ l) then f (infoOf r n) else infoOf r n.
Proof.
  intros Hd. unfold infoOf; simpl. case_decide.
  - by rewrite bumpAll_in.
  - by rewrite bumpAll_notin.
Qed.

Lemma afterLoop_nil f r : afterLoop f r [] = r.
Proof. destruct r; unfold afterLoop; simpl. by rewrite app_nil_r. Qed.

Lemma increaseInclusive_walk fuel r current :
  increaseInclusive fuel r current
  = afterLoop incInclusive r <$> walk fuel (m_childParentMap r) current.
Proof.
  revert r current; induction fuel as [|f IH]; intros r current; simpl; [done|].
  destruct (N.eqb_spec current 0) as [->|Hc]; simpl.
  - by rewrite afterLoop_nil.
  - rewrite IH; simpl. unfold parentOf, parentIn; simpl.
    destruct (walk f (m_childParentMap r) _) as [l|]; simpl; [|done].
    f_equal. unfold afterLoop; simpl. f_equal. by rewrite <-app_assoc.
Qed.

(** The body of the loop of [objectRemoved] as one update of the entry. *)
Lemma decreaseInclusive_body r current :
  (let r2 := emit (dataChanged current)
               (set_infoMap <[current := decAlive (infoOf r current)]> r) in
   let info := infoOf r2 current in
   if (inclusiveAliveCount info =? 0) && negb (isStatic info)
   then set_infoMap <[current := markInvalid info]> r2 else r2)
  = emit (dataChanged current)
      (set_infoMap <[current := decInclusiveAlive (infoOf r current)]> r).
Proof.
  cbv zeta.
  assert (infoOf (emit (dataChanged current)
                    (set_infoMap <[current := decAlive (infoOf r current)]> r))
                 current
          = decAlive (infoOf r current)) as ->.
  { unfold infoOf at 1; simpl. by rewrite lookup_insert_eq. }
  unfold emit, set_infoMap, decInclusiveAlive; simpl.
  destruct (_ && _); simpl; [by rewrite insert_insert_eq|done].
Qed.

Lemma decreaseInclusive_walk fuel r current :
  decreaseInclusive fuel r current
  = afterLoop decInclusiveAlive r <$> walk fuel (m_childParentMap r) current.
Proof.
  revert r current; induction fuel as [|f IH]; intros r current; simpl; [done|].
  destruct (N.eqb_spec current 0) as [->|Hc]; simpl.
  - by rewrite afterLoop_nil.
  - rewrite decreaseInclusive_body. rewrite IH; simpl.
    unfold parentOf, parentIn; simpl.
    destruct (walk f (m_childParentMap r) _) as [l|]; simpl; [|done].
    f_equal. unfold afterLoop; simpl. f_equal. by rewrite <-app_assoc.
Qed.

(** In a forest the walk from any node ends within the size of the map. *)
Lemma lineage_path r m :
  forest (m_childParentMap r) → path (m_childParentMap r) m (lineage r m).
Proof.
  intros Hf. destruct (path_exists _ m Hf) as [l Hl].
  unfold lineage. erewrite path_walk; eauto.
  pose proof (path_length _ _ _ Hf Hl). lia.
Qed.

Lemma walk_lineage fuel r m l :
  forest (m_childParentMap r) →
  walk fuel (m_childParentMap r) m = Some l → l = lineage r m.
Proof.
  intros Hf Hw. eapply path_det; [by eapply walk_path|by apply lineage_path].
Qed.

Lemma walk_enough fuel r m :
  forest (m_childParentMap r) → (size (m_childParentMap r) + 2 ≤ fuel)%nat →
  walk fuel (m_childParentMap r) m = Some (lineage r m).
Proof.
  intros Hf Hfuel. apply path_walk; [by apply lineage_path|].
  pose proof (path_length _ _ _ Hf (lineage_path r m Hf)). lia.
Qed.

End Loops.

(** ** addMetaObject *)

Section AddMetaObject.
Variable h : Host.
Implicit Types (r : Registry) (m c p : N) (b : bool).

Lemma isKnown_true r m : isKnownMetaObject r m = true ↔ known r m.
Proof. unfold isKnownMetaObject. by rewrite bool_decide_eq_true. Qed.

Lemma isKnown_false r m : isKnownMetaObject r m = false ↔ ¬ known r m.
Proof. unfold isKnownMetaObject. by rewrite bool_decide_eq_false. Qed.

Lemma addMetaObject_S fuel r m b :
  addMetaObject h (S fuel) r m b =
  if isKnownMetaObject r m then Some (m, r)
  else if (m =? 0)%N then None
  else match (if negb (superClass h m =? 0)%N
                 && negb (isKnownMetaObject r (superClass h m))
              then addMetaObject h fuel r (superClass h m) b
              else Some (superClass h m, r)) with
       | None => None
       | Some (p, r1) => Some (finishAdd h r1 m p b)
       end.
Proof.
  simpl. destruct (isKnownMetaObject r m); [done|].
  destruct (m =? 0)%N; [done|].
  match goal with
  | |- match ?x with Some _ => _ | None => _ end = _ =>
      destruct x as [[p r1]|]; [|done]
  end.
  unfold finishAdd. destruct (negb _ && b); [|done].
  by destruct (m_metaObjectNameMap r1 !! _).
Qed.

Lemma addMetaObject_Adds fuel r m b c r' :
  addMetaObject h fuel r m b = Some (c, r') → Adds h b r m c r'.
Proof.
  revert r m c r'; induction fuel as [|f IH]; intros r m c r'; [done|].
  rewrite addMetaObject_S.
  destruct (isKnownMetaObject r m) eqn:Hk.
  { intros [= <- <-]. by apply Adds_known, isKnown_true. }
  apply isKnown_false in Hk.
  destruct (N.eqb_spec m 0) as [|Hm]; [done|].
  destruct (N.eqb_spec (superClass h m) 0) as [Hs|Hs]; simpl.
  { intros [= Hfin]. eapply Adds_direct; eauto. }
  destruct (isKnownMetaObject r (superClass h m)) eqn:Hks; simpl.
  { intros [= Hfin]. apply isKnown_true in Hks. eapply Adds_direct; eauto. }
  apply isKnown_false in Hks.
  destruct (addMetaObject h f r (superClass h m) b) as [[p r1]|] eqn:Hrec; [|done].
  intros [= Hfin]. eapply Adds_parent; eauto.
Qed.

(** Enough fuel for the unknown part of the super-class chain makes the
    call return. *)
Lemma addMetaObject_returns fuel r m b n :
  unknownChain h r m n → (n < fuel)%nat → m ≠ 0%N ∨ known r m →
  ∃ c r', addMetaObject h fuel r m b = Some (c, r').
Proof.
  intros Hc; revert fuel; induction Hc as [m Hstop|m n Hm Hk Hc IH];
    intros fuel Hfuel Hnn.
  - destruct fuel as [|f]; [lia|]. rewrite addMetaObject_S.
    assert (known r m) as Hk by (destruct Hstop, Hnn; done).
    apply isKnown_true in Hk. rewrite Hk. eauto.
  - destruct fuel as [|f]; [lia|]. rewrite addMetaObject_S.
    apply isKnown_false in Hk. rewrite Hk.
    destruct (N.eqb_spec m 0); [done|].
    destruct (N.eqb_spec (superClass h m) 0) as [Hs|Hs]; simpl.
    { destruct (finishAdd h r m (superClass h m) b); eauto. }
    destruct (isKnownMetaObject r (superClass h m)) eqn:Hks; simpl.
    { destruct (finishAdd h r m (superClass h m) b); eauto. }
    destruct (IH f) as (p & r1 & ->); [lia|by left|].
    destruct (finishAdd h r1 m p b); eauto.
Qed.

Lemma unknownChain_det r m n1 n2 :
  unknownChain h r m n1 → unknownChain h r m n2 → n1 = n2.
Proof.
  intros H1; revert n2; induction H1 as [m Hs|m n Hm Hk Hc IH]; intros n2 H2;
    inversion H2; subst; try done.
  - destruct Hs; done.
  - destruct H; done.
  - f_equal; auto.
Qed.

Lemma unknownChain_superChain r m n :
  superChain h m n → ∃ k, unknownChain h r m k ∧ (k ≤ n)%nat.
Proof.
  induction 1 as [|m n Hm Hc (k & Hk & Hle)].
  - exists 0%nat; split; [constructor; by left|done].
  - destruct (decide (known r m)) as [Hkn|Hkn].
    + exists 0%nat; split; [constructor; by right|lia].
    + exists (S k); split; [by constructor|lia].
Qed.

Lemma finishAdd_cases r1 m p b c r' :
  finishAdd h r1 m p b = (c, r') →
  (negb (isReadOnlyData h m) && b = true ∧
   m_metaObjectNameMap r1 !! mo_className h m = Some c ∧ r' = r1) ∨
  ((negb (isReadOnlyData h m) && b = true →
    m_metaObjectNameMap r1 !! mo_className h m = None) ∧
   c = m ∧
   r' = insertNode h
          (if negb (isReadOnlyData h m) && b
           then set_nameMap <[mo_className h m := m]> r1 else r1)
          m p (isReadOnlyData h m) b).
Proof.
  unfold finishAdd. destruct (negb _ && b) eqn:Hd.
  - destruct (m_metaObjectNameMap r1 !! _) eqn:Hn; intros [= <- <-]; [left|right]; done.
  - intros [= <- <-]; right. done.
Qed.

Lemma finishAdd_known r1 m p b c r' x :
  finishAdd h r1 m p b = (c, r') → known r' x → x = m ∨ known r1 x.
Proof.
  intros [(_ & _ & ->)|(_ & _ & ->)]%finishAdd_cases; [by right|].
  unfold known; simpl.
  destruct (decide (m = x)) as [->|Hne]; [by left|].
  rewrite lookup_insert_ne by done. by destruct (negb _ && b); right.
Qed.

(** The nodes a call enters lie on the unknown part of the super-class
    chain of its argument. *)
Lemma Adds_unknownChain b r m c r' :
  Adds h b r m c r' →
  ∃ n, unknownChain h r m n ∧
       ∀ x, known r' x → known r x ∨
            ∃ k, (0 < k ≤ n)%nat ∧ unknownChain h r x k.
Proof.
  induction 1 as [r m Hk|r m c r' Hk Hm Hs Hfin
                  |r m p r1 c r' Hk Hm Hs Hks Hrec (n & Hn & IH) Hfin].
  - exists 0%nat; split; [constructor; by right|by left].
  - assert (unknownChain h r m 1) as Hc.
    { constructor; [done..|]. constructor. done. }
    exists 1%nat; split; [done|].
    intros x [->|Hx]%(finishAdd_known _ _ _ _ _ _ _ Hfin); [|by left].
    right; exists 1%nat; split; [lia|done].
  - assert (unknownChain h r m (S n)) as Hc by by constructor.
    exists (S n); split; [done|].
    intros x [->|Hx]%(finishAdd_known _ _ _ _ _ _ _ Hfin).
    + right; exists (S n); split; [lia|done].
    + destruct (IH x Hx) as [?|(k & Hle & Hxk)]; [by left|].
      right; exists k; split; [lia|done].
Qed.

Lemma Adds_parent_fresh b r m p r1 :
  ¬ known r m → m ≠ 0%N → Adds h b r (superClass h m) p r1 → ¬ known r1 m.
Proof.
  intros Hk Hm Hadd Hk1.
  destruct (Adds_unknownChain _ _ _ _ _ Hadd) as (n & Hn & Hnew).
  destruct (Hnew m Hk1) as [?|(k & Hle & Hmk)]; [done|].
  assert (unknownChain h r m (S n)) as Hc by by constructor.
  pose proof (unknownChain_det _ _ _ _ Hmk Hc). lia.
Qed.

Lemma Adds_known_inv b r m c r' :
  Adds h b r m c r' → known r m → c = m ∧ r' = r.
Proof. destruct 1; done. Qed.

End AddMetaObject.

(** ** The invariant *)

Section Invariant.
Variable h : Host.
Implicit Types (r : Registry) (m c p : N) (b : bool).

Lemma snoc2_split {A} (l l1 l2 : list A) (a a' x : A) :
  l ++ [a; a'] = l1 ++ x :: l2 →
  (∃ l2', l = l1 ++ x :: l2') ∨ (l1 = l ∧ x = a) ∨ (l1 = l ++ [a] ∧ x = a').
Proof.
  revert l1; induction l as [|y l IH]; intros l1; simpl.
  - destruct l1 as [|z [|z' [|z'' l1]]]; simpl; intros [=]; subst; auto.
  - destruct l1 as [|z l1]; simpl; intros [=]; subst.
    + left; eauto.
    + destruct (IH _ H1) as [[l2' ->]|[[-> ->]|[-> ->]]]; eauto.
Qed.

Lemma snoc_list_split {A} (l l1 l2 k : list A) (x : A) :
  l ++ k = l1 ++ x :: l2 → x ∉ k → ∃ l2', l = l1 ++ x :: l2'.
Proof.
  revert l1; induction l as [|y l IH]; intros l1; simpl.
  - intros -> Hx. exfalso; apply Hx. apply elem_of_app; right; by left.
  - destruct l1 as [|z l1]; simpl; intros [=] Hx; subst; [eauto|].
    destruct (IH _ H1 Hx) as [l2' ->]; eauto.
Qed.

Lemma resolves_mono r r' s p :
  (∀ k c, m_metaObjectNameMap r !! k = Some c →
          m_metaObjectNameMap r' !! k = Some c) →
  resolves h r s p → resolves h r' s p.
Proof. intros Hn [->|[Hs Hp]]; [by left|right; auto]. Qed.

Lemma Inv_empty : Inv h emptyRegistry.
Proof.
  split; unfold known; simpl; try (intros; by simplify_map_eq).
  - split; [done|intros; by simplify_map_eq|].
    exists (λ _, 0%nat); intros; by simplify_map_eq.
  - intros m; rewrite lookup_empty, elem_of_nil. split; [by intros [??]|done].
Qed.

Lemma insertNode_Inv r1 mo parent b :
  Inv h r1 →
  mo ≠ 0%N → ¬ known r1 mo →
  (parent = 0%N ↔ superClass h mo = 0%N) →
  (parent ≠ 0%N → known r1 parent) →
  resolves h r1 (superClass h mo) parent →
  (negb (isReadOnlyData h mo) && b = true →
   m_metaObjectNameMap r1 !! mo_className h mo = None) →
  Inv h (insertNode h
           (if negb (isReadOnlyData h mo) && b
            then set_nameMap <[mo_className h mo := mo]> r1 else r1)
           mo parent (isReadOnlyData h mo) b).
Proof.
  intros HI Hmo Hfresh Hpar0 Hpark Hres Hname.
  set (r0 := if negb (isReadOnlyData h mo) && b
             then set_nameMap <[mo_className h mo := mo]> r1 else r1).
  assert (m_childParentMap r0 = m_childParentMap r1) as Hcp
    by (unfold r0; by destruct (negb _ && b)).
  assert (m_metaObjectInfoMap r0 = m_metaObjectInfoMap r1) as Hinfo
    by (unfold r0; by destruct (negb _ && b)).
  assert (m_metaObjectMap r0 = m_metaObjectMap r1) as Hobjs
    by (unfold r0; by destruct (negb _ && b)).
  assert (m_aliveInstances r0 = m_aliveInstances r1) as Halive
    by (unfold r0; by destruct (negb _ && b)).
  assert (emitted r0 = emitted r1) as Hlog
    by (unfold r0; by destruct (negb _ && b)).
  assert (∀ k c, m_metaObjectNameMap r1 !! k = Some c →
                 m_metaObjectNameMap r0 !! k = Some c) as Hnames.
  { unfold r0; destruct (negb _ && b) eqn:Hd; [|done]. simpl.
    intros k c Hk. rewrite lookup_insert_ne; [done|].
    intros <-. rewrite Hname in Hk; done. }
  assert (∀ k c, m_metaObjectNameMap r0 !! k = Some c → c = mo ∨
                 m_metaObjectNameMap r1 !! k = Some c) as Hnames'.
  { unfold r0; destruct (negb _ && b) eqn:Hd; [|by right]. simpl.
    intros k c. rewrite lookup_insert. case_decide; [intros [= <-]; by left|by right]. }
  assert (m_metaObjectInfoMap r1 !! mo = None) as Hnoinfo.
  { apply eq_None_not_Some. by rewrite (inv_info _ _ HI). }
  assert (parent ≠ mo) as Hpm.
  { intros ->. by apply Hfresh, Hpark. }
  unfold known in *.
  destruct HI as [[Hnull Hclosed [rank Hrank]] Hin Hii Hio Hif Hic Hip Hil Hiord His].
  unfold known in *.
  split; unfold known; simpl; rewrite ?Hcp, ?Hinfo, ?Hobjs, ?Halive, ?Hlog.
  - split.
    + by rewrite lookup_insert_ne.
    + intros m p. rewrite lookup_insert. case_decide as Hm.
      * intros [= <-] Hp. rewrite lookup_insert_ne by done. auto.
      * intros Hmp Hp. apply lookup_insert_is_Some. right; split; [|eauto].
        intros <-; apply Hfresh; eauto.
    + exists (λ x, if decide (x = mo) then S (rank parent) else rank x).
      intros m p. rewrite lookup_insert. case_decide as Hm.
      * intros [= <-] Hp. subst m.
        rewrite (decide_True (P := mo = mo)), (decide_False (P := parent = mo)) by done.
        lia.
      * intros Hmp Hp. rewrite (decide_False (P := m = mo)) by done.
        rewrite decide_False; [eauto|].
        intros ->. apply Hfresh. eauto.
  - intros k c [->|Hk]%Hnames'.
    + by rewrite lookup_insert_eq.
    + apply lookup_insert_is_Some'. right; eauto.
  - intros m. rewrite !lookup_insert_is_Some'. by rewrite Hii.
  - intros o m Hom. apply lookup_insert_is_Some'. right; eauto.
  - intros m i. rewrite lookup_insert. case_decide as Hm.
    + intros [= <-]. unfold infoOf. rewrite Hinfo, Hnoinfo; simpl.
      split; [done|]. by intros [?%negb_true_iff _]%andb_true_iff.
    + eauto.
  - intros m i. rewrite lookup_insert. case_decide as Hm.
    + intros [= <-]. by subst m.
    + eauto.
  - intros m pool Hpool. destruct (Hip _ _ Hpool) as [Hs Hd].
    split; [done|]. unfold infoOf in *; simpl.
    rewrite lookup_insert_ne; [by rewrite Hinfo|]. intros <-.
    rewrite Hnoinfo in Hd; done.
  - intros m. rewrite lookup_insert_is_Some', Hil, !elem_of_app, !elem_of_cons,
      elem_of_nil.
    split; [intros [->|?]; auto|intros [?|[[= ->]|[[=]|[]]]]; auto].
  - intros l1 l2 m p Heq.
    apply snoc2_split in Heq as [[l2' Heq]|[[-> [= ->]]|[_ [=]]]].
    + assert (is_Some (m_childParentMap r1 !! m)) as Hk.
      { apply Hil. rewrite Heq. apply elem_of_app; right; by left. }
      rewrite lookup_insert_ne by (intros <-; done). eauto.
    + rewrite lookup_insert_eq. intros [= <-] Hp. apply Hil; auto.
  - intros m p. rewrite lookup_insert. case_decide as Hm.
    + intros [= <-]. subst m. split; [done|]. eapply resolves_mono; eauto.
    + intros Hmp. destruct (His _ _ Hmp). split; [done|].
      eapply resolves_mono; [|eauto]. eauto.
Qed.

Lemma grows_Inv b r r' : Inv h r → grows h b r r' → Inv h r'.
Proof. induction 2; [done|]. apply insertNode_Inv; auto. Qed.

(** What a call of [addMetaObject] leaves as it was. *)
Lemma grows_frame b r r' :
  grows h b r r' →
  m_metaObjectMap r' = m_metaObjectMap r ∧
  m_aliveInstances r' = m_aliveInstances r ∧
  m_dynamicMetaObjectMap r' = m_dynamicMetaObjectMap r ∧
  m_canonicalMetaObjectMap r' = m_canonicalMetaObjectMap r.
Proof.
  induction 1 as [|r r1 mo parent Hg IH]; [done|].
  simpl. by destruct (negb _ && b).
Qed.

Lemma grows_parent b r r' m p :
  grows h b r r' →
  m_childParentMap r !! m = Some p → m_childParentMap r' !! m = Some p.
Proof.
  induction 1 as [|r r1 mo parent Hg IH Hmo Hfresh]; [done|].
  intros Hm; specialize (IH Hm). simpl.
  rewrite lookup_insert_ne; [by destruct (negb _ && b)|].
  intros <-. apply Hfresh. by eexists.
Qed.

Lemma grows_known b r r' m : grows h b r r' → known r m → known r' m.
Proof. intros Hg [p Hp]. exists p. by eapply grows_parent. Qed.

Lemma grows_names b r r' k c :
  grows h b r r' →
  m_metaObjectNameMap r !! k = Some c → m_metaObjectNameMap r' !! k = Some c.
Proof.
  induction 1 as [|r r1 mo parent Hg IH Hmo Hfresh Hp0 Hpk Hres Hname]; [done|].
  intros Hk; specialize (IH Hk). simpl.
  destruct (negb _ && b) eqn:Hd; [|done]. simpl.
  rewrite lookup_insert_ne; [done|]. intros <-. rewrite Hname in IH; done.
Qed.

(** The entries of the info map stay; a new node has a fresh entry. *)
Lemma grows_info b r r' m :
  Inv h r → grows h b r r' →
  m_metaObjectInfoMap r' !! m = m_metaObjectInfoMap r !! m ∨
  (¬ known r m ∧ known r' m ∧
   m_metaObjectInfoMap r' !! m
   = Some (describe (mo_className h m) (isReadOnlyData h m)
                    (negb (isReadOnlyData h m) && b) defaultInfo)).
Proof.
  intros HI; induction 1 as [|r r1 mo parent Hg IH Hmo Hfresh]; [by left|].
  specialize (IH HI). pose proof (grows_Inv _ _ _ HI Hg) as HI1.
  assert (m_metaObjectInfoMap r1 !! mo = None) as Hnone.
  { apply eq_None_not_Some. by rewrite (inv_info _ _ HI1). }
  unfold known in *; simpl. destruct (decide (mo = m)) as [->|Hne].
  - right. rewrite !lookup_insert_eq. split; [|split; [done|]].
    + intros Hk. apply Hfresh. by eapply grows_known.
    + unfold infoOf. by destruct (negb _ && b); simpl; rewrite Hnone.
  - rewrite !lookup_insert_ne by done.
    by destruct (negb _ && b).
Qed.

Lemma grows_emitted b r r' :
  grows h b r r' →
  ∃ es, emitted r' = emitted r ++ es ∧ ∀ m, dataChanged m ∉ es.
Proof.
  induction 1 as [|r r1 mo parent Hg (es & Hes & Hno)].
  - exists []; split; [by rewrite app_nil_r|]. intros m; apply not_elem_of_nil.
  - exists (es ++ [beforeMetaObjectAdded mo; afterMetaObjectAdded mo]).
    simpl. split.
    + destruct (negb _ && b); simpl; by rewrite Hes, <-app_assoc.
    + intros m. rewrite elem_of_app, !elem_of_cons, elem_of_nil.
      intros [?|[?|[?|[]]]]; [by eapply Hno|done..].
Qed.

Lemma grows_size b r r' n m c :
  Adds h b r m c r' → unknownChain h r m n →
  (size (m_childParentMap r') ≤ size (m_childParentMap r) + n)%nat.
Proof.
  assert (∀ r1 mo p, ¬ known r1 mo → ∀ c' r2,
            finishAdd h r1 mo p b = (c', r2) →
            (size (m_childParentMap r2) ≤ S (size (m_childParentMap r1)))%nat)
    as Hfin.
  { intros r1 mo p Hk c' r2 [(_ & _ & ->)|(_ & _ & ->)]%finishAdd_cases; [lia|].
    simpl. rewrite map_size_insert_None; [by destruct (negb _ && b)|].
    destruct (negb _ && b); by apply eq_None_not_Some. }
  intros Hadd; revert n.
  induction Hadd as [r m Hk|r m c r' Hk Hm Hs Hf
                    |r m p r1 c r' Hk Hm Hs Hks Hrec IH Hf]; intros n Hc.
  - lia.
  - inversion Hc as [? [?|?]|? n' ? ? Hc']; subst; try done.
    specialize (Hfin _ _ _ Hk _ _ Hf). lia.
  - inversion Hc as [? [?|?]|? n' ? ? Hc']; subst; try done.
    specialize (IH _ Hc').
    pose proof (Adds_parent_fresh _ _ _ _ _ _ Hk Hm Hrec) as Hk1.
    specialize (Hfin _ _ _ Hk1 _ _ Hf). lia.
Qed.

(** A call that returns has entered nodes one by one, each after its
    parent; it returns a known descriptor. *)
Lemma Adds_grows b r m c r' :
  Inv h r → Adds h b r m c r' →
  grows h b r r' ∧ known r' c ∧ resolves h r' m c ∧
  (¬ known r m →
   if negb (isReadOnlyData h m) && b
   then m_metaObjectNameMap r' !! mo_className h m = Some c
   else c = m).
Proof.
  assert (∀ r r1 mo p c' r2,
    Inv h r → grows h b r r1 → ¬ known r1 mo → mo ≠ 0%N →
    (p = 0%N ↔ superClass h mo = 0%N) → (p ≠ 0%N → known r1 p) →
    resolves h r1 (superClass h mo) p →
    finishAdd h r1 mo p b = (c', r2) →
    grows h b r r2 ∧ known r2 c' ∧ resolves h r2 mo c' ∧
    (if negb (isReadOnlyData h mo) && b
     then m_metaObjectNameMap r2 !! mo_className h mo = Some c'
     else c' = mo)) as Hfin.
  { intros r0 r1 mo p c' r2 HI Hg Hk Hmo Hp0 Hpk Hres
      [(Hd & Hn & ->)|(Hn & -> & ->)]%finishAdd_cases.
    - pose proof (grows_Inv _ _ _ HI Hg) as HI1.
      split; [done|]. split; [by eapply inv_names|].
      rewrite Hd. split; [|done]. right. split; [|done].
      by apply andb_true_iff in Hd as [?%negb_true_iff _].
    - split; [by apply grows_node|].
      split; [unfold known; simpl; by rewrite lookup_insert_eq|].
      split; [by left|].
      destruct (negb _ && b); simpl; [by rewrite lookup_insert_eq|done]. }
  intros HI. induction 1 as [r m Hk|r m c r' Hk Hm Hs Hf
                             |r m p r1 c r' Hk Hm Hs Hks Hrec IH Hf].
  - split; [constructor|]. split; [done|]. split; [by left|done].
  - destruct (Hfin r r m (superClass h m) c r') as (?&?&?&?); auto using grows_refl.
    + intros Hp; destruct Hs; done.
    + by left.
  - destruct (IH HI) as (Hg & Hkp & Hresp & _).
    pose proof (grows_Inv _ _ _ HI Hg) as HI1.
    assert (p ≠ 0%N) as Hp.
    { intros ->. destruct Hkp as [? Hkp].
      by rewrite (forest_null _ (inv_forest _ _ HI1)) in Hkp. }
    destruct (Hfin r r1 m p c r') as (?&?&?&?); auto.
    + eapply Adds_parent_fresh; eauto.
    + done.
Qed.

End Invariant.

(** ** Sorted pools *)

Section Pools.
Implicit Types (l : list N) (x : N).

Lemma insertAt_lower_bound_sorted l x :
  StronglySorted N.le l → StronglySorted N.le (insertAt (lower_bound l x) x l).
Proof.
  unfold insertAt. induction 1 as [|y l Hs IH Hy]; simpl.
  - repeat constructor.
  - destruct (N.ltb_spec y x) as [Hlt|Hge]; simpl.
    + constructor; [done|].
      apply Forall_app; split; [by apply Forall_take|].
      constructor; [lia|by apply Forall_drop].
    + constructor; [by constructor|].
      constructor; [done|]. eapply Forall_impl; [done|]. simpl; intros; lia.
Qed.

Lemma delete_sorted l (i : nat) :
  StronglySorted N.le l → StronglySorted N.le (delete i l).
Proof.
  intros Hs; revert i; induction Hs as [|y l Hs IH Hy]; intros [|i]; simpl;
    [constructor|constructor|done|].
  constructor; [apply IH|]. by apply Forall_delete.
Qed.

Lemma sorted_head_min l x y :
  StronglySorted N.le (x :: l) → y ∈ x :: l → (x ≤ y)%N.
Proof.
  intros Hs. inversion Hs as [|?? _ Hall]; subst.
  intros [->|Hy]%elem_of_cons; [lia|].
  rewrite Forall_forall in Hall. by apply Hall.
Qed.

End Pools.

(** ** objectAdded and objectRemoved *)

Section Objects.
Variable h : Host.
Implicit Types (r : Registry) (m c p mo obj : N) (b : bool).

Lemma addSelf_childParentMap r obj mo :
  m_childParentMap (addSelf h r obj mo) = m_childParentMap r.
Proof. unfold addSelf. by destruct (isDynamic _). Qed.

Lemma removeSelf_childParentMap r obj mo :
  m_childParentMap (removeSelf r obj mo) = m_childParentMap r.
Proof. unfold removeSelf. by destruct (isDynamic _). Qed.

Lemma objectAdded_eq fuel r obj :
  objectAdded h fuel r obj =
  match addMetaObject h fuel r (metaObject h obj) (hasDynamicMetaObject h obj) with
  | None => None
  | Some (mo, r1) =>
      afterLoop incInclusive (addSelf h r1 obj mo)
        <$> walk fuel (m_childParentMap r1) mo
  end.
Proof.
  unfold objectAdded. destruct (addMetaObject _ _ _ _ _) as [[mo r1]|]; [|done].
  rewrite increaseInclusive_walk. fold (addSelf h r1 obj mo).
  by rewrite addSelf_childParentMap.
Qed.

Lemma objectRemoved_eq fuel r obj :
  objectRemoved fuel r obj =
  let mo := default 0%N (m_metaObjectMap r !! obj) in
  let r1 := set_metaObjectMap (delete obj) r in
  if (mo =? 0)%N then Some r1
  else if selfAliveCount (infoOf r mo) =? 0
       then Some (set_infoMap <[mo := infoOf r mo]> r1)
       else afterLoop decInclusiveAlive (removeSelf r obj mo)
              <$> walk fuel (m_childParentMap r) mo.
Proof.
  unfold objectRemoved. simpl. destruct (_ =? 0)%N; [done|].
  change (infoOf (set_metaObjectMap (delete obj) r)) with (infoOf r).
  destruct (_ =? 0); [done|].
  rewrite decreaseInclusive_walk.
  by rewrite <-(removeSelf_childParentMap r obj (default 0%N (m_metaObjectMap r !! obj))).
Qed.

Lemma bumpAll_pres (P : MetaObjectInfo → Prop) f l (im : gmap N MetaObjectInfo) :
  P defaultInfo → (∀ i, P i → P (f i)) →
  (∀ m i, im !! m = Some i → P i) →
  ∀ m i, bumpAll f l im !! m = Some i → P i.
Proof.
  intros Hd Hf; revert im; induction l as [|x l IH]; intros im Him; [done|].
  simpl. apply IH. intros m i. rewrite lookup_insert. case_decide; [|eauto].
  intros [= <-]. apply Hf. destruct (im !! x) eqn:E; simpl; eauto.
Qed.

Lemma bumpAll_field {A} (g : MetaObjectInfo → A) f l
    (im : gmap N MetaObjectInfo) m :
  (∀ i, g (f i) = g i) →
  g (default defaultInfo (bumpAll f l im !! m)) = g (default defaultInfo (im !! m)).
Proof.
  intros Hg; revert im; induction l as [|x l IH]; intros im; [done|].
  simpl. rewrite IH. rewrite lookup_insert. case_decide; [|done].
  subst. simpl. apply Hg.
Qed.

Lemma afterLoop_Inv f r l :
  Inv h r → (∀ x, x ∈ l → known r x) →
  (∀ i, isStatic (f i) = isStatic i) →
  (∀ i, isDynamic (f i) = isDynamic i) →
  (∀ i, isStatic i = true → invalid i = false → invalid (f i) = false) →
  Inv h (afterLoop f r l).
Proof.
  intros [Hfo Hin Hii Hio Hif Hic Hip Hil Hiord His] Hl Hst Hdy Hinv.
  split; unfold known in *; simpl; try done.
  - intros m. rewrite bumpAll_is_Some, Hii. split; [|by left].
    intros [?|?]; auto.
  - apply (bumpAll_pres
             (λ i, (isStatic i = true → invalid i = false) ∧
                   (isDynamic i = true → isStatic i = false))); [done| |done].
    intros i [H1 H2]. rewrite Hst, Hdy. split; [|done].
    intros Hs. by apply Hinv; [|apply H1].
  - intros m i Hi.
    assert (is_Some (m_metaObjectInfoMap r !! m)) as [i0 Hi0].
    { apply Hii. assert (is_Some (bumpAll f l (m_metaObjectInfoMap r) !! m)) as
        [?|?]%bumpAll_is_Some by eauto; [by apply Hii|auto]. }
    pose proof (bumpAll_field isStatic f l (m_metaObjectInfoMap r) m Hst) as Hfld.
    rewrite Hi, Hi0 in Hfld. simpl in Hfld. rewrite Hfld. eauto.
  - intros m pool Hpool. destruct (Hip _ _ Hpool) as [Hs Hd].
    split; [done|]. unfold infoOf in *; simpl.
    by rewrite (bumpAll_field isDynamic).
  - intros m. rewrite Hil, elem_of_app, list_elem_of_fmap.
    split; [by left|]. intros [?|(? & [=] & _)]; done.
  - intros l1 l2 m p Heq. apply snoc_list_split in Heq as [l2' Heq]; [eauto|].
    rewrite list_elem_of_fmap. intros (? & [=] & _).
Qed.

Lemma incInclusive_ok :
  (∀ i, isStatic (incInclusive i) = isStatic i) ∧
  (∀ i, isDynamic (incInclusive i) = isDynamic i) ∧
  (∀ i, isStatic i = true → invalid i = false → invalid (incInclusive i) = false).
Proof. done. Qed.

Lemma decInclusiveAlive_ok :
  (∀ i, isStatic (decInclusiveAlive i) = isStatic i) ∧
  (∀ i, isDynamic (decInclusiveAlive i) = isDynamic i) ∧
  (∀ i, isStatic i = true → invalid i = false →
        invalid (decInclusiveAlive i) = false).
Proof.
  split; [done|]. split; [done|]. intros i Hs Hi; simpl.
  rewrite Hs, andb_false_r. done.
Qed.

(** Replacing the entry of a known node by one with the same flags. *)
Lemma set_info_Inv r mo (i : MetaObjectInfo) :
  Inv h r → known r mo →
  isStatic i = isStatic (infoOf r mo) →
  isDynamic i = isDynamic (infoOf r mo) →
  invalid i = invalid (infoOf r mo) →
  Inv h (set_infoMap <[mo := i]> r).
Proof.
  intros [Hfo Hin Hii Hio Hif Hic Hip Hil Hiord His] Hk Hst Hdy Hiv.
  assert (is_Some (m_metaObjectInfoMap r !! mo)) as [i0 Hi0] by by apply Hii.
  unfold infoOf in Hst, Hdy, Hiv. rewrite Hi0 in Hst, Hdy, Hiv. simpl in *.
  split; unfold known in *; simpl; try done.
  - intros m. rewrite lookup_insert_is_Some', Hii. split; [|by right].
    intros [<-|?]; done.
  - intros m i'. rewrite lookup_insert. case_decide; [|eauto].
    intros [= <-]. rewrite Hst, Hdy, Hiv. eauto.
  - intros m i'. rewrite lookup_insert. case_decide; [|eauto].
    intros [= <-]. subst. rewrite Hst. eauto.
  - intros m pool Hpool. destruct (Hip _ _ Hpool) as [Hs Hd].
    split; [done|]. unfold infoOf in *; simpl.
    rewrite lookup_insert. case_decide; [|done].
    subst. simpl. rewrite Hi0 in Hd. by rewrite Hdy.
Qed.

Lemma addSelf_Inv r obj mo : Inv h r → known r mo → Inv h (addSelf h r obj mo).
Proof.
  intros HI Hk.
  assert (Inv h (set_infoMap <[mo := incSelf (infoOf r mo)]>
                   (set_metaObjectMap <[obj := mo]> r))) as HI3.
  { apply (set_info_Inv (set_metaObjectMap <[obj := mo]> r)); try done.
    destruct HI as [Hfo Hin Hii Hio Hif Hic Hip Hil Hiord His].
    split; unfold known in *; simpl; try done.
    intros o m. rewrite lookup_insert. case_decide; [by intros [= <-]|eauto]. }
  unfold addSelf.
  change (infoOf (set_metaObjectMap <[obj:=mo]> r) mo) with (infoOf r mo).
  destruct (isDynamic (incSelf (infoOf r mo))) eqn:Hd; [|done].
  destruct HI3 as [Hfo Hin Hii Hio Hif Hic Hip Hil Hiord His].
  split; unfold known in *; simpl in *; try done.
  intros m pool. rewrite lookup_insert. case_decide as Hm.
  - intros [= <-]. subst m. split.
    + apply insertAt_lower_bound_sorted.
      destruct (m_aliveInstances r !! mo) as [pool|] eqn:Hpool; simpl;
        [by apply (Hip _ _ Hpool)|constructor].
    + unfold infoOf; simpl. by rewrite lookup_insert_eq.
  - apply Hip.
Qed.

Lemma removeSelf_Inv r obj mo :
  Inv h r → known r mo → Inv h (removeSelf r obj mo).
Proof.
  intros HI Hk.
  assert (Inv h (set_infoMap <[mo := decSelfAlive (infoOf r mo)]>
                   (set_metaObjectMap (delete obj) r))) as HI3.
  { apply (set_info_Inv (set_metaObjectMap (delete obj) r)); try done.
    destruct HI as [Hfo Hin Hii Hio Hif Hic Hip Hil Hiord His].
    split; unfold known in *; simpl; try done.
    intros o m. rewrite lookup_delete. case_decide; [done|eauto]. }
  unfold removeSelf.
  change (infoOf (set_metaObjectMap (delete obj) r) mo) with (infoOf r mo).
  destruct (isDynamic (infoOf r mo)) eqn:Hd; [|done].
  destruct HI3 as [Hfo Hin Hii Hio Hif Hic Hip Hil Hiord His].
  split; unfold known in *; simpl in *; try done.
  intros m pool. rewrite lookup_insert. case_decide as Hm.
  - intros [= <-]. subst m.
    assert (StronglySorted N.le (default [] (m_aliveInstances r !! mo))) as Hs.
    { destruct (m_aliveInstances r !! mo) as [pool|] eqn:Hpool; simpl;
        [by apply (Hip _ _ Hpool)|constructor]. }
    split; [case_bool_decide; [by apply delete_sorted|done]|].
    unfold infoOf; simpl. by rewrite lookup_insert_eq.
  - apply Hip.
Qed.

(** Every call that returns preserves the invariant. *)
Lemma addMetaObject_Inv fuel r mo b c r' :
  Inv h r → addMetaObject h fuel r mo b = Some (c, r') → Inv h r' ∧ known r' c.
Proof.
  intros HI Hadd%addMetaObject_Adds.
  destruct (Adds_grows _ _ _ _ _ _ HI Hadd) as (Hg & Hk & _).
  split; [by eapply grows_Inv|done].
Qed.

Lemma objectAdded_Inv fuel r obj r' :
  Inv h r → objectAdded h fuel r obj = Some r' → Inv h r'.
Proof.
  intros HI. rewrite objectAdded_eq.
  destruct (addMetaObject _ _ _ _ _) as [[mo r1]|] eqn:Hadd; [|done].
  destruct (addMetaObject_Inv _ _ _ _ _ _ HI Hadd) as [HI1 Hk].
  destruct (walk _ _ _) as [l|] eqn:Hw; [|done]. intros [= <-].
  pose proof (addSelf_Inv r1 obj mo HI1 Hk) as HI4.
  apply afterLoop_Inv; try done; try apply incInclusive_ok.
  intros x Hx. unfold known. rewrite addSelf_childParentMap.
  eapply path_known; [apply HI1|done|by eapply walk_path|done].
Qed.

Lemma objectRemoved_Inv fuel r obj r' :
  Inv h r → objectRemoved fuel r obj = Some r' → Inv h r'.
Proof.
  intros HI. rewrite objectRemoved_eq. simpl.
  assert (Inv h (set_metaObjectMap (delete obj) r)) as HId.
  { destruct HI as [Hfo Hin Hii Hio Hif Hic Hip Hil Hiord His].
    split; unfold known in *; simpl; try done.
    intros o m. rewrite lookup_delete. case_decide; [done|eauto]. }
  destruct (N.eqb_spec (default 0%N (m_metaObjectMap r !! obj)) 0) as [|Hmo].
  { by intros [= <-]. }
  destruct (m_metaObjectMap r !! obj) as [mo|] eqn:Hobj; [|done]. simpl in *.
  assert (known r mo) as Hk by by eapply inv_objs.
  destruct (_ =? 0).
  { intros [= <-]. by apply (set_info_Inv (set_metaObjectMap (delete obj) r)). }
  destruct (walk _ _ _) as [l|] eqn:Hw; [|done]. intros [= <-].
  pose proof (removeSelf_Inv r obj mo HI Hk) as HI4.
  apply afterLoop_Inv; try done; try apply decInclusiveAlive_ok.
  intros x Hx. unfold known. rewrite removeSelf_childParentMap.
  eapply path_known; [apply HI|done|by eapply walk_path|done].
Qed.

Lemma step_Inv fuel r ev r' : Inv h r → step h fuel r ev = Some r' → Inv h r'.
Proof.
  intros HI. destruct ev as [mo b|obj|obj]; simpl.
  - destruct (addMetaObject _ _ _ _ _) as [[c r1]|] eqn:Hadd; [|done].
    intros [= <-]. by eapply addMetaObject_Inv.
  - by apply objectAdded_Inv.
  - by apply objectRemoved_Inv.
Qed.

Lemma run_Inv evs r : run h evs r → Inv h r.
Proof. induction 1; [apply Inv_empty|by eapply step_Inv]. Qed.

End Objects.

(** ** Runs *)

Section Runs.
Variable h : Host.

Lemma runFrom_run fuel evs0 r evs r' :
  run h evs0 r → runFrom h fuel r evs = Some r' → run h (evs0 ++ evs) r'.
Proof.
  revert evs0 r; induction evs as [|ev evs IH]; intros evs0 r Hrun; simpl.
  - intros [= <-]. by rewrite app_nil_r.
  - destruct (step h fuel r ev) as [r1|] eqn:Hstep; [|done].
    intros Hrest. change (ev :: evs) with ([ev] ++ evs).
    rewrite (assoc_L (++) evs0 [ev] evs).
    eapply IH; [|done]. by eapply run_snoc.
Qed.

Lemma runFrom_empty fuel evs r' :
  runFrom h fuel emptyRegistry evs = Some r' → run h evs r'.
Proof. apply (runFrom_run fuel [] emptyRegistry), run_nil. Qed.

(** The registry the constructor's scan leaves is one a run leads to. *)
Lemma scanLoop_run fuel evs r mtId mts r' :
  run h evs r → scanLoop h fuel r mtId mts = Some r' → ∃ evs', run h evs' r'.
Proof.
  revert evs r mtId; induction mts as [|mt mts IH]; intros evs r mtId Hrun; simpl.
  - intros [= <-]; eauto.
  - destruct (_ || _); [|intros [= <-]; eauto].
    destruct (negb _); [by apply (IH evs)|].
    destruct (mt =? 0)%N; [by apply (IH evs)|].
    destruct (addMetaObject h fuel r mt false) as [[c r1]|] eqn:Hadd; [|done].
    apply (IH (evs ++ [EvAddMetaObject mt false])).
    eapply run_snoc; [done|]. simpl. by rewrite Hadd.
Qed.

Lemma scanMetaTypes_run fuel r' :
  scanMetaTypes h fuel emptyRegistry = Some r' → ∃ evs, run h evs r'.
Proof.
  unfold scanMetaTypes.
  destruct (scanLoop h fuel emptyRegistry 0 (metaTypes h)) as [r1|] eqn:Hscan;
    [|done].
  destruct (scanLoop_run _ _ _ _ _ _ (run_nil h) Hscan) as [evs Hrun].
  destruct (addMetaObject h fuel r1 (staticQtMetaObject h) false)
    as [[c r2]|] eqn:Hadd; [|done].
  intros [= <-]. exists (evs ++ [EvAddMetaObject (staticQtMetaObject h) false]).
  eapply run_snoc; [done|]. simpl. by rewrite Hadd.
Qed.

End Runs.

(** ** The defensive return of objectRemoved *)

Lemma objectRemoved_untracked fuel r obj :
  m_metaObjectMap r !! obj = None → objectRemoved fuel r obj = Some r.
Proof.
  intros Hnone. unfold objectRemoved. rewrite Hnone. simpl.
  f_equal. destruct r; unfold set_metaObjectMap; simpl in *.
  by rewrite delete_id.
Qed.

Lemma objectRemoved_drop fuel r obj mo :
  m_metaObjectMap r !! obj = Some mo → mo ≠ 0%N →
  selfAliveCount (infoOf r mo) = 0 →
  objectRemoved fuel r obj
  = Some (set_infoMap <[mo := infoOf r mo]> (set_metaObjectMap (delete obj) r)).
Proof.
  intros Hobj Hmo Hzero. rewrite objectRemoved_eq, Hobj. simpl.
  destruct (N.eqb_spec mo 0); [done|]. by rewrite Hzero.
Qed.

Lemma infoOf_touch r mo n :
  infoOf (set_infoMap <[mo := infoOf r mo]> r) n = infoOf r n.
Proof.
  unfold infoOf; simpl. rewrite lookup_insert. by case_decide; subst.
Qed.

(** C6: [objectRemoved] changes nothing when the object has no entry in the
    object-to-descriptor map; and when the entry names a node whose
    [selfAliveCount] is already zero it returns without the decrement: every
    counter and flag of every node is what it was and no signal is
    emitted. *)
Theorem C6_objectRemoved_untracked_or_dropped (fuel : nat) (r : Registry) (obj : Obj) :
  (m_metaObjectMap r !! obj = None → objectRemoved fuel r obj = Some r) ∧
  (∀ mo, m_metaObjectMap r !! obj = Some mo → mo ≠ 0%N →
         selfAliveCount (infoOf r mo) = 0 →
         ∃ r', objectRemoved fuel r obj = Some r' ∧
               (∀ n, infoOf r' n = infoOf r n) ∧
               emitted r' = emitted r).
Proof.
  split; [apply objectRemoved_untracked|].
  intros mo Hobj Hmo Hzero. eexists; split; [by apply objectRemoved_drop|].
  split; [|done].
  intros n. apply (infoOf_touch (set_metaObjectMap (delete obj) r)).
Qed.

(** C6 on the empty registry, where object 7 is not tracked, and on
    [regStale], where its node counts no instance. *)
Lemma C6_witness :
  objectRemoved 0 emptyRegistry 7%N = Some emptyRegistry ∧
  ∃ r', objectRemoved 0 regStale 7%N = Some r' ∧
        (∀ n, infoOf r' n = infoOf regStale n) ∧
        emitted r' = emitted regStale.
Proof.
  split.
  - apply (C6_objectRemoved_untracked_or_dropped 0 emptyRegistry 7%N).
    reflexivity.
  - apply (C6_objectRemoved_untracked_or_dropped 0 regStale 7%N) with (mo := 5%N);
      [reflexivity|discriminate|reflexivity].
Defined.

(** C10: the return on a [selfAliveCount] of zero comes after
    [m_metaObjectMap.take]: the counters, the flags, the alive instances and
    the signals are what they were, but the object is no longer tracked, and
    a second [objectRemoved] for it changes nothing at all. *)
Theorem C10_drop_untracks (fuel : nat) (r : Registry) (obj : Obj) (mo : MO) :
  m_metaObjectMap r !! obj = Some mo → mo ≠ 0%N →
  selfAliveCount (infoOf r mo) = 0 →
  ∃ r', objectRemoved fuel r obj = Some r' ∧
        m_metaObjectMap r' = delete obj (m_metaObjectMap r) ∧
        m_metaObjectMap r' !! obj = None ∧
        r' ≠ r ∧
        (∀ n, infoOf r' n = infoOf r n) ∧
        m_aliveInstances r' = m_aliveInstances r ∧
        m_dynamicMetaObjectMap r' = m_dynamicMetaObjectMap r ∧
        m_canonicalMetaObjectMap r' = m_canonicalMetaObjectMap r ∧
        m_childParentMap r' = m_childParentMap r ∧
        emitted r' = emitted r ∧
        ∀ fuel', objectRemoved fuel' r' obj = Some r'.
Proof.
  intros Hobj Hmo Hzero. eexists; split; [by apply objectRemoved_drop|].
  simpl. repeat split.
  - apply lookup_delete_eq.
  - intros Heq. apply (f_equal (λ x, m_metaObjectMap x !! obj)) in Heq.
    simpl in Heq. rewrite lookup_delete_eq, Hobj in Heq. done.
  - intros n. apply (infoOf_touch (set_metaObjectMap (delete obj) r)).
  - intros fuel'. apply objectRemoved_untracked. simpl. apply lookup_delete_eq.
Qed.

(** C10 on [regStale]. *)
Lemma C10_witness :
  ∃ r', objectRemoved 0 regStale 7%N = Some r' ∧
        m_metaObjectMap r' = delete 7%N (m_metaObjectMap regStale) ∧
        m_metaObjectMap r' !! 7%N = None ∧
        r' ≠ regStale ∧
        (∀ n, infoOf r' n = infoOf regStale n) ∧
        m_aliveInstances r' = m_aliveInstances regStale ∧
        m_dynamicMetaObjectMap r' = m_dynamicMetaObjectMap regStale ∧
        m_canonicalMetaObjectMap r' = m_canonicalMetaObjectMap regStale ∧
        m_childParentMap r' = m_childParentMap regStale ∧
        emitted r' = emitted regStale ∧
        ∀ fuel', objectRemoved fuel' r' 7%N = Some r'.
Proof.
  apply (C10_drop_untracks 0 regStale 7%N 5%N);
    [reflexivity|discriminate|reflexivity].
Defined.

(** C7: in every registry a sequence of calls leads to, a node classified
    as static (its descriptor lies in read-only storage) is not marked
    invalid. *)
Theorem C7_static_never_invalid (h : Host) (evs : list Event) (r : Registry)
    (n : MO) (i : MetaObjectInfo) :
  run h evs r → m_metaObjectInfoMap r !! n = Some i →
  isStatic i = true ∨ isReadOnlyData h n = true →
  isStatic i = true ∧ invalid i = false ∧ isValid r n = true.
Proof.
  intros HI%run_Inv Hi Hst.
  assert (isStatic i = true) as Hs.
  { destruct Hst as [?|Hro]; [done|]. by rewrite (inv_class _ _ HI _ _ Hi). }
  destruct (inv_flags _ _ HI _ _ Hi) as [Hinv _].
  unfold isValid. rewrite Hi, (Hinv Hs). done.
Qed.


Lemma regABC_scanned_run :
  run hostABC [EvAddMetaObject 1 false; EvAddMetaObject 2 false;
               EvAddMetaObject 3 false; EvAddMetaObject 4 false]%N
      regABC_scanned.
Proof. apply (runFrom_empty hostABC 4). vm_compute. reflexivity. Defined.

Lemma regABC_removed_run :
  run hostABC [EvAddMetaObject 1 false; EvAddMetaObject 2 false;
               EvAddMetaObject 3 false; EvAddMetaObject 4 false;
               EvObjectAdded 100; EvObjectRemoved 100]%N
      regABC_removed.
Proof. apply (runFrom_empty hostABC 6). vm_compute. reflexivity. Defined.

Lemma regScript_scanned_run :
  run hostScript eventsScript_scanned regScript_scanned.
Proof. apply (runFrom_empty hostScript 4). vm_compute. reflexivity. Defined.

Lemma regScript_one_run :
  run hostScript (eventsScript_scanned ++ [EvObjectAdded 10%N]) regScript_one.
Proof. apply (runFrom_empty hostScript 8). vm_compute. reflexivity. Defined.

(** C7 on [hostABC]: node [C] after its only instance is removed. *)
Lemma C7_witness :
  isStatic (infoOf regABC_removed 3%N) = true ∧
  invalid (infoOf regABC_removed 3%N) = false ∧
  isValid regABC_removed 3%N = true.
Proof.
  apply (C7_static_never_invalid hostABC _ regABC_removed 3%N
           (infoOf regABC_removed 3%N) regABC_removed_run);
    [vm_compute; reflexivity|left; vm_compute; reflexivity].
Defined.


(** ** aliveInstance *)

(** What [aliveInstance] returns in a registry a sequence of calls leads
    to: the node itself when the node has no pool of alive instances, which
    is the case of every static node; [nullptr] when the pool is empty; the
    first and least entry of the pool otherwise.  The pools are sorted. *)
Lemma aliveInstance_spec (h : Host) (evs : list Event) (r : Registry) (n : MO) :
  run h evs r →
  (isStatic (infoOf r n) = true → m_aliveInstances r !! n = None) ∧
  (m_aliveInstances r !! n = None → aliveInstance r n = n) ∧
  (∀ pool, m_aliveInstances r !! n = Some pool →
     isDynamic (infoOf r n) = true ∧ StronglySorted N.le pool ∧
     aliveInstance r n = default 0%N (head pool) ∧
     ∀ x, x ∈ pool → (aliveInstance r n ≤ x)%N).
Proof.
  intros HI%run_Inv. unfold aliveInstance. repeat split.
  - intros Hs. destruct (m_aliveInstances r !! n) as [pool|] eqn:Hpool; [|done].
    destruct (inv_pools _ _ HI _ _ Hpool) as [_ Hd].
    unfold infoOf in *.
    destruct (m_metaObjectInfoMap r !! n) as [i|] eqn:Hi; simpl in *; [|done].
    destruct (inv_flags _ _ HI _ _ Hi) as [_ Hds]. rewrite Hds in Hs; done.
  - by intros ->.
  - by apply (inv_pools _ _ HI _ _ H).
  - by apply (inv_pools _ _ HI _ _ H).
  - rewrite H. by destruct pool.
  - rewrite H. destruct pool as [|y pool]; [by intros x ?%elem_of_nil|].
    intros x Hx. eapply sorted_head_min; [|done].
    by apply (inv_pools _ _ HI _ _ H).
Qed.

(** C8: [aliveInstance] at a dynamic node that has no alive instance of
    its own.  In [hostScript], adding object 10 (descriptor 2, derived from
    descriptor 1) after the scan registers node 1 as dynamic, without a pool
    of alive instances; [aliveInstance] returns node 1 itself there, not
    [nullptr]. *)
Theorem C8_aliveInstance_dynamic_without_pool :
  scanMetaTypes hostScript 4 emptyRegistry = Some regScript_scanned ∧
  objectAdded hostScript 8 regScript_scanned 10%N = Some regScript_one ∧
  run hostScript (eventsScript_scanned ++ [EvObjectAdded 10%N]) regScript_one ∧
  isDynamic (infoOf regScript_one 1%N) = true ∧
  isStatic (infoOf regScript_one 1%N) = false ∧
  m_aliveInstances regScript_one !! 1%N = None ∧
  aliveInstance regScript_one 1%N = 1%N ∧
  aliveInstance regScript_one 2%N = 2%N ∧
  m_aliveInstances regScript_one !! 2%N = Some [2%N].
Proof.
  do 2 (split; [by vm_compute|]). split; [apply regScript_one_run|].
  by vm_compute.
Qed.

(** ** The classes-icons repository client *)

Import ClassesIconsRepositoryClient.

Lemma filePaths_spec (c : Client) (ids : list Z) :
  (filePaths c ids).1 = baseFilePath (m_iconsIndex c) <$> ids ∧
  m_iconsIndex (filePaths c ids).2 = m_iconsIndex c ∧
  m_ready (filePaths c ids).2 = m_ready c || existsb (isMiss c) ids ∧
  invoked (filePaths c ids).2
  = invoked c ++ (if negb (m_ready c) && existsb (isMiss c) ids
                  then ["requestIndex"] else []) ∧
  indexChanged (filePaths c ids).2 = indexChanged c.
Proof.
  revert c; induction ids as [|id ids IH]; intros c; simpl.
  - rewrite orb_false_r, andb_false_r, app_nil_r. done.
  - unfold filePath.
    set (c1 := if bool_decide _ && negb (m_ready c) then requestIndex c else c).
    destruct (filePaths c1 ids) as [ps c2] eqn:E.
    destruct (IH c1) as (H1 & H2 & H3 & H4 & H5). rewrite E in *. simpl in *.
    assert (m_iconsIndex c1 = m_iconsIndex c) as Hidx
      by (unfold c1; by destruct (bool_decide _ && negb _)).
    assert (∀ l, existsb (isMiss c1) l = existsb (isMiss c) l) as Hmiss.
    { intros l. unfold isMiss. by rewrite Hidx. }
    rewrite H1, H2, H3, H4, H5, Hidx, Hmiss. unfold c1.
    fold (isMiss c id). generalize (existsb (isMiss c) ids) as e.
    generalize (isMiss c id) as miss. intros miss e.
    destruct miss, e, (m_ready c) eqn:Hr; simpl; rewrite ?Hr; simpl;
      rewrite ?app_nil_r, <-?app_assoc; done.
Qed.

(** C9: a sequence of [filePath] calls on one client, with no index
    response in between, sends at most one [requestIndex] invocation: none
    when the latch [m_ready] is already set, one when it is not and some
    query finds the cache empty; no operation of the client resets the
    latch.  Every call returns the cached value, and the cache is what it
    was.  On a new client two calls of [filePath 7] send exactly one request,
    and after the response [["a/b.png"]] the call [filePath 0] returns
    ["a/b.png"]. *)
Theorem C9_fetch_requested_at_most_once (c : Client) (ids : list Z) :
  (filePaths c ids).1 = baseFilePath (m_iconsIndex c) <$> ids ∧
  m_iconsIndex (filePaths c ids).2 = m_iconsIndex c ∧
  invoked (filePaths c ids).2
  = invoked c ++ (if negb (m_ready c) && existsb (isMiss c) ids
                  then ["requestIndex"] else []) ∧
  (length (invoked (filePaths c ids).2) ≤ S (length (invoked c)))%nat ∧
  m_ready (filePaths c ids).2 = m_ready c || existsb (isMiss c) ids ∧
  m_ready (requestIndex c) = true ∧
  (∀ index, m_ready (indexReceived c index) = m_ready c) ∧
  (filePaths newClient [7; 7]).1 = [""; ""] ∧
  invoked (filePaths newClient [7; 7]).2 = ["requestIndex"] ∧
  (filePath (indexReceived (filePaths newClient [7; 7]).2 ["a/b.png"]) 0).1
  = "a/b.png".
Proof.
  destruct (filePaths_spec c ids) as (H1 & H2 & H3 & H4 & H5).
  repeat split; try done.
  rewrite H4, length_app. destruct (negb _ && _); simpl; lia.
Qed.

(** ** Counting the tracked objects *)

Section Counting.
Context {A : Type} (P : N * A → Prop) `{!∀ x, Decision (P x)}.
Implicit Types (m : gmap N A).

Lemma size_filter_insert m i x :
  m !! i = None →
  size (filter P (<[i := x]> m))
  = if decide (P (i, x)) then S (size (filter P m)) else size (filter P m).
Proof.
  intros Hi. rewrite map_filter_insert. case_decide.
  - rewrite map_size_insert_None; [done|].
    apply map_lookup_filter_None_2. by left.
  - by rewrite delete_id.
Qed.

Lemma size_filter_delete m i x :
  m !! i = Some x →
  size (filter P m)
  = if decide (P (i, x)) then S (size (filter P (delete i m)))
    else size (filter P (delete i m)).
Proof.
  intros Hi. rewrite map_filter_delete, map_size_delete.
  case_decide as HP.
  - rewrite (map_lookup_filter_Some_2 P m i x Hi HP).
    assert (size (filter P m) ≠ 0%nat); [|lia].
    intros Hz%map_size_empty_inv.
    pose proof (map_lookup_filter_Some_2 P m i x Hi HP) as Hl.
    rewrite Hz, lookup_empty in Hl. done.
  - rewrite (proj2 (map_lookup_filter_None _ m i)); [done|].
    right. intros y Hy. congruence.
Qed.

End Counting.

Section CountsInvariant.
Variable h : Host.
Implicit Types (r : Registry) (m n c p mo obj : N) (b : bool).

Lemma lineage_ext r r' m :
  m_childParentMap r' = m_childParentMap r → lineage r' m = lineage r m.
Proof. unfold lineage. by intros ->. Qed.

Lemma subtreeAlive_ext r r' n :
  m_childParentMap r' = m_childParentMap r →
  m_metaObjectMap r' = m_metaObjectMap r →
  subtreeAlive r' n = subtreeAlive r n.
Proof.
  intros Hcp Hobjs. unfold subtreeAlive. rewrite Hobjs. f_equal.
  apply map_filter_ext. intros o m _. simpl. by rewrite (lineage_ext r r').
Qed.

Lemma lineage_known r m x :
  Inv h r → known r m → x ∈ lineage r m → known r x.
Proof.
  intros HI Hk Hx. eapply path_known; [apply HI|done| |done].
  apply lineage_path, HI.
Qed.

Lemma lineage_self r m : Inv h r → m ≠ 0%N → m ∈ lineage r m.
Proof.
  intros HI Hm.
  destruct (path_head _ _ _ (lineage_path r m (inv_forest _ _ HI)) Hm) as [l ->].
  by left.
Qed.

(** [addMetaObject] leaves the ancestors of the known nodes. *)
Lemma grows_lineage b r r1 m :
  Inv h r → grows h b r r1 → known r m → lineage r1 m = lineage r m.
Proof.
  intros HI Hg Hk.
  pose proof (grows_Inv _ _ _ _ HI Hg) as HI1.
  eapply path_det; [apply lineage_path, HI1|].
  assert (path (m_childParentMap r) m (lineage r m)) as Hp
    by apply lineage_path, HI.
  assert (∀ x, x ∈ lineage r m → known r x) as Hl
    by (intros x; by apply lineage_known).
  clear HI1. induction Hg as [|r r1 mo parent Hg IH Hmo Hfresh]; [done|].
  specialize (IH HI Hk Hp Hl). simpl.
  replace (m_childParentMap (if negb (isReadOnlyData h mo) && b
     then set_nameMap <[mo_className h mo:=mo]> r1 else r1))
    with (m_childParentMap r1) by by destruct (negb _ && b).
  apply path_insert; [done|].
  intros Hin. apply Hfresh. eapply grows_known; eauto.
Qed.

(** [addMetaObject] changes the describing fields of an entry only. *)
Lemma grows_infoOf b r r1 n :
  Inv h r → grows h b r r1 →
  ∃ name st dy, infoOf r1 n = describe name st dy (infoOf r n).
Proof.
  intros HI Hg. unfold infoOf.
  destruct (grows_info _ _ _ _ n HI Hg) as [->|(Hk & _ & ->)].
  - destruct (default _ _) as [name st dy ? ? ? ? ?]. by exists name, st, dy.
  - assert (m_metaObjectInfoMap r !! n = None) as ->.
    { apply eq_None_not_Some. by rewrite (inv_info _ _ HI). }
    simpl. eauto.
Qed.

Lemma Counts_empty : Counts emptyRegistry.
Proof.
  split; intros n; unfold selfAlive, subtreeAlive; simpl;
    rewrite ?map_filter_empty, ?map_size_empty; done.
Qed.

Lemma grows_Counts b r r1 :
  Inv h r → Counts r → grows h b r r1 → Counts r1.
Proof.
  intros HI [Hself Hincl Hinv] Hg.
  destruct (grows_frame _ _ _ _ Hg) as (Hobjs & _).
  assert (∀ n, selfAlive r1 n = selfAlive r n) as Hsa.
  { intros n. unfold selfAlive. by rewrite Hobjs. }
  assert (∀ n, subtreeAlive r1 n = subtreeAlive r n) as Hsub.
  { intros n. unfold subtreeAlive. rewrite Hobjs. f_equal.
    apply map_filter_ext. intros o m Hom. simpl.
    rewrite (grows_lineage b r r1); [done..|]. by eapply inv_objs. }
  split; intros n; destruct (grows_infoOf b r r1 n HI Hg) as (name & st & dy & ->);
    simpl; rewrite ?Hsa, ?Hsub; auto.
Qed.

Lemma infoOf_addSelf r obj mo n :
  infoOf (addSelf h r obj mo) n
  = if decide (n = mo) then incSelf (infoOf r n) else infoOf r n.
Proof.
  unfold addSelf.
  change (infoOf (set_metaObjectMap <[obj:=mo]> r) mo) with (infoOf r mo).
  assert (infoOf (set_infoMap <[mo:=incSelf (infoOf r mo)]>
                    (set_metaObjectMap <[obj:=mo]> r)) n
          = if decide (n = mo) then incSelf (infoOf r n) else infoOf r n) as Hi.
  { unfold infoOf; simpl. rewrite lookup_insert.
    destruct (decide (mo = n)) as [->|?]; [by rewrite decide_True|].
    by rewrite decide_False. }
  by destruct (isDynamic _).
Qed.

Lemma addSelf_metaObjectMap r obj mo :
  m_metaObjectMap (addSelf h r obj mo) = <[obj := mo]> (m_metaObjectMap r).
Proof. unfold addSelf. by destruct (isDynamic _). Qed.

Lemma addSelf_emitted r obj mo : emitted (addSelf h r obj mo) = emitted r.
Proof. unfold addSelf. by destruct (isDynamic _). Qed.

Lemma infoOf_removeSelf r obj mo n :
  infoOf (removeSelf r obj mo) n
  = if decide (n = mo) then decSelfAlive (infoOf r n) else infoOf r n.
Proof.
  unfold removeSelf.
  change (infoOf (set_metaObjectMap (delete obj) r) mo) with (infoOf r mo).
  assert (infoOf (set_infoMap <[mo:=decSelfAlive (infoOf r mo)]>
                    (set_metaObjectMap (delete obj) r)) n
          = if decide (n = mo) then decSelfAlive (infoOf r n) else infoOf r n) as Hi.
  { unfold infoOf; simpl. rewrite lookup_insert.
    destruct (decide (mo = n)) as [->|?]; [by rewrite decide_True|].
    by rewrite decide_False. }
  by destruct (isDynamic _).
Qed.

Lemma removeSelf_metaObjectMap r obj mo :
  m_metaObjectMap (removeSelf r obj mo) = delete obj (m_metaObjectMap r).
Proof. unfold removeSelf. by destruct (isDynamic _). Qed.

Lemma removeSelf_emitted r obj mo : emitted (removeSelf r obj mo) = emitted r.
Proof. unfold removeSelf. by destruct (isDynamic _). Qed.

(** [objectAdded] in one piece: the nodes [addMetaObject] enters, the
    object and the self counts at the node [mo] it returns, the inclusive
    counts along the ancestors of [mo]. *)
Lemma objectAdded_spec fuel r obj r' :
  Inv h r → objectAdded h fuel r obj = Some r' →
  ∃ mo r1,
    Adds h (hasDynamicMetaObject h obj) r (metaObject h obj) mo r1 ∧
    grows h (hasDynamicMetaObject h obj) r r1 ∧
    known r1 mo ∧
    r' = afterLoop incInclusive (addSelf h r1 obj mo) (lineage r1 mo) ∧
    lineage r' mo = lineage r1 mo ∧
    NoDup (lineage r1 mo).
Proof.
  intros HI. rewrite objectAdded_eq.
  destruct (addMetaObject _ _ _ _ _) as [[mo r1]|] eqn:Hadd; [|done].
  apply addMetaObject_Adds in Hadd.
  destruct (Adds_grows _ _ _ _ _ _ HI Hadd) as (Hg & Hk & _).
  pose proof (grows_Inv _ _ _ _ HI Hg) as HI1.
  destruct (walk _ _ _) as [l|] eqn:Hw; [|done]. intros [= <-].
  apply walk_lineage in Hw as ->; [|apply HI1].
  exists mo, r1. repeat split; try done.
  - apply lineage_ext. simpl. apply addSelf_childParentMap.
  - eapply path_NoDup; [apply HI1|]. apply lineage_path, HI1.
Qed.

(** [objectRemoved] of a tracked object whose node counts an instance. *)
Lemma objectRemoved_spec fuel r obj mo r' :
  Inv h r → m_metaObjectMap r !! obj = Some mo →
  selfAliveCount (infoOf r mo) ≠ 0 →
  objectRemoved fuel r obj = Some r' →
  known r mo ∧ mo ≠ 0%N ∧
  r' = afterLoop decInclusiveAlive (removeSelf r obj mo) (lineage r mo) ∧
  NoDup (lineage r mo).
Proof.
  intros HI Hobj Hself. rewrite objectRemoved_eq, Hobj. simpl.
  assert (known r mo) as Hk by by eapply inv_objs.
  assert (mo ≠ 0%N) as Hmo.
  { intros ->. destruct Hk as [? Hk].
    by rewrite (forest_null _ (inv_forest _ _ HI)) in Hk. }
  destruct (N.eqb_spec mo 0); [done|].
  destruct (Z.eqb_spec (selfAliveCount (infoOf r mo)) 0); [done|].
  destruct (walk _ _ _) as [l|] eqn:Hw; [|done]. intros [= <-].
  apply walk_lineage in Hw as ->; [|apply HI].
  repeat split; try done.
  eapply path_NoDup; [apply HI|]. apply lineage_path, HI.
Qed.

Lemma objectAdded_Counts fuel r obj r' :
  Inv h r → Counts r → m_metaObjectMap r !! obj = None →
  objectAdded h fuel r obj = Some r' → Counts r'.
Proof.
  intros HI HC Hfresh Hadd.
  destruct (objectAdded_spec _ _ _ _ HI Hadd) as (mo & r1 & _ & Hg & Hk & -> & Hlin & Hnd).
  pose proof (grows_Counts _ _ _ HI HC Hg) as [Hself Hincl Hinv].
  destruct (grows_frame _ _ _ _ Hg) as (Hobjs & _).
  set (r4 := addSelf h r1 obj mo) in *.
  set (l := lineage r1 mo) in *.
  assert (∀ n, infoOf (afterLoop incInclusive r4 l) n
               = if decide (n ∈ l)
                 then incInclusive (if decide (n = mo) then incSelf (infoOf r1 n)
                                    else infoOf r1 n)
                 else if decide (n = mo) then incSelf (infoOf r1 n)
                      else infoOf r1 n) as Hinfo.
  { intros n. rewrite infoOf_afterLoop by done. unfold r4.
    by rewrite infoOf_addSelf. }
  assert (m_metaObjectMap r1 !! obj = None) as Hfresh1 by by rewrite Hobjs.
  split; intros n; rewrite Hinfo.
  - unfold selfAlive; simpl. unfold r4. rewrite addSelf_metaObjectMap.
    rewrite size_filter_insert by done. simpl.
    specialize (Hself n). unfold selfAlive in Hself.
    destruct (decide (n ∈ l)), (decide (n = mo)) as [->|Hne]; simpl;
      rewrite ?decide_True, ?(decide_False (P := mo = n)) by done; lia.
  - rewrite (subtreeAlive_ext r4); [|done..].
    rewrite (subtreeAlive_ext (set_metaObjectMap <[obj := mo]> r1) r4);
      [|by unfold r4; rewrite addSelf_childParentMap
       |by unfold r4; rewrite addSelf_metaObjectMap].
    unfold subtreeAlive; simpl.
    change (lineage (set_metaObjectMap <[obj:=mo]> r1)) with (lineage r1).
    rewrite size_filter_insert by done. simpl. fold l.
    specialize (Hincl n). unfold subtreeAlive in Hincl.
    destruct (decide (n ∈ l)), (decide (n = mo)); simpl; lia.
  - destruct (decide (n ∈ l)); [done|].
    specialize (Hinv n). destruct (decide (n = mo)); simpl; auto.
Qed.

Lemma objectRemoved_Counts fuel r obj mo r' :
  Inv h r → Counts r → m_metaObjectMap r !! obj = Some mo →
  objectRemoved fuel r obj = Some r' → Counts r'.
Proof.
  intros HI [Hself Hincl Hinv] Hobj Hrem.
  assert (mo ≠ 0%N) as Hmo.
  { intros ->. destruct (inv_objs _ _ HI _ _ Hobj) as [? Hk].
    by rewrite (forest_null _ (inv_forest _ _ HI)) in Hk. }
  pose proof (λ n, size_filter_delete (λ om : N * N, om.2 = n) _ _ _ Hobj) as Hs.
  pose proof (λ n, size_filter_delete (λ om : N * N, n ∈ lineage r om.2) _ _ _ Hobj)
    as Hi. simpl in Hs, Hi.
  assert (selfAliveCount (infoOf r mo) ≠ 0) as Hpos.
  { rewrite Hself. unfold selfAlive. rewrite (Hs mo), decide_True by done. lia. }
  destruct (objectRemoved_spec _ _ _ _ _ HI Hobj Hpos Hrem) as (Hk & _ & -> & Hnd).
  set (r3 := removeSelf r obj mo) in *.
  set (l := lineage r mo) in *.
  assert (∀ n, infoOf (afterLoop decInclusiveAlive r3 l) n
               = if decide (n ∈ l)
                 then decInclusiveAlive (if decide (n = mo) then decSelfAlive (infoOf r n)
                                         else infoOf r n)
                 else if decide (n = mo) then decSelfAlive (infoOf r n)
                      else infoOf r n) as Hinfo.
  { intros n. rewrite infoOf_afterLoop by done. unfold r3.
    by rewrite infoOf_removeSelf. }
  split; intros n; rewrite Hinfo.
  - unfold selfAlive; simpl. unfold r3. rewrite removeSelf_metaObjectMap.
    specialize (Hself n). unfold selfAlive in Hself. specialize (Hs n).
    destruct (decide (n ∈ l)), (decide (n = mo)) as [->|Hne]; simpl;
      rewrite ?decide_True, ?(decide_False (P := mo = n)) in Hs by done; lia.
  - rewrite (subtreeAlive_ext r3); [|done..].
    rewrite (subtreeAlive_ext (set_metaObjectMap (delete obj) r) r3);
      [|by unfold r3; rewrite removeSelf_childParentMap
       |by unfold r3; rewrite removeSelf_metaObjectMap].
    unfold subtreeAlive; simpl.
    change (lineage (set_metaObjectMap (delete obj) r)) with (lineage r).
    specialize (Hincl n). unfold subtreeAlive in Hincl. specialize (Hi n).
    fold l in Hi.
    destruct (decide (n ∈ l)), (decide (n = mo)); simpl; lia.
  - specialize (Hincl n). unfold subtreeAlive in Hincl. specialize (Hi n).
    fold l in Hi. specialize (Hinv n).
    destruct (decide (n ∈ l)) as [Hin|Hin].
    + assert (inclusiveAliveCount (infoOf r n) ≠ 0) as Hnz by lia.
      destruct (decide (n = mo)); simpl;
        (destruct (Z.eqb_spec (inclusiveAliveCount (infoOf r n) - 1) 0);
         simpl; [lia|]);
        rewrite ?andb_false_l; intros Hv; apply Hinv in Hv; lia.
    + destruct (decide (n = mo)); simpl; auto.
Qed.

End CountsInvariant.

(** ** Sequences of events in order *)

Section Ordered.
Variable h : Host.
Implicit Types (r : Registry) (evs pre post : list Event) (ev : Event).

Lemma aliveAfter_snoc evs ev : aliveAfter (evs ++ [ev]) = track (aliveAfter evs) ev.
Proof. unfold aliveAfter. by rewrite foldl_app. Qed.

Lemma wellOrdered_prefix pre post : wellOrdered (pre ++ post) → wellOrdered pre.
Proof.
  intros Hw p ev q Heq. apply (Hw p ev (q ++ post)).
  rewrite Heq. by rewrite <-app_assoc.
Qed.

Lemma orderedFrom_correct s evs pre ev post :
  orderedFrom s evs = true → evs = pre ++ ev :: post →
  match ev with
  | EvObjectAdded obj => obj ∉ foldl track s pre
  | EvObjectRemoved obj => obj ∈ foldl track s pre
  | EvAddMetaObject _ _ => True
  end.
Proof.
  revert s evs; induction pre as [|e pre IH]; intros s evs Ho ->; simpl in *;
    apply andb_true_iff in Ho as [Hev Hrest].
  - destruct ev; [done|by apply bool_decide_eq_true in Hev..].
  - by eapply IH.
Qed.

Lemma orderedFrom_wellOrdered evs : orderedFrom ∅ evs = true → wellOrdered evs.
Proof. intros Ho pre ev post Heq. by eapply orderedFrom_correct. Qed.

Lemma objectRemoved_metaObjectMap fuel r obj r' :
  objectRemoved fuel r obj = Some r' →
  m_metaObjectMap r' = delete obj (m_metaObjectMap r).
Proof.
  rewrite objectRemoved_eq. simpl.
  destruct (_ =? 0)%N; [by intros [= <-]|].
  destruct (_ =? 0); [by intros [= <-]|].
  destruct (walk _ _ _); [|done]. intros [= <-]. simpl.
  apply removeSelf_metaObjectMap.
Qed.

Lemma objectAdded_metaObjectMap fuel r obj r' :
  Inv h r → objectAdded h fuel r obj = Some r' →
  ∃ mo, known r' mo ∧ m_metaObjectMap r' = <[obj := mo]> (m_metaObjectMap r).
Proof.
  intros HI Hadd.
  destruct (objectAdded_spec _ _ _ _ _ HI Hadd) as (mo & r1 & _ & Hg & Hk & -> & _).
  destruct (grows_frame _ _ _ _ Hg) as (Hobjs & _).
  exists mo. unfold known in *. simpl.
  by rewrite addSelf_childParentMap, addSelf_metaObjectMap, Hobjs.
Qed.

(** The tracked objects are the objects alive, and the counters count
    them. *)
Lemma run_Counts evs r :
  run h evs r → wellOrdered evs →
  Counts r ∧ dom (m_metaObjectMap r) = aliveAfter evs.
Proof.
  induction 1 as [|evs r fuel ev r' Hrun IH Hstep]; intros Hw.
  - split; [apply Counts_empty|]. simpl. by rewrite dom_empty_L.
  - destruct (IH (wellOrdered_prefix _ _ Hw)) as [HC Hdom].
    pose proof (run_Inv _ _ _ Hrun) as HI.
    pose proof (Hw evs ev [] eq_refl) as Hev.
    rewrite aliveAfter_snoc. destruct ev as [mo b|obj|obj]; simpl in *.
    + destruct (addMetaObject _ _ _ _ _) as [[c r1]|] eqn:Hadd; [|done].
      injection Hstep as <-. apply addMetaObject_Adds in Hadd.
      destruct (Adds_grows _ _ _ _ _ _ HI Hadd) as (Hg & _).
      split; [by eapply grows_Counts|].
      destruct (grows_frame _ _ _ _ Hg) as (-> & _). done.
    + rewrite <-Hdom in Hev. apply not_elem_of_dom in Hev.
      split; [by eapply objectAdded_Counts|].
      destruct (objectAdded_metaObjectMap _ _ _ _ HI Hstep) as (mo & _ & ->).
      rewrite dom_insert_L, Hdom. apply (comm_L (∪)).
    + rewrite <-Hdom in Hev. apply elem_of_dom in Hev as [mo Hmo].
      split; [by eapply objectRemoved_Counts|].
      rewrite (objectRemoved_metaObjectMap _ _ _ _ Hstep).
      by rewrite dom_delete_L, Hdom.
Qed.

End Ordered.

(** C4: after every prefix [pre] of a sequence of events in which every
    object is added while not alive and removed while alive, the tracked
    objects are the objects alive; at every node, and so at every root,
    [inclusiveAliveCount] is the number of tracked objects whose node lies in
    the subtree of that node, [selfAliveCount] the number of those whose
    node it is, and neither is negative. *)
Theorem C4_alive_counts (h : Host) (pre post : list Event) (r : Registry) (n : MO) :
  wellOrdered (pre ++ post) → run h pre r →
  dom (m_metaObjectMap r) = aliveAfter pre ∧
  (∀ m, path (m_childParentMap r) m (lineage r m)) ∧
  inclusiveAliveCount (infoOf r n) = Z.of_nat (subtreeAlive r n) ∧
  selfAliveCount (infoOf r n) = Z.of_nat (selfAlive r n) ∧
  0 ≤ selfAliveCount (infoOf r n) ∧
  0 ≤ inclusiveAliveCount (infoOf r n).
Proof.
  intros Hw%wellOrdered_prefix Hrun.
  destruct (run_Counts _ _ _ Hrun Hw) as [[Hself Hincl _] Hdom].
  pose proof (run_Inv _ _ _ Hrun) as HI.
  split; [done|]. split; [intros m; apply lineage_path, HI|].
  rewrite Hself, Hincl. repeat split; lia.
Qed.

Lemma regABC_added_run : run hostABC eventsABC_added regABC_added.
Proof. apply (runFrom_empty hostABC 6). vm_compute. reflexivity. Defined.

(** C4 on [hostABC]: the root [A] with one instance of [C] alive. *)
Lemma C4_witness :
  dom (m_metaObjectMap regABC_added) = aliveAfter eventsABC_added ∧
  (∀ m, path (m_childParentMap regABC_added) m (lineage regABC_added m)) ∧
  inclusiveAliveCount (infoOf regABC_added 1%N)
  = Z.of_nat (subtreeAlive regABC_added 1%N) ∧
  selfAliveCount (infoOf regABC_added 1%N)
  = Z.of_nat (selfAlive regABC_added 1%N) ∧
  0 ≤ selfAliveCount (infoOf regABC_added 1%N) ∧
  0 ≤ inclusiveAliveCount (infoOf regABC_added 1%N).
Proof.
  apply (C4_alive_counts hostABC eventsABC_added [EvObjectRemoved 100%N]
           regABC_added 1%N);
    [apply orderedFrom_wellOrdered; vm_compute; reflexivity
    |apply regABC_added_run].
Defined.

(** ** The invalid flag *)

Section InvalidFlag.
Variable h : Host.
Implicit Types (r : Registry) (m n mo obj : N).

(** A tracked object is counted at its node and at every ancestor. *)
Lemma tracked_counted r obj mo :
  Counts r → m_metaObjectMap r !! obj = Some mo →
  1 ≤ selfAliveCount (infoOf r mo) ∧
  ∀ n, n ∈ lineage r mo → 1 ≤ inclusiveAliveCount (infoOf r n).
Proof.
  intros [Hself Hincl _] Hobj. split.
  - rewrite Hself. unfold selfAlive.
    rewrite (size_filter_delete _ _ _ _ Hobj), decide_True by done. lia.
  - intros n Hn. rewrite Hincl. unfold subtreeAlive.
    rewrite (size_filter_delete _ _ _ _ Hobj), decide_True by done. lia.
Qed.

Lemma step_invalid fuel r ev r' n :
  Inv h r → Counts r →
  match ev with
  | EvObjectAdded obj => m_metaObjectMap r !! obj = None
  | EvObjectRemoved obj => is_Some (m_metaObjectMap r !! obj)
  | EvAddMetaObject _ _ => True
  end →
  step h fuel r ev = Some r' →
  isStatic (infoOf r' n) = false →
  match ev with
  | EvObjectRemoved _ =>
      if decide (0 < inclusiveAliveCount (infoOf r n) ∧
                 inclusiveAliveCount (infoOf r' n) = 0)
      then invalid (infoOf r n) = false ∧ invalid (infoOf r' n) = true
      else invalid (infoOf r' n) = invalid (infoOf r n)
  | EvObjectAdded _ =>
      if decide (inclusiveAliveCount (infoOf r' n)
                 = inclusiveAliveCount (infoOf r n) + 1)
      then invalid (infoOf r' n) = false
      else invalid (infoOf r' n) = invalid (infoOf r n)
  | EvAddMetaObject _ _ => invalid (infoOf r' n) = invalid (infoOf r n)
  end.
Proof.
  intros HI HC Hev Hstep. destruct ev as [mo b|obj|obj]; simpl in *.
  - destruct (addMetaObject _ _ _ _ _) as [[c r1]|] eqn:Hadd; [|done].
    injection Hstep as <-. apply addMetaObject_Adds in Hadd.
    destruct (Adds_grows _ _ _ _ _ _ HI Hadd) as (Hg & _).
    by destruct (grows_infoOf _ b r r1 n HI Hg) as (name & st & dy & ->).
  - destruct (objectAdded_spec _ _ _ _ _ HI Hstep)
      as (mo & r1 & _ & Hg & Hk & -> & _ & Hnd).
    rewrite infoOf_afterLoop, infoOf_addSelf by done.
    destruct (grows_infoOf _ _ r r1 n HI Hg) as (name & st & dy & ->).
    intros _.
    destruct (decide (n ∈ lineage r1 mo)), (decide (n = mo)); simpl;
      case_decide; try done; lia.
  - destruct Hev as [mo Hobj].
    destruct (tracked_counted _ _ _ HC Hobj) as [Hself Hincl].
    destruct (objectRemoved_spec _ _ _ _ _ _ HI Hobj ltac:(lia) Hstep)
      as (Hk & _ & -> & Hnd).
    rewrite infoOf_afterLoop, infoOf_removeSelf by done.
    pose proof (cnt_invalid _ HC n) as Hinv.
    destruct (decide (n ∈ lineage r mo)) as [Hin|Hin].
    + specialize (Hincl n Hin).
      destruct (decide (n = mo)); simpl; intros ->; simpl;
        rewrite andb_true_r;
        (destruct (Z.eqb_spec (inclusiveAliveCount (infoOf r n) - 1) 0);
         case_decide; try lia; [|done]);
        (split; [|done]);
        (destruct (invalid (infoOf r n)); [|done]);
        specialize (Hinv eq_refl); lia.
    + destruct (decide (n = mo)); simpl; intros _; case_decide; try done; lia.
Qed.

End InvalidFlag.

(** C5: along a sequence of events in order, the [invalid] flag of a node
    that is not static, so of every dynamic node, changes at two kinds of
    steps only: it becomes true at the [objectRemoved] in which the node's
    [inclusiveAliveCount] goes from a positive value to zero, and it is false
    after an [objectAdded] that increments that count; at every other step
    it keeps its value. *)
Theorem C5_invalid_flag_transitions (h : Host) (evs : list Event) (ev : Event)
    (fuel : nat) (r r' : Registry) (n : MO) :
  wellOrdered (evs ++ [ev]) → run h evs r → step h fuel r ev = Some r' →
  isStatic (infoOf r' n) = false →
  match ev with
  | EvObjectRemoved _ =>
      if decide (0 < inclusiveAliveCount (infoOf r n) ∧
                 inclusiveAliveCount (infoOf r' n) = 0)
      then invalid (infoOf r n) = false ∧ invalid (infoOf r' n) = true
      else invalid (infoOf r' n) = invalid (infoOf r n)
  | EvObjectAdded _ =>
      if decide (inclusiveAliveCount (infoOf r' n)
                 = inclusiveAliveCount (infoOf r n) + 1)
      then invalid (infoOf r' n) = false
      else invalid (infoOf r' n) = invalid (infoOf r n)
  | EvAddMetaObject _ _ => invalid (infoOf r' n) = invalid (infoOf r n)
  end.
Proof.
  intros Hw Hrun Hstep.
  destruct (run_Counts _ _ _ Hrun (wellOrdered_prefix _ _ Hw)) as [HC Hdom].
  apply (step_invalid h fuel r ev r' n (run_Inv _ _ _ Hrun) HC); [|done].
  pose proof (Hw evs ev [] eq_refl) as Hev. rewrite <-Hdom in Hev.
  destruct ev; [done|by apply not_elem_of_dom|by apply elem_of_dom].
Qed.

(** C5 on [hostScript]: removing object 10, the only instance, marks
    node 2 invalid. *)
Lemma C5_witness :
  if decide (0 < inclusiveAliveCount (infoOf regScript_one 2%N) ∧
             inclusiveAliveCount (infoOf regScript_gone 2%N) = 0)
  then invalid (infoOf regScript_one 2%N) = false ∧
       invalid (infoOf regScript_gone 2%N) = true
  else invalid (infoOf regScript_gone 2%N) = invalid (infoOf regScript_one 2%N).
Proof.
  apply (C5_invalid_flag_transitions hostScript
           (eventsScript_scanned ++ [EvObjectAdded 10%N])
           (EvObjectRemoved 10%N) 8 regScript_one regScript_gone 2%N);
    [apply orderedFrom_wellOrdered; vm_compute; reflexivity
    |apply regScript_one_run
    |vm_compute; reflexivity
    |vm_compute; reflexivity].
Defined.

(** ** Calls return *)

Section Returns.
Variable h : Host.
Implicit Types (r : Registry) (m n mo obj : N).

Lemma objectAdded_returns fuel r obj depth :
  Inv h r → metaObject h obj ≠ 0%N → superChain h (metaObject h obj) depth →
  (size (m_childParentMap r) + depth + 2 ≤ fuel)%nat →
  ∃ r', objectAdded h fuel r obj = Some r'.
Proof.
  intros HI Hmo Hchain Hfuel.
  destruct (unknownChain_superChain h r _ _ Hchain) as (k & Hk & Hle).
  destruct (addMetaObject_returns h fuel r _ (hasDynamicMetaObject h obj) k Hk)
    as (mo & r1 & Hadd); [lia|by left|].
  rewrite objectAdded_eq, Hadd.
  pose proof (addMetaObject_Adds _ _ _ _ _ _ _ Hadd) as Hadds.
  pose proof (grows_size _ _ _ _ _ _ _ Hadds Hk) as Hsize.
  destruct (Adds_grows _ _ _ _ _ _ HI Hadds) as (Hg & _).
  rewrite walk_enough; [simpl; eauto|by apply (grows_Inv _ _ _ _ HI Hg)|lia].
Qed.

Lemma objectRemoved_returns fuel r obj :
  Inv h r → (size (m_childParentMap r) + 2 ≤ fuel)%nat →
  ∃ r', objectRemoved fuel r obj = Some r'.
Proof.
  intros HI Hfuel. rewrite objectRemoved_eq. simpl.
  destruct (_ =? 0)%N; [eauto|]. destruct (_ =? 0); [eauto|].
  rewrite walk_enough; [simpl; eauto|apply HI|done].
Qed.

End Returns.

(** C3: one call of [objectAdded], which returns when the fuel covers the
    super-class chain of the object's descriptor and the nodes of the
    registry, adds one to [selfCount] and [selfAliveCount] of the node [mo]
    it records for the object and of no other node, adds one to
    [inclusiveCount] and [inclusiveAliveCount] of [mo] and of each ancestor
    of [mo], each of them once, and of no other node, and emits, after the
    notifications of [addMetaObject], one [dataChanged] per node visited, in
    the order of the visit.  With the classes [A], [B], [C] of [hostABC]
    scanned and one instance of [C] added, [selfCount] of [C] is 1 and
    [inclusiveCount] of [A], [B] and [C] is 1. *)
Theorem C3_objectAdded_increments :
  (∀ (h : Host) (evs : list Event) (r : Registry) (obj : Obj) (depth fuel : nat),
     run h evs r → metaObject h obj ≠ 0%N →
     superChain h (metaObject h obj) depth →
     (size (m_childParentMap r) + depth + 2 ≤ fuel)%nat →
     ∃ r' mo,
       objectAdded h fuel r obj = Some r' ∧
       m_metaObjectMap r' !! obj = Some mo ∧
       path (m_childParentMap r') mo (lineage r' mo) ∧
       NoDup (lineage r' mo) ∧
       (∀ n, selfCount (infoOf r' n)
             = selfCount (infoOf r n) + (if decide (n = mo) then 1 else 0) ∧
             selfAliveCount (infoOf r' n)
             = selfAliveCount (infoOf r n) + (if decide (n = mo) then 1 else 0) ∧
             inclusiveCount (infoOf r' n)
             = inclusiveCount (infoOf r n)
               + (if decide (n ∈ lineage r' mo) then 1 else 0) ∧
             inclusiveAliveCount (infoOf r' n)
             = inclusiveAliveCount (infoOf r n)
               + (if decide (n ∈ lineage r' mo) then 1 else 0)) ∧
       ∃ pre, emitted r' = emitted r ++ pre ++ (dataChanged <$> lineage r' mo) ∧
              ∀ x, dataChanged x ∉ pre) ∧
  (scanMetaTypes hostABC 4 emptyRegistry = Some regABC_scanned ∧
   objectAdded hostABC 6 regABC_scanned 100%N = Some regABC_added ∧
   lineage regABC_added 3%N = [3; 2; 1]%N ∧
   selfCount (infoOf regABC_added 3%N) = 1 ∧
   inclusiveCount (infoOf regABC_added 1%N) = 1 ∧
   inclusiveCount (infoOf regABC_added 2%N) = 1 ∧
   inclusiveCount (infoOf regABC_added 3%N) = 1 ∧
   selfCount (infoOf regABC_added 1%N) = 0 ∧
   selfCount (infoOf regABC_added 2%N) = 0 ∧
   inclusiveCount (infoOf regABC_added 4%N) = 0).
Proof.
  split; [|by vm_compute].
  intros h evs r obj depth fuel HI%run_Inv Hmo Hchain Hfuel.
  destruct (objectAdded_returns h fuel r obj depth HI Hmo Hchain Hfuel)
    as [r' Hadd].
  destruct (objectAdded_spec _ _ _ _ _ HI Hadd)
    as (mo & r1 & _ & Hg & Hk & Hr' & Hlin & Hnd).
  pose proof (objectAdded_Inv _ _ _ _ _ HI Hadd) as HI'.
  exists r', mo. split; [done|]. rewrite Hlin.
  split; [subst r'; simpl; by rewrite addSelf_metaObjectMap, lookup_insert_eq|].
  split; [rewrite <-Hlin; apply lineage_path, HI'|]. split; [done|].
  split.
  - intros n. subst r'. rewrite infoOf_afterLoop, infoOf_addSelf by done.
    destruct (grows_infoOf _ _ r r1 n HI Hg) as (name & st & dy & ->).
    destruct (decide (n ∈ lineage r1 mo)), (decide (n = mo)); simpl; lia.
  - destruct (grows_emitted _ _ _ _ Hg) as (pre & Hpre & Hno).
    exists pre. split; [|done]. subst r'. simpl.
    by rewrite addSelf_emitted, Hpre, <-app_assoc.
Qed.

(** C3 on [hostABC]: one instance of [C] after the scan. *)
Lemma C3_witness :
  ∃ r' mo,
    objectAdded hostABC 9%nat regABC_scanned 100%N = Some r' ∧
    m_metaObjectMap r' !! 100%N = Some mo ∧
    path (m_childParentMap r') mo (lineage r' mo) ∧
    NoDup (lineage r' mo) ∧
    (∀ n, selfCount (infoOf r' n)
          = selfCount (infoOf regABC_scanned n)
            + (if decide (n = mo) then 1 else 0) ∧
          selfAliveCount (infoOf r' n)
          = selfAliveCount (infoOf regABC_scanned n)
            + (if decide (n = mo) then 1 else 0) ∧
          inclusiveCount (infoOf r' n)
          = inclusiveCount (infoOf regABC_scanned n)
            + (if decide (n ∈ lineage r' mo) then 1 else 0) ∧
          inclusiveAliveCount (infoOf r' n)
          = inclusiveAliveCount (infoOf regABC_scanned n)
            + (if decide (n ∈ lineage r' mo) then 1 else 0)) ∧
    ∃ pre, emitted r' = emitted regABC_scanned ++ pre
                        ++ (dataChanged <$> lineage r' mo) ∧
           ∀ x, dataChanged x ∉ pre.
Proof.
  apply (proj1 C3_objectAdded_increments hostABC _ regABC_scanned 100%N
           3%nat 9%nat regABC_scanned_run).
  - vm_compute; discriminate.
  - repeat (constructor; [vm_compute; discriminate|]). constructor.
  - vm_compute. lia.
Defined.

(** ** Merging by class name *)

Section Merging.
Variable h : Host.
Implicit Types (r : Registry) (m n c mo obj : N).

Lemma addSelf_nameMap r obj mo :
  m_metaObjectNameMap (addSelf h r obj mo) = m_metaObjectNameMap r.
Proof. unfold addSelf. by destruct (isDynamic _). Qed.

(** A descriptor outside read-only storage that a registration with
    merging has entered is the canonical descriptor of its class name. *)
Lemma grows_new_canonical r r1 x :
  grows h true r r1 → ¬ known r x → known r1 x → isReadOnlyData h x = false →
  m_metaObjectNameMap r1 !! mo_className h x = Some x.
Proof.
  induction 1 as [|r r1 mo parent Hg IH Hmo Hfresh Hp0 Hpk Hres Hname];
    [done|].
  intros Hk. unfold known; simpl. rewrite andb_true_r in *.
  destruct (decide (mo = x)) as [->|Hne].
  - intros _ Hro. rewrite Hro. simpl. by rewrite lookup_insert_eq.
  - rewrite lookup_insert_ne by done.
    destruct (isReadOnlyData h mo) eqn:Hmo_ro; simpl; [by apply IH|].
    intros Hk1 Hro. specialize (IH Hk Hk1 Hro).
    rewrite lookup_insert_ne; [done|].
    intros Heq. rewrite <-Heq, Hname in IH; done.
Qed.

(** The nodes a registration enters are the descriptor and super classes
    of it. *)
Lemma Adds_new b r m c r' x :
  Adds h b r m c r' → known r' x → ¬ known r x → derivesFrom h m x.
Proof.
  induction 1 as [r mo Hk|r mo c r' Hk Hmo Hs Hf
                 |r mo p r1 c r' Hk Hmo Hs Hks Hrec IH Hf]; intros Hx Hnx.
  - done.
  - destruct (finishAdd_known _ _ _ _ _ _ _ _ Hf Hx) as [->|?]; [|done].
    by constructor.
  - destruct (finishAdd_known _ _ _ _ _ _ _ _ Hf Hx) as [->|Hx1];
      [by constructor|].
    apply derives_super; [done|]. by apply IH.
Qed.

(** A new descriptor outside read-only storage whose class name has a
    canonical node is merged into that node, after its super class has been
    registered. *)
Lemma addMetaObject_merged fuel r mo c depth :
  Inv h r → ¬ known r mo → mo ≠ 0%N → isReadOnlyData h mo = false →
  m_metaObjectNameMap r !! mo_className h mo = Some c →
  unknownChain h r mo depth → (depth < fuel)%nat →
  ∃ r', addMetaObject h fuel r mo true = Some (c, r') ∧
        ¬ known r' mo ∧
        m_metaObjectInfoMap r' !! mo = None ∧
        m_metaObjectNameMap r' !! mo_className h mo = Some c ∧
        known r' c ∧
        (superClass h mo = 0%N ∨ known r (superClass h mo) → r' = r) ∧
        (superClass h mo ≠ 0%N → ¬ known r (superClass h mo) →
         ∃ p, addMetaObject h (fuel - 1) r (superClass h mo) true
              = Some (p, r')) ∧
        (∀ x, known r' x → ¬ known r x →
              derivesFrom h (superClass h mo) x).
Proof.
  intros HI Hk Hmo Hro Hname Hchain Hfuel.
  destruct (addMetaObject_returns h fuel r mo true depth Hchain Hfuel)
    as (c' & r' & Hadd); [by left|].
  pose proof (addMetaObject_Adds _ _ _ _ _ _ _ Hadd) as Hadds.
  assert (∀ r1 p, grows h true r r1 → ¬ known r1 mo →
                  finishAdd h r1 mo p true = (c', r') → c' = c ∧ r' = r1) as Hfin.
  { intros r1 p Hg Hk1. unfold finishAdd. rewrite Hro. simpl.
    rewrite (grows_names _ _ _ _ _ _ Hg Hname). by intros [= <- <-]. }
  assert (c' = c ∧ grows h true r r' ∧ ¬ known r' mo ∧
          (superClass h mo = 0%N ∨ known r (superClass h mo) → r' = r) ∧
          (∀ x, known r' x → ¬ known r x →
                derivesFrom h (superClass h mo) x))
    as (-> & Hg & Hk1 & Hsame & Hnew).
  { inversion Hadds as [|? ? ? ? _ _ Hs Hf|? ? p r1 ? ? _ _ Hs Hks Hrec Hf]; subst.
    - done.
    - destruct (Hfin r (superClass h mo) (grows_refl _ _ _) Hk Hf) as [-> ->].
      repeat split; try done. constructor.
    - destruct (Adds_grows _ _ _ _ _ _ HI Hrec) as (Hg & _).
      pose proof (Adds_parent_fresh _ _ _ _ _ _ Hk Hmo Hrec) as Hk1.
      destruct (Hfin r1 p Hg Hk1 Hf) as [-> ->].
      repeat split; try done.
      + intros [?|?]; done.
      + intros x Hx Hnx. by eapply Adds_new. }
  pose proof (grows_Inv _ _ _ _ HI Hg) as HI1.
  exists r'. split; [done|]. split; [done|].
  split; [apply eq_None_not_Some; by rewrite (inv_info _ _ HI1)|].
  split; [by eapply grows_names|].
  split; [eapply inv_names; [done|]; by eapply grows_names|].
  split; [done|]. split; [|done].
  intros Hs Hks. destruct fuel as [|f]; [lia|].
  replace (S f - 1)%nat with f by lia.
  rewrite addMetaObject_S in Hadd.
  rewrite (proj2 (isKnown_false r mo) Hk) in Hadd.
  rewrite (proj2 (isKnown_false r (superClass h mo)) Hks) in Hadd.
  destruct (N.eqb_spec mo 0); [done|].
  destruct (N.eqb_spec (superClass h mo) 0); [done|]. simpl in Hadd.
  destruct (addMetaObject h f r (superClass h mo) true) as [[p r1]|]; [|done].
  injection Hadd as Hf. exists p.
  destruct (finishAdd_cases _ _ _ _ _ _ _ Hf) as [(_ & _ & ->)|(_ & _ & ->)];
    [done|].
  exfalso. apply Hk1. unfold known. simpl. rewrite lookup_insert_eq. by eexists.
Qed.

(** Two objects whose descriptors are outside read-only storage and have
    the same class name, neither descriptor being known as a node other
    than the canonical one of the name, are counted at one node. *)
Lemma two_instances_one_node fuel1 fuel2 obj1 obj2 r0 r1 r2 :
  Inv h r0 →
  (known r0 (metaObject h obj1) →
   m_metaObjectNameMap r0 !! mo_className h (metaObject h obj1)
   = Some (metaObject h obj1)) →
  (known r0 (metaObject h obj2) →
   m_metaObjectNameMap r0 !! mo_className h (metaObject h obj2)
   = Some (metaObject h obj2)) →
  isReadOnlyData h (metaObject h obj1) = false →
  isReadOnlyData h (metaObject h obj2) = false →
  mo_className h (metaObject h obj1) = mo_className h (metaObject h obj2) →
  hasDynamicMetaObject h obj1 = true → hasDynamicMetaObject h obj2 = true →
  objectAdded h fuel1 r0 obj1 = Some r1 →
  objectAdded h fuel2 r1 obj2 = Some r2 →
  ∃ c, m_metaObjectMap r1 !! obj1 = Some c ∧
       m_metaObjectMap r2 !! obj2 = Some c ∧
       m_metaObjectNameMap r2 !! mo_className h (metaObject h obj1) = Some c ∧
       selfCount (infoOf r1 c) = selfCount (infoOf r0 c) + 1 ∧
       selfCount (infoOf r2 c) = selfCount (infoOf r0 c) + 2.
Proof.
  intros HI0 Hcan1 Hcan2 Hro1 Hro2 Hcls Hdyn1 Hdyn2 Hadd1 Hadd2.
  pose proof (objectAdded_Inv _ _ _ _ _ HI0 Hadd1) as HI1.
  destruct (objectAdded_spec _ _ _ _ _ HI0 Hadd1)
    as (c1 & ra & Hadds1 & Hg1 & Hk1 & Hr1 & _ & Hnd1).
  destruct (objectAdded_spec _ _ _ _ _ HI1 Hadd2)
    as (c2 & rb & Hadds2 & Hg2 & Hk2 & Hr2 & _ & Hnd2).
  rewrite Hdyn1 in *. rewrite Hdyn2 in *.
  assert (m_metaObjectNameMap r1 = m_metaObjectNameMap ra ∧
          m_childParentMap r1 = m_childParentMap ra) as [Hn1 Hcp1].
  { subst r1. simpl. by rewrite addSelf_nameMap, addSelf_childParentMap. }
  assert (m_metaObjectNameMap r1 !! mo_className h (metaObject h obj1) = Some c1)
    as Hname1.
  { rewrite Hn1. destruct (decide (known r0 (metaObject h obj1))) as [Hk|Hk].
    - destruct (Adds_known_inv _ _ _ _ _ _ Hadds1 Hk) as [-> ->]. by apply Hcan1.
    - destruct (Adds_grows _ _ _ _ _ _ HI0 Hadds1) as (_ & _ & _ & Hres).
      rewrite Hro1 in Hres. simpl in Hres. by apply Hres. }
  assert (c2 = c1) as ->.
  { destruct (decide (known r1 (metaObject h obj2))) as [Hk|Hk].
    - destruct (Adds_known_inv _ _ _ _ _ _ Hadds2 Hk) as [-> _].
      assert (m_metaObjectNameMap r1 !! mo_className h (metaObject h obj2)
              = Some (metaObject h obj2)) as Hname2.
      { rewrite Hn1. unfold known in Hk. rewrite Hcp1 in Hk.
        destruct (decide (known r0 (metaObject h obj2))) as [Hk0|Hk0].
        - by apply (grows_names _ _ _ _ _ _ Hg1), Hcan2.
        - by apply (grows_new_canonical r0 ra). }
      rewrite <-Hcls, Hname1 in Hname2. congruence.
    - destruct (Adds_grows _ _ _ _ _ _ HI1 Hadds2) as (_ & _ & _ & Hres).
      rewrite Hro2 in Hres. simpl in Hres. specialize (Hres Hk).
      pose proof (grows_names _ _ _ _ _ _ Hg2 Hname1) as Hn.
      rewrite Hcls in Hn. congruence. }
  exists c1.
  assert (selfCount (infoOf r1 c1) = selfCount (infoOf r0 c1) + 1) as Hone.
  { subst r1. rewrite infoOf_afterLoop, infoOf_addSelf by done.
    rewrite (decide_True (P := c1 = c1)) by done.
    destruct (grows_infoOf _ _ _ _ c1 HI0 Hg1) as (name & st & dy & ->).
    by destruct (decide (c1 ∈ lineage ra c1)). }
  repeat split.
  - subst r1. simpl. by rewrite addSelf_metaObjectMap, lookup_insert_eq.
  - subst r2. simpl. by rewrite addSelf_metaObjectMap, lookup_insert_eq.
  - subst r2. simpl. rewrite addSelf_nameMap. by eapply grows_names.
  - done.
  - rewrite Hr2. rewrite infoOf_afterLoop, infoOf_addSelf by done.
    rewrite (decide_True (P := c1 = c1)) by done.
    destruct (grows_infoOf _ _ _ _ c1 HI1 Hg2) as (name & st & dy & ->).
    destruct (decide (c1 ∈ lineage rb c1)); simpl; lia.
Qed.

(** A class name entered by a registration leads to a node entered by
    it. *)
Lemma grows_names_inv b r r1 k c :
  grows h b r r1 → m_metaObjectNameMap r1 !! k = Some c →
  m_metaObjectNameMap r !! k = Some c ∨ ¬ known r c.
Proof.
  induction 1 as [|r r1 mo parent Hg IH Hmo Hfresh Hp0 Hpk Hres Hname];
    [by left|].
  simpl. destruct (negb (isReadOnlyData h mo) && b); simpl; [|done].
  destruct (decide (k = mo_className h mo)) as [->|Hne].
  - rewrite lookup_insert_eq. intros [= <-]. right.
    intros Hk. by apply Hfresh, (grows_known _ _ _ _ _ Hg).
  - by rewrite lookup_insert_ne.
Qed.

(** Two objects with distinct descriptors outside read-only storage that
    have the same class name are counted at one node only if neither
    descriptor was known as a node other than the canonical one of the
    name. *)
Lemma one_node_canonical fuel1 fuel2 obj1 obj2 r0 r1 r2 c :
  Inv h r0 →
  metaObject h obj1 ≠ metaObject h obj2 →
  isReadOnlyData h (metaObject h obj1) = false →
  isReadOnlyData h (metaObject h obj2) = false →
  mo_className h (metaObject h obj1) = mo_className h (metaObject h obj2) →
  hasDynamicMetaObject h obj1 = true → hasDynamicMetaObject h obj2 = true →
  objectAdded h fuel1 r0 obj1 = Some r1 →
  objectAdded h fuel2 r1 obj2 = Some r2 →
  m_metaObjectMap r1 !! obj1 = Some c → m_metaObjectMap r2 !! obj2 = Some c →
  (known r0 (metaObject h obj1) →
   m_metaObjectNameMap r0 !! mo_className h (metaObject h obj1)
   = Some (metaObject h obj1)) ∧
  (known r0 (metaObject h obj2) →
   m_metaObjectNameMap r0 !! mo_className h (metaObject h obj2)
   = Some (metaObject h obj2)).
Proof.
  intros HI0 Hne Hro1 Hro2 Hcls Hdyn1 Hdyn2 Hadd1 Hadd2 Hc1 Hc2.
  pose proof (objectAdded_Inv _ _ _ _ _ HI0 Hadd1) as HI1.
  destruct (objectAdded_spec _ _ _ _ _ HI0 Hadd1)
    as (c1 & ra & Hadds1 & Hg1 & Hk1 & Hr1 & _).
  destruct (objectAdded_spec _ _ _ _ _ HI1 Hadd2)
    as (c2 & rb & Hadds2 & Hg2 & Hk2 & Hr2 & _).
  rewrite Hdyn1 in *. rewrite Hdyn2 in *.
  assert (c1 = c) as ->.
  { rewrite Hr1 in Hc1. simpl in Hc1.
    rewrite addSelf_metaObjectMap, lookup_insert_eq in Hc1. congruence. }
  assert (c2 = c) as ->.
  { rewrite Hr2 in Hc2. simpl in Hc2.
    rewrite addSelf_metaObjectMap, lookup_insert_eq in Hc2. congruence. }
  assert (m_metaObjectNameMap r1 = m_metaObjectNameMap ra ∧
          m_childParentMap r1 = m_childParentMap ra) as [Hn1 Hcp1].
  { subst r1. simpl. by rewrite addSelf_nameMap, addSelf_childParentMap. }
  split.
  - intros Hk. destruct (Adds_known_inv _ _ _ _ _ _ Hadds1 Hk) as [-> ->].
    assert (known r1 (metaObject h obj1)) as Hk'
      by (unfold known; by rewrite Hcp1).
    assert (¬ known r1 (metaObject h obj2)) as Hk2'.
    { intros Hk2'. destruct (Adds_known_inv _ _ _ _ _ _ Hadds2 Hk2') as [? _].
      apply Hne. congruence. }
    destruct (Adds_grows _ _ _ _ _ _ HI1 Hadds2) as (_ & _ & _ & Hres).
    rewrite Hro2 in Hres. simpl in Hres. specialize (Hres Hk2').
    destruct (grows_names_inv _ _ _ _ _ Hg2 Hres) as [Hn|?]; [|done].
    by rewrite Hcls, <-Hn1.
  - intros Hk.
    assert (known r1 (metaObject h obj2)) as Hk'.
    { unfold known. rewrite Hcp1. by apply (grows_known _ _ _ _ _ Hg1). }
    destruct (Adds_known_inv _ _ _ _ _ _ Hadds2 Hk') as [Hc _].
    assert (¬ known r0 (metaObject h obj1)) as Hk1'.
    { intros Hk1'. destruct (Adds_known_inv _ _ _ _ _ _ Hadds1 Hk1') as [? _].
      apply Hne. congruence. }
    destruct (Adds_grows _ _ _ _ _ _ HI0 Hadds1) as (_ & _ & _ & Hres).
    rewrite Hro1 in Hres. simpl in Hres. specialize (Hres Hk1').
    destruct (grows_names_inv _ _ _ _ _ Hg1 Hres) as [Hn|Hn].
    + by rewrite <-Hcls, Hn, Hc.
    + destruct Hn. by rewrite Hc.
Qed.

End Merging.

Lemma regScript_lone_run :
  run hostScript
    (eventsScript_scanned ++ [EvObjectAdded 12%N; EvObjectAdded 13%N])
    regScript_lone.
Proof. apply (runFrom_empty hostScript 8). vm_compute. reflexivity. Defined.

(** C1, where the claim fails.  In [hostScript] the descriptors 5 and 6
    lie on the heap and have the class name ["Lone"].  Descriptor 5 is known
    to [regScript_lone] from object 12, which has no dynamic meta object;
    the canonical node of the name is 6, from object 13.  Registered with
    merging, as [objectAdded] does for object 14, descriptor 5 is returned
    itself and not the canonical descriptor 6.  So the objects 13 and 14,
    both with a dynamic meta object, are recorded under the two nodes 6 and
    5, and [selfCount] of the canonical node is 1. *)
Lemma C1_counterexample :
  run hostScript
      (eventsScript_scanned ++ [EvObjectAdded 12%N; EvObjectAdded 13%N])
      regScript_lone ∧
  metaObject hostScript 13%N = 6%N ∧ metaObject hostScript 14%N = 5%N ∧
  hasDynamicMetaObject hostScript 13%N = true ∧
  hasDynamicMetaObject hostScript 14%N = true ∧
  isReadOnlyData hostScript 5%N = false ∧
  isReadOnlyData hostScript 6%N = false ∧
  mo_className hostScript 5%N = mo_className hostScript 6%N ∧
  m_metaObjectNameMap regScript_lone !! mo_className hostScript 5%N = Some 6%N ∧
  addMetaObject hostScript 6 regScript_lone 5%N true = Some (5%N, regScript_lone) ∧
  objectAdded hostScript 8 regScript_lone 14%N = Some regScript_three ∧
  m_metaObjectMap regScript_three !! 13%N = Some 6%N ∧
  m_metaObjectMap regScript_three !! 14%N = Some 5%N ∧
  m_metaObjectNameMap regScript_three !! mo_className hostScript 5%N = Some 6%N ∧
  selfCount (infoOf regScript_three 6%N) = 1.
Proof. split; [apply regScript_lone_run|]. by vm_compute. Qed.

(** C1, as the code has it.  A descriptor outside read-only storage that
    is not yet known, registered with merging while the name map has a
    canonical node for its class name, is not entered: [addMetaObject]
    returns the canonical descriptor, which stays the canonical one of the
    name, and the descriptor has no node and no entry afterwards.  What the
    call does before is to register the super class of the descriptor when
    that is neither [nullptr] nor known: the registry it leaves is the one
    that registration leaves, the registry itself when the super class is
    [nullptr] or known, and every node entered is a super class of the
    descriptor.  A descriptor that is known is returned as it is, the
    registry unchanged.  Two objects with dynamic meta objects whose
    descriptors are outside read-only storage and share a class name, added
    one after the other, neither descriptor being known before as a node
    other than the canonical one of its class name, are recorded under one
    node, the canonical one of the name, whose [selfCount] has grown by 1
    after the first and by 2 after the second; when the two descriptors are
    distinct they are recorded under one node in this case only. *)
Theorem C1_merged_into_canonical :
  (∀ (h : Host) (evs : list Event) (r : Registry) (fuel : nat) (mo c : MO)
     (depth : nat),
     run h evs r → ¬ known r mo → mo ≠ 0%N → isReadOnlyData h mo = false →
     m_metaObjectNameMap r !! mo_className h mo = Some c →
     unknownChain h r mo depth → (depth < fuel)%nat →
     ∃ r', addMetaObject h fuel r mo true = Some (c, r') ∧
           ¬ known r' mo ∧
           m_metaObjectInfoMap r' !! mo = None ∧
           m_metaObjectNameMap r' !! mo_className h mo = Some c ∧
           known r' c ∧
           (superClass h mo = 0%N ∨ known r (superClass h mo) → r' = r) ∧
           (superClass h mo ≠ 0%N → ¬ known r (superClass h mo) →
            ∃ p, addMetaObject h (fuel - 1) r (superClass h mo) true
                 = Some (p, r')) ∧
           (∀ x, known r' x → ¬ known r x →
                 derivesFrom h (superClass h mo) x)) ∧
  (∀ (h : Host) (r : Registry) (fuel : nat) (mo : MO) (b : bool),
     known r mo → addMetaObject h (S fuel) r mo b = Some (mo, r)) ∧
  (∀ (h : Host) (evs : list Event) (fuel1 fuel2 : nat) (obj1 obj2 : Obj)
     (r0 r1 r2 : Registry),
     run h evs r0 →
     (known r0 (metaObject h obj1) →
      m_metaObjectNameMap r0 !! mo_className h (metaObject h obj1)
      = Some (metaObject h obj1)) →
     (known r0 (metaObject h obj2) →
      m_metaObjectNameMap r0 !! mo_className h (metaObject h obj2)
      = Some (metaObject h obj2)) →
     isReadOnlyData h (metaObject h obj1) = false →
     isReadOnlyData h (metaObject h obj2) = false →
     mo_className h (metaObject h obj1) = mo_className h (metaObject h obj2) →
     hasDynamicMetaObject h obj1 = true → hasDynamicMetaObject h obj2 = true →
     objectAdded h fuel1 r0 obj1 = Some r1 →
     objectAdded h fuel2 r1 obj2 = Some r2 →
     ∃ c, m_metaObjectMap r1 !! obj1 = Some c ∧
          m_metaObjectMap r2 !! obj2 = Some c ∧
          m_metaObjectNameMap r2 !! mo_className h (metaObject h obj1) = Some c ∧
          selfCount (infoOf r1 c) = selfCount (infoOf r0 c) + 1 ∧
          selfCount (infoOf r2 c) = selfCount (infoOf r0 c) + 2) ∧
  (∀ (h : Host) (evs : list Event) (fuel1 fuel2 : nat) (obj1 obj2 : Obj)
     (r0 r1 r2 : Registry) (c : MO),
     run h evs r0 →
     metaObject h obj1 ≠ metaObject h obj2 →
     isReadOnlyData h (metaObject h obj1) = false →
     isReadOnlyData h (metaObject h obj2) = false →
     mo_className h (metaObject h obj1) = mo_className h (metaObject h obj2) →
     hasDynamicMetaObject h obj1 = true → hasDynamicMetaObject h obj2 = true →
     objectAdded h fuel1 r0 obj1 = Some r1 →
     objectAdded h fuel2 r1 obj2 = Some r2 →
     m_metaObjectMap r1 !! obj1 = Some c → m_metaObjectMap r2 !! obj2 = Some c →
     (known r0 (metaObject h obj1) →
      m_metaObjectNameMap r0 !! mo_className h (metaObject h obj1)
      = Some (metaObject h obj1)) ∧
     (known r0 (metaObject h obj2) →
      m_metaObjectNameMap r0 !! mo_className h (metaObject h obj2)
      = Some (metaObject h obj2))) ∧
  (objectAdded hostScript 8 regScript_scanned 10%N = Some regScript_one ∧
   objectAdded hostScript 8 regScript_one 11%N = Some regScript_two ∧
   metaObject hostScript 10%N = 2%N ∧ metaObject hostScript 11%N = 3%N ∧
   m_metaObjectMap regScript_two !! 10%N = Some 2%N ∧
   m_metaObjectMap regScript_two !! 11%N = Some 2%N ∧
   selfCount (infoOf regScript_two 2%N) = 2 ∧
   known regScript_two 2%N ∧ ¬ known regScript_two 3%N).
Proof.
  split; [|split; [|split; [|split]]].
  - intros h evs r fuel mo c depth HI%run_Inv. by apply addMetaObject_merged.
  - intros h r fuel mo b Hk. rewrite addMetaObject_S.
    by rewrite (proj2 (isKnown_true r mo) Hk).
  - intros h evs fuel1 fuel2 obj1 obj2 r0 r1 r2 HI%run_Inv.
    by apply two_instances_one_node.
  - intros h evs fuel1 fuel2 obj1 obj2 r0 r1 r2 c HI%run_Inv.
    by apply one_node_canonical.
  - do 7 (split; [by vm_compute|]).
    split; [exists 1%N; by vm_compute|]. vm_compute. intros [? ?]. discriminate.
Qed.

(** C1 on [hostScript]: descriptor 3 is merged into node 2 after its super
    class 4 has been registered; the objects 10 and 11 are counted at node
    2, also in [regScript_lone], where descriptor 5 is known and not the
    canonical one of its name. *)
Lemma C1_witness :
  (∃ r', addMetaObject hostScript 6 regScript_one 3%N true = Some (2%N, r') ∧
         ¬ known r' 3%N ∧
         m_metaObjectInfoMap r' !! 3%N = None ∧
         m_metaObjectNameMap r' !! mo_className hostScript 3%N = Some 2%N ∧
         known r' 2%N ∧
         (superClass hostScript 3%N = 0%N
          ∨ known regScript_one (superClass hostScript 3%N) →
          r' = regScript_one) ∧
         (superClass hostScript 3%N ≠ 0%N →
          ¬ known regScript_one (superClass hostScript 3%N) →
          ∃ p, addMetaObject hostScript (6 - 1) regScript_one
                 (superClass hostScript 3%N) true = Some (p, r')) ∧
         (∀ x, known r' x → ¬ known regScript_one x →
               derivesFrom hostScript (superClass hostScript 3%N) x)) ∧
  (∃ c, m_metaObjectMap regScript_lone_one !! 10%N = Some c ∧
        m_metaObjectMap regScript_lone_two !! 11%N = Some c ∧
        m_metaObjectNameMap regScript_lone_two
          !! mo_className hostScript (metaObject hostScript 10%N) = Some c ∧
        selfCount (infoOf regScript_lone_one c)
        = selfCount (infoOf regScript_lone c) + 1 ∧
        selfCount (infoOf regScript_lone_two c)
        = selfCount (infoOf regScript_lone c) + 2) ∧
  ((known regScript_lone (metaObject hostScript 10%N) →
    m_metaObjectNameMap regScript_lone
      !! mo_className hostScript (metaObject hostScript 10%N)
    = Some (metaObject hostScript 10%N)) ∧
   (known regScript_lone (metaObject hostScript 11%N) →
    m_metaObjectNameMap regScript_lone
      !! mo_className hostScript (metaObject hostScript 11%N)
    = Some (metaObject hostScript 11%N))).
Proof.
  split; [|split].
  - apply (proj1 C1_merged_into_canonical hostScript _
             regScript_one 6%nat 3%N 2%N 2%nat regScript_one_run).
    + vm_compute. intros [? ?]. discriminate.
    + discriminate.
    + reflexivity.
    + vm_compute. reflexivity.
    + apply unknownChain_step;
        [discriminate|vm_compute; intros [? ?]; discriminate|].
      apply unknownChain_step;
        [vm_compute; discriminate|vm_compute; intros [? ?]; discriminate|].
      apply unknownChain_stop. right. exists 0%N. vm_compute. reflexivity.
    + lia.
  - apply (proj1 (proj2 (proj2 C1_merged_into_canonical)) hostScript _
             8%nat 8%nat 10%N 11%N regScript_lone regScript_lone_one
             regScript_lone_two regScript_lone_run);
      [vm_compute; intros [? ?]; discriminate
      |vm_compute; intros [? ?]; discriminate
      |vm_compute; reflexivity..].
  - apply (proj1 (proj2 (proj2 (proj2 C1_merged_into_canonical))) hostScript _
             8%nat 8%nat 10%N 11%N regScript_lone regScript_lone_one
             regScript_lone_two 2%N regScript_lone_run);
      [discriminate|vm_compute; reflexivity..].
Defined.

(** ** The defensive return is not reached from the empty registry *)

Section Tracked.
Variable h : Host.
Implicit Types (r : Registry) (m n mo obj : N).

Lemma size_filter_insert_le {A} (P : N * A → Prop) `{!∀ x, Decision (P x)}
    (m : gmap N A) i x :
  (size (filter P (<[i := x]> m))
   ≤ size (filter P m) + (if decide (P (i, x)) then 1 else 0))%nat.
Proof.
  rewrite map_filter_insert. case_decide.
  - rewrite map_size_insert. destruct (filter P m !! i); simpl; lia.
  - rewrite map_filter_delete, map_size_delete.
    destruct (filter P m !! i); simpl; lia.
Qed.

Lemma size_filter_delete_le {A} (P : N * A → Prop) `{!∀ x, Decision (P x)}
    (m : gmap N A) i :
  (size (filter P (delete i m)) ≤ size (filter P m))%nat.
Proof.
  rewrite map_filter_delete, map_size_delete.
  destruct (filter P m !! i); simpl; lia.
Qed.

(** Whatever the order of the calls, a node counts at least the objects
    tracked under it. *)
Lemma run_selfAlive_le evs r n :
  run h evs r → Z.of_nat (selfAlive r n) ≤ selfAliveCount (infoOf r n).
Proof.
  intros Hrun; revert n.
  induction Hrun as [|evs r fuel ev r' Hrun IH Hstep]; intros n.
  { unfold selfAlive; simpl. by rewrite map_filter_empty, map_size_empty. }
  pose proof (run_Inv _ _ _ Hrun) as HI.
  destruct ev as [mo b|obj|obj]; simpl in Hstep.
  - destruct (addMetaObject _ _ _ _ _) as [[c r1]|] eqn:Hadd; [|done].
    injection Hstep as <-. apply addMetaObject_Adds in Hadd.
    destruct (Adds_grows _ _ _ _ _ _ HI Hadd) as (Hg & _).
    destruct (grows_frame _ _ _ _ Hg) as (Hobjs & _).
    destruct (grows_infoOf _ _ _ _ n HI Hg) as (name & st & dy & ->).
    unfold selfAlive. rewrite Hobjs. apply IH.
  - destruct (objectAdded_spec _ _ _ _ _ HI Hstep)
      as (mo & r1 & _ & Hg & Hk & -> & _ & Hnd).
    destruct (grows_frame _ _ _ _ Hg) as (Hobjs & _).
    rewrite infoOf_afterLoop, infoOf_addSelf by done.
    destruct (grows_infoOf _ _ _ _ n HI Hg) as (name & st & dy & ->).
    unfold selfAlive; simpl. rewrite addSelf_metaObjectMap, Hobjs.
    pose proof (size_filter_insert_le (λ om : N * N, om.2 = n)
                  (m_metaObjectMap r) obj mo) as Hle. simpl in Hle.
    specialize (IH n). unfold selfAlive in IH.
    destruct (decide (n ∈ lineage r1 mo)), (decide (n = mo)) as [->|Hne]; simpl;
      rewrite ?decide_True, ?(decide_False (P := mo = n)) in Hle by done; lia.
  - pose proof (size_filter_delete_le (λ om : N * N, om.2 = n)
                  (m_metaObjectMap r) obj) as Hle.
    specialize (IH n). unfold selfAlive in IH.
    destruct (m_metaObjectMap r !! obj) as [mo|] eqn:Hobj.
    + destruct (decide (selfAliveCount (infoOf r mo) = 0)) as [Hz|Hnz].
      * assert (mo ≠ 0%N) as Hmo.
        { intros ->. destruct (inv_objs _ _ HI _ _ Hobj) as [? Hk].
          by rewrite (forest_null _ (inv_forest _ _ HI)) in Hk. }
        rewrite (objectRemoved_drop _ _ _ _ Hobj Hmo Hz) in Hstep.
        injection Hstep as <-.
        rewrite (infoOf_touch (set_metaObjectMap (delete obj) r)).
        unfold selfAlive; simpl.
        change (infoOf (set_metaObjectMap (delete obj) r) n) with (infoOf r n).
        lia.
      * destruct (objectRemoved_spec _ _ _ _ _ _ HI Hobj Hnz Hstep)
          as (_ & _ & -> & Hnd).
        rewrite infoOf_afterLoop, infoOf_removeSelf by done.
        unfold selfAlive; simpl. rewrite removeSelf_metaObjectMap.
        pose proof (size_filter_delete (λ om : N * N, om.2 = n) _ _ _ Hobj) as Heq.
        simpl in Heq.
        destruct (decide (n ∈ lineage r mo)), (decide (n = mo)) as [->|Hne]; simpl;
          rewrite ?decide_True, ?(decide_False (P := mo = n)) in Heq by done; lia.
    + rewrite (objectRemoved_untracked _ _ _ Hobj) in Hstep.
      injection Hstep as <-. apply IH.
Qed.

(** So [objectRemoved] finds the [selfAliveCount] of a tracked object's
    node positive in every registry the calls lead to. *)
Lemma tracked_is_counted evs r obj mo :
  run h evs r → m_metaObjectMap r !! obj = Some mo →
  0 < selfAliveCount (infoOf r mo).
Proof.
  intros Hrun Hobj. pose proof (run_selfAlive_le _ _ mo Hrun) as Hle.
  unfold selfAlive in Hle.
  rewrite (size_filter_delete _ _ _ _ Hobj), decide_True in Hle by done. lia.
Qed.

End Tracked.

(** * Further properties *)

(** ** The parent-children map *)

Section Children.
Variable h : Host.
Implicit Types (r : Registry) (m n c p mo obj : N) (b : bool).

Lemma Mirror_ext r r' :
  m_childParentMap r' = m_childParentMap r →
  m_parentChildMap r' = m_parentChildMap r → Mirror r → Mirror r'.
Proof.
  intros Hcp Hpc [Hc Hd]. split; unfold childrenOf in *; rewrite ?Hcp, Hpc; done.
Qed.

Lemma Mirror_empty : Mirror emptyRegistry.
Proof.
  split; unfold childrenOf; simpl; intros p; rewrite lookup_empty; simpl.
  - intros m. rewrite lookup_empty, elem_of_nil. done.
  - constructor.
Qed.

Lemma insertNode_Mirror r mo parent st b :
  Mirror r → ¬ known r mo → Mirror (insertNode h r mo parent st b).
Proof.
  intros [Hc Hd] Hfresh.
  assert (mo ∉ childrenOf r parent) as Hnotin.
  { intros Hin%Hc. apply Hfresh. by eexists. }
  split; unfold childrenOf in *; simpl.
  - intros p m. destruct (decide (parent = p)) as [->|Hp].
    + rewrite lookup_insert_eq; simpl. rewrite elem_of_app, list_elem_of_singleton, Hc.
      destruct (decide (mo = m)) as [->|Hm].
      * rewrite lookup_insert_eq. split; [done|by right].
      * rewrite lookup_insert_ne by done. split; [by intros [?|?]|by left].
    + rewrite lookup_insert_ne by done. rewrite Hc.
      destruct (decide (mo = m)) as [->|Hm].
      * rewrite lookup_insert_eq. split; [|congruence].
        intros Hk. exfalso. apply Hfresh. by eexists.
      * by rewrite lookup_insert_ne.
  - intros p. destruct (decide (parent = p)) as [->|Hp].
    + rewrite lookup_insert_eq; simpl. apply NoDup_app. split; [apply Hd|].
      split; [|apply NoDup_singleton].
      intros x Hx ->%list_elem_of_singleton. done.
    + rewrite lookup_insert_ne by done. apply Hd.
Qed.

Lemma grows_Mirror b r r' : Mirror r → grows h b r r' → Mirror r'.
Proof.
  intros HM; induction 1 as [|r r1 mo parent Hg IH Hmo Hfresh]; [done|].
  specialize (IH HM). apply insertNode_Mirror.
  - destruct (negb _ && b); [by apply (Mirror_ext r1)|done].
  - by destruct (negb _ && b).
Qed.

Lemma objectRemoved_maps fuel r obj r' :
  objectRemoved fuel r obj = Some r' →
  m_childParentMap r' = m_childParentMap r ∧
  m_parentChildMap r' = m_parentChildMap r ∧
  m_metaObjectNameMap r' = m_metaObjectNameMap r.
Proof.
  rewrite objectRemoved_eq. simpl.
  destruct (_ =? 0)%N; [by intros [= <-]|].
  destruct (_ =? 0); [by intros [= <-]|].
  destruct (walk _ _ _); [|done]. intros [= <-]. simpl.
  unfold removeSelf. by destruct (isDynamic _).
Qed.

Lemma addSelf_parentChildMap r obj mo :
  m_parentChildMap (addSelf h r obj mo) = m_parentChildMap r.
Proof. unfold addSelf. by destruct (isDynamic _). Qed.

Lemma run_Mirror evs r : run h evs r → Mirror r.
Proof.
  induction 1 as [|evs r fuel ev r' Hrun IH Hstep]; [apply Mirror_empty|].
  pose proof (run_Inv _ _ _ Hrun) as HI.
  destruct ev as [mo b|obj|obj]; simpl in Hstep.
  - destruct (addMetaObject _ _ _ _ _) as [[c r1]|] eqn:Hadd; [|done].
    injection Hstep as <-. apply addMetaObject_Adds in Hadd.
    destruct (Adds_grows _ _ _ _ _ _ HI Hadd) as (Hg & _).
    by eapply grows_Mirror.
  - destruct (objectAdded_spec _ _ _ _ _ HI Hstep) as (mo & r1 & _ & Hg & _ & -> & _).
    apply (Mirror_ext r1); simpl;
      [apply addSelf_childParentMap|apply addSelf_parentChildMap|].
    by eapply grows_Mirror.
  - destruct (objectRemoved_maps _ _ _ _ Hstep) as (Hcp & Hpc & _).
    by apply (Mirror_ext r).
Qed.

End Children.

(** X1: in every registry a sequence of calls leads to, [childrenOf] and
    [parentOf] agree: a descriptor is listed among the children of [p]
    exactly when the child-parent map gives it the parent [p] (the roots are
    the children of [nullptr]), no list of children has a repetition, and
    [nullptr] is no child. *)
Theorem X1_children_mirror_parents (h : Host) (evs : list Event) (r : Registry)
    (p m : MO) :
  run h evs r →
  (m ∈ childrenOf r p ↔ m_childParentMap r !! m = Some p) ∧
  (m ∈ childrenOf r p → m ≠ 0%N ∧ parentOf r m = p ∧ isKnownMetaObject r m = true) ∧
  (known r m → m ∈ childrenOf r (parentOf r m)) ∧
  NoDup (childrenOf r p).
Proof.
  intros Hrun. pose proof (run_Mirror _ _ _ Hrun) as [Hc Hd].
  pose proof (run_Inv _ _ _ Hrun) as HI.
  split; [apply Hc|]. split; [|split; [|apply Hd]].
  - intros Hin%Hc. split; [|split].
    + intros ->. by rewrite (forest_null _ (inv_forest _ _ HI)) in Hin.
    + unfold parentOf. by rewrite Hin.
    + apply isKnown_true. by eexists.
  - intros [q Hq]. apply Hc. unfold parentOf. by rewrite Hq.
Qed.

(** X1 on [hostABC] after the scan: [C] is the child of [B]. *)
Lemma X1_witness :
  (3%N ∈ childrenOf regABC_scanned 2%N
   ↔ m_childParentMap regABC_scanned !! 3%N = Some 2%N) ∧
  (3%N ∈ childrenOf regABC_scanned 2%N →
   3%N ≠ 0%N ∧ parentOf regABC_scanned 3%N = 2%N
   ∧ isKnownMetaObject regABC_scanned 3%N = true) ∧
  (known regABC_scanned 3%N
   → 3%N ∈ childrenOf regABC_scanned (parentOf regABC_scanned 3%N)) ∧
  NoDup (childrenOf regABC_scanned 2%N).
Proof.
  apply (X1_children_mirror_parents hostABC _ regABC_scanned 2%N 3%N
           regABC_scanned_run).
Defined.

(** ** What no call undoes *)

Section Monotone.
Variable h : Host.
Implicit Types (r : Registry) (m n c p mo obj : N) (b : bool).

Lemma afterLoop_field {A} (g : MetaObjectInfo → A) f r l m :
  (∀ i, g (f i) = g i) → g (infoOf (afterLoop f r l) m) = g (infoOf r m).
Proof. intros Hg. unfold infoOf; simpl. by apply bumpAll_field. Qed.

Lemma grows_children b r r' p :
  grows h b r r' → childrenOf r p `prefix_of` childrenOf r' p.
Proof.
  induction 1 as [|r r1 mo parent Hg IH]; [done|].
  etrans; [apply IH|]. unfold childrenOf; simpl.
  replace (m_parentChildMap (if negb (isReadOnlyData h mo) && b
     then set_nameMap <[mo_className h mo:=mo]> r1 else r1))
    with (m_parentChildMap r1) by by destruct (negb _ && b).
  destruct (decide (parent = p)) as [->|Hp].
  - rewrite lookup_insert_eq; simpl. by apply prefix_app_r.
  - by rewrite lookup_insert_ne.
Qed.

(** The entry of a known node is not touched by [addMetaObject]. *)
Lemma grows_known_info b r r' m :
  Inv h r → grows h b r r' → known r m → infoOf r' m = infoOf r m.
Proof.
  intros HI Hg Hk. unfold infoOf.
  by destruct (grows_info _ _ _ _ m HI Hg) as [->|(Hnk & _)].
Qed.

Lemma objectRemoved_field {A} (g : MetaObjectInfo → A) fuel r obj r' m :
  (∀ i, g (decSelfAlive i) = g i) → (∀ i, g (decInclusiveAlive i) = g i) →
  objectRemoved fuel r obj = Some r' → g (infoOf r' m) = g (infoOf r m).
Proof.
  intros Hs Hi. rewrite objectRemoved_eq. simpl.
  destruct (_ =? 0)%N; [by intros [= <-]|].
  destruct (_ =? 0).
  { intros [= <-]. by rewrite (infoOf_touch (set_metaObjectMap (delete obj) r)). }
  destruct (walk _ _ _); [|done]. intros [= <-].
  rewrite afterLoop_field, infoOf_removeSelf by done.
  by case_decide.
Qed.

Lemma objectAdded_field {A} (g : MetaObjectInfo → A) fuel r obj r' m :
  Inv h r → known r m →
  (∀ i, g (incSelf i) = g i) → (∀ i, g (incInclusive i) = g i) →
  objectAdded h fuel r obj = Some r' → g (infoOf r' m) = g (infoOf r m).
Proof.
  intros HI Hk Hs Hi Hadd.
  destruct (objectAdded_spec _ _ _ _ _ HI Hadd) as (mo & r1 & _ & Hg & _ & -> & _).
  rewrite afterLoop_field, infoOf_addSelf by done.
  rewrite (grows_known_info _ _ _ _ HI Hg Hk). by case_decide.
Qed.

Lemma step_grows_maps fuel r ev r' :
  Inv h r → step h fuel r ev = Some r' →
  ∃ b r1, grows h b r r1 ∧
          m_childParentMap r' = m_childParentMap r1 ∧
          m_parentChildMap r' = m_parentChildMap r1 ∧
          m_metaObjectNameMap r' = m_metaObjectNameMap r1 ∧
          ∃ changes, emitted r' = emitted r1 ++ (dataChanged <$> changes).
Proof.
  intros HI. destruct ev as [mo b|obj|obj]; simpl.
  - destruct (addMetaObject _ _ _ _ _) as [[c r1]|] eqn:Hadd; [|done].
    intros [= <-]. apply addMetaObject_Adds in Hadd.
    destruct (Adds_grows _ _ _ _ _ _ HI Hadd) as (Hg & _).
    exists b, r1. repeat split; try done. exists []. by rewrite app_nil_r.
  - intros Hadd.
    destruct (objectAdded_spec _ _ _ _ _ HI Hadd) as (mo & r1 & _ & Hg & _ & -> & _).
    exists (hasDynamicMetaObject h obj), r1. simpl.
    rewrite addSelf_childParentMap, addSelf_parentChildMap, addSelf_nameMap,
      addSelf_emitted. repeat split; eauto.
  - intros Hrem. exists false, r. split; [constructor|].
    destruct (objectRemoved_maps _ _ _ _ Hrem) as (-> & -> & ->).
    repeat split. revert Hrem. rewrite objectRemoved_eq. simpl.
    destruct (_ =? 0)%N; [intros [= <-]; exists []; by rewrite app_nil_r|].
    destruct (_ =? 0); [intros [= <-]; exists []; by rewrite app_nil_r|].
    destruct (walk _ _ _) as [l|]; [|done]. intros [= <-]. simpl.
    rewrite removeSelf_emitted. eauto.
Qed.

Lemma step_lineage fuel r ev r' m :
  Inv h r → step h fuel r ev = Some r' → known r m →
  lineage r' m = lineage r m.
Proof.
  intros HI Hstep Hk.
  destruct (step_grows_maps _ _ _ _ HI Hstep) as (b & r1 & Hg & Hcp & _).
  rewrite (lineage_ext r1 r') by done. by eapply grows_lineage.
Qed.

End Monotone.

(** X2: no call deletes a node or moves it: after any call that returns,
    every known descriptor has the parent it had, every class name the
    canonical descriptor it had, every list of children starts with the
    list it was, every known descriptor keeps its class name, its
    classification and its ancestors, and nothing is taken from the
    signals emitted. *)
Theorem X2_graph_only_grows (h : Host) (evs : list Event) (r : Registry)
    (fuel : nat) (ev : Event) (r' : Registry) :
  run h evs r → step h fuel r ev = Some r' →
  (∀ m p, m_childParentMap r !! m = Some p → m_childParentMap r' !! m = Some p) ∧
  (∀ k c, m_metaObjectNameMap r !! k = Some c →
          m_metaObjectNameMap r' !! k = Some c) ∧
  (∀ p, childrenOf r p `prefix_of` childrenOf r' p) ∧
  (∀ m, known r m →
        className (infoOf r' m) = className (infoOf r m) ∧
        isStatic (infoOf r' m) = isStatic (infoOf r m) ∧
        isDynamic (infoOf r' m) = isDynamic (infoOf r m) ∧
        lineage r' m = lineage r m) ∧
  emitted r `prefix_of` emitted r'.
Proof.
  intros HI%run_Inv Hstep.
  destruct (step_grows_maps _ _ _ _ _ HI Hstep)
    as (b & r1 & Hg & Hcp & Hpc & Hnm & changes & Hem).
  split; [intros m p Hm; rewrite Hcp; by eapply grows_parent|].
  split; [intros k c Hk; rewrite Hnm; by eapply grows_names|].
  split; [intros p; unfold childrenOf at 2; rewrite Hpc; by eapply grows_children|].
  split.
  - intros m Hk.
    assert (lineage r' m = lineage r m) as Hlin by by eapply step_lineage.
    destruct ev as [mo b'|obj|obj]; simpl in Hstep.
    + destruct (addMetaObject _ _ _ _ _) as [[c r2]|] eqn:Hadd; [|done].
      injection Hstep as <-. apply addMetaObject_Adds in Hadd.
      destruct (Adds_grows _ _ _ _ _ _ HI Hadd) as (Hg' & _).
      by rewrite (grows_known_info _ _ _ _ _ HI Hg' Hk).
    + by rewrite !(objectAdded_field h _ fuel r obj r' m HI Hk).
    + by rewrite !(objectRemoved_field _ fuel r obj r' m).
  - destruct (grows_emitted _ _ _ _ Hg) as (es & Hes & _).
    rewrite Hem, Hes, <-app_assoc. by apply prefix_app_r.
Qed.

(** X2 on [hostScript]: adding object 11 to the registry with object 10. *)
Lemma X2_witness :
  (∀ m p, m_childParentMap regScript_one !! m = Some p
          → m_childParentMap regScript_two !! m = Some p) ∧
  (∀ k c, m_metaObjectNameMap regScript_one !! k = Some c →
          m_metaObjectNameMap regScript_two !! k = Some c) ∧
  (∀ p, childrenOf regScript_one p `prefix_of` childrenOf regScript_two p) ∧
  (∀ m, known regScript_one m →
        className (infoOf regScript_two m) = className (infoOf regScript_one m) ∧
        isStatic (infoOf regScript_two m) = isStatic (infoOf regScript_one m) ∧
        isDynamic (infoOf regScript_two m) = isDynamic (infoOf regScript_one m) ∧
        lineage regScript_two m = lineage regScript_one m) ∧
  emitted regScript_one `prefix_of` emitted regScript_two.
Proof.
  apply (X2_graph_only_grows hostScript _ regScript_one 8 (EvObjectAdded 11%N)
           regScript_two regScript_one_run).
  vm_compute. reflexivity.
Defined.

(** ** The counters of one entry *)

Section Bounds.
Variable h : Host.
Implicit Types (r : Registry) (m n c p mo obj : N) (b : bool).

Lemma run_bounded evs r n : run h evs r → bounded (infoOf r n).
Proof.
  intros Hrun; revert n.
  induction Hrun as [|evs r fuel ev r' Hrun IH Hstep]; intros n.
  { unfold bounded, infoOf; simpl. rewrite lookup_empty; simpl. lia. }
  pose proof (run_Inv _ _ _ Hrun) as HI. specialize (IH n).
  unfold bounded in *.
  destruct ev as [mo b|obj|obj]; simpl in Hstep.
  - destruct (addMetaObject _ _ _ _ _) as [[c r1]|] eqn:Hadd; [|done].
    injection Hstep as <-. apply addMetaObject_Adds in Hadd.
    destruct (Adds_grows _ _ _ _ _ _ HI Hadd) as (Hg & _).
    by destruct (grows_infoOf _ _ _ _ n HI Hg) as (name & st & dy & ->).
  - destruct (objectAdded_spec _ _ _ _ _ HI Hstep)
      as (mo & r1 & _ & Hg & Hk & -> & _ & Hnd).
    rewrite infoOf_afterLoop, infoOf_addSelf by done.
    destruct (grows_infoOf _ _ _ _ n HI Hg) as (name & st & dy & ->).
    assert (mo ∈ lineage r1 mo) as Hself.
    { apply (lineage_self h); [by eapply grows_Inv|].
      intros ->. destruct Hk as [? Hk].
      by rewrite (forest_null _ (inv_forest _ _ (grows_Inv _ _ _ _ HI Hg))) in Hk. }
    destruct (decide (n ∈ lineage r1 mo)) as [Hin|Hin],
      (decide (n = mo)) as [->|Hne]; simpl; try lia. done.
  - revert Hstep. rewrite objectRemoved_eq. simpl.
    destruct (_ =? 0)%N; [by intros [= <-]|].
    destruct (Z.eqb_spec (selfAliveCount
                (infoOf r (default 0%N (m_metaObjectMap r !! obj)))) 0) as [|Hnz].
    { intros [= <-].
      by rewrite (infoOf_touch (set_metaObjectMap (delete obj) r)). }
    destruct (walk _ _ _) as [l|] eqn:Hw; [|done]. intros [= <-].
    apply walk_lineage in Hw as ->; [|apply HI].
    rewrite infoOf_afterLoop, infoOf_removeSelf
      by (eapply path_NoDup; [apply HI|apply lineage_path, HI]).
    destruct (decide (n ∈ lineage r _)), (decide (n = _)) as [->|Hne]; simpl; lia.
Qed.

End Bounds.

(** X3: whatever the order of the calls, also when objects are added twice
    or removed twice, the counters of every node satisfy
    [0 ≤ selfAliveCount ≤ selfCount ≤ inclusiveCount] and
    [inclusiveAliveCount ≤ inclusiveCount]: the test at line 259 keeps
    [selfAliveCount] from going below zero. *)
Theorem X3_counter_bounds (h : Host) (evs : list Event) (r : Registry) (n : MO) :
  run h evs r →
  0 ≤ selfAliveCount (infoOf r n) ∧
  selfAliveCount (infoOf r n) ≤ selfCount (infoOf r n) ∧
  selfCount (infoOf r n) ≤ inclusiveCount (infoOf r n) ∧
  inclusiveAliveCount (infoOf r n) ≤ inclusiveCount (infoOf r n).
Proof. apply run_bounded. Qed.

(** X3 on [hostScript], node 2 after its only instance is removed. *)
Lemma X3_witness :
  0 ≤ selfAliveCount (infoOf regScript_gone 2%N) ∧
  selfAliveCount (infoOf regScript_gone 2%N) ≤ selfCount (infoOf regScript_gone 2%N) ∧
  selfCount (infoOf regScript_gone 2%N) ≤ inclusiveCount (infoOf regScript_gone 2%N) ∧
  inclusiveAliveCount (infoOf regScript_gone 2%N)
  ≤ inclusiveCount (infoOf regScript_gone 2%N).
Proof.
  apply (X3_counter_bounds hostScript
           (eventsScript_scanned ++ [EvObjectAdded 10%N; EvObjectRemoved 10%N])
           regScript_gone 2%N).
  apply (runFrom_empty hostScript 8). vm_compute. reflexivity.
Defined.

(** X4: the creation counters only grow.  [addMetaObject] and
    [objectRemoved] leave [selfCount] and [inclusiveCount] of every node as
    they are; [objectAdded] adds at most one to each. *)
Theorem X4_creation_counters_monotone (h : Host) (evs : list Event)
    (r : Registry) (fuel : nat) (ev : Event) (r' : Registry) (n : MO) :
  run h evs r → step h fuel r ev = Some r' →
  selfCount (infoOf r n) ≤ selfCount (infoOf r' n) ∧
  selfCount (infoOf r' n) ≤ selfCount (infoOf r n) + 1 ∧
  inclusiveCount (infoOf r n) ≤ inclusiveCount (infoOf r' n) ∧
  inclusiveCount (infoOf r' n) ≤ inclusiveCount (infoOf r n) + 1 ∧
  match ev with
  | EvObjectAdded _ => True
  | _ => selfCount (infoOf r' n) = selfCount (infoOf r n) ∧
         inclusiveCount (infoOf r' n) = inclusiveCount (infoOf r n)
  end.
Proof.
  intros HI%run_Inv Hstep. destruct ev as [mo b|obj|obj]; simpl in Hstep.
  - destruct (addMetaObject _ _ _ _ _) as [[c r1]|] eqn:Hadd; [|done].
    injection Hstep as <-. apply addMetaObject_Adds in Hadd.
    destruct (Adds_grows _ _ _ _ _ _ HI Hadd) as (Hg & _).
    destruct (grows_infoOf _ _ _ _ n HI Hg) as (name & st & dy & ->).
    simpl. lia.
  - destruct (objectAdded_spec _ _ _ _ _ HI Hstep)
      as (mo & r1 & _ & Hg & Hk & -> & _ & Hnd).
    rewrite infoOf_afterLoop, infoOf_addSelf by done.
    destruct (grows_infoOf _ _ _ _ n HI Hg) as (name & st & dy & ->).
    destruct (decide (n ∈ lineage r1 mo)), (decide (n = mo)); simpl; lia.
  - rewrite (objectRemoved_field selfCount fuel r obj r' n) by done.
    rewrite (objectRemoved_field inclusiveCount fuel r obj r' n) by done.
    lia.
Qed.

(** X4 on [hostScript]: removing object 10. *)
Lemma X4_witness :
  selfCount (infoOf regScript_one 2%N) ≤ selfCount (infoOf regScript_gone 2%N) ∧
  selfCount (infoOf regScript_gone 2%N) ≤ selfCount (infoOf regScript_one 2%N) + 1 ∧
  inclusiveCount (infoOf regScript_one 2%N)
  ≤ inclusiveCount (infoOf regScript_gone 2%N) ∧
  inclusiveCount (infoOf regScript_gone 2%N)
  ≤ inclusiveCount (infoOf regScript_one 2%N) + 1 ∧
  selfCount (infoOf regScript_gone 2%N) = selfCount (infoOf regScript_one 2%N) ∧
  inclusiveCount (infoOf regScript_gone 2%N)
  = inclusiveCount (infoOf regScript_one 2%N).
Proof.
  apply (X4_creation_counters_monotone hostScript _ regScript_one 8
           (EvObjectRemoved 10%N) regScript_gone 2%N regScript_one_run).
  vm_compute. reflexivity.
Defined.

(** ** Registering again *)

Section Again.
Variable h : Host.
Implicit Types (r : Registry) (m n c p mo obj : N) (b : bool).

Lemma finishAdd_merged r1 mo p b c :
  negb (isReadOnlyData h mo) && b = true →
  m_metaObjectNameMap r1 !! mo_className h mo = Some c →
  finishAdd h r1 mo p b = (c, r1).
Proof. intros Hd Hn. unfold finishAdd. by rewrite Hd, Hn. Qed.

Lemma addMetaObject_known fuel r mo b :
  known r mo → addMetaObject h (S fuel) r mo b = Some (mo, r).
Proof.
  intros Hk%isKnown_true. by rewrite addMetaObject_S, Hk.
Qed.

Lemma addMetaObject_again fuel r mo b c r' :
  addMetaObject h fuel r mo b = Some (c, r') →
  addMetaObject h fuel r' mo b = Some (c, r').
Proof.
  revert r mo c r'; induction fuel as [|f IH]; intros r mo c r'; [done|].
  intros Hadd. pose proof Hadd as Hadd0. revert Hadd.
  rewrite addMetaObject_S.
  destruct (isKnownMetaObject r mo) eqn:Hk; [by intros [= <- <-]|].
  apply isKnown_false in Hk.
  destruct (N.eqb_spec mo 0) as [|Hmo]; [done|].
  assert (∀ r1 p, ¬ known r1 mo →
            (r1 = r ∨ addMetaObject h f r1 (superClass h mo) b = Some (p, r1)
                      ∧ superClass h mo ≠ 0%N) →
            finishAdd h r1 mo p b = (c, r') →
            addMetaObject h (S f) r' mo b = Some (c, r')) as Hfin.
  { intros r1 p Hk1 Hsub [(Hd & Hn & ->)|(_ & -> & ->)]%finishAdd_cases.
    - destruct Hsub as [->|[Hrec Hs]]; [done|].
      rewrite addMetaObject_S.
      apply isKnown_false in Hk1. rewrite Hk1.
      destruct (N.eqb_spec mo 0); [done|].
      destruct (N.eqb_spec (superClass h mo) 0); [done|]. simpl.
      destruct (isKnownMetaObject r1 (superClass h mo)) eqn:Hks1; simpl.
      + by rewrite (finishAdd_merged _ _ _ _ c).
      + by rewrite Hrec, (finishAdd_merged _ _ _ _ c).
    - apply addMetaObject_known. unfold known; simpl. by rewrite lookup_insert_eq. }
  destruct (N.eqb_spec (superClass h mo) 0) as [Hs|Hs]; simpl.
  { intros [= Hf]. apply (Hfin r (superClass h mo)); auto. }
  destruct (isKnownMetaObject r (superClass h mo)) eqn:Hks; simpl.
  { intros [= Hf]. apply (Hfin r (superClass h mo)); auto. }
  apply isKnown_false in Hks.
  destruct (addMetaObject h f r (superClass h mo) b) as [[p r1]|] eqn:Hrec; [|done].
  intros [= Hf]. apply (Hfin r1 p); [| |done].
  - apply (Adds_parent_fresh h b r mo p r1 Hk Hmo). by eapply addMetaObject_Adds.
  - right. split; [by apply (IH r)|done].
Qed.

End Again.

(** X5: a registration that returned can be repeated at no cost.  The
    descriptor [addMetaObject] returns is not [nullptr] and is known
    afterwards; the same call on the registry it left returns the same
    descriptor and leaves that registry as it is, also for a descriptor that
    was merged and has no node of its own; and so does registering the
    returned descriptor, with either flag. *)
Theorem X5_registration_idempotent (h : Host) (evs : list Event) (r : Registry)
    (fuel : nat) (mo : MO) (b : bool) (c : MO) (r' : Registry) :
  run h evs r → addMetaObject h fuel r mo b = Some (c, r') →
  c ≠ 0%N ∧ isKnownMetaObject r' c = true ∧
  addMetaObject h fuel r' mo b = Some (c, r') ∧
  ∀ fuel' b', addMetaObject h (S fuel') r' c b' = Some (c, r').
Proof.
  intros HI%run_Inv Hadd.
  destruct (addMetaObject_Inv _ _ _ _ _ _ _ HI Hadd) as [HI' Hk].
  split; [|split; [by apply isKnown_true|split]].
  - intros ->. destruct Hk as [? Hk].
    by rewrite (forest_null _ (inv_forest _ _ HI')) in Hk.
  - by apply (addMetaObject_again h fuel r).
  - intros fuel' b'. by apply addMetaObject_known.
Qed.

(** X5 on [hostScript]: descriptor 3, merged into node 2. *)
Lemma X5_witness :
  2%N ≠ 0%N ∧ isKnownMetaObject regScript_merged 2%N = true ∧
  addMetaObject hostScript 6 regScript_merged 3%N true
  = Some (2%N, regScript_merged) ∧
  ∀ fuel' b',
    addMetaObject hostScript (S fuel') regScript_merged 2%N b'
    = Some (2%N, regScript_merged).
Proof.
  apply (X5_registration_idempotent hostScript _ regScript_one 6 3%N true 2%N
           regScript_merged regScript_one_run).
  vm_compute. reflexivity.
Defined.

(** ** The scan *)

Section Scan.
Variable h : Host.
Implicit Types (r : Registry) (m n c p mo obj : N) (b : bool).

Lemma grows_trans b r r1 r2 :
  grows h b r r1 → grows h b r1 r2 → grows h b r r2.
Proof.
  intros H1; induction 1 as [|r1 r2 mo parent Hg IH]; [done|].
  apply grows_node; auto.
Qed.

(** Without merging no name is recorded and no node is dynamic. *)
Lemma grows_false r r' :
  Inv h r → grows h false r r' →
  m_metaObjectNameMap r' = m_metaObjectNameMap r ∧
  ∀ n, isDynamic (infoOf r' n) = isDynamic (infoOf r n).
Proof.
  intros HI Hg. split.
  - clear HI. induction Hg as [|r r1 mo parent Hg IH]; [done|].
    simpl. by rewrite andb_false_r.
  - intros n. unfold infoOf.
    destruct (grows_info _ _ _ _ n HI Hg) as [->|(Hk & _ & ->)]; [done|].
    assert (m_metaObjectInfoMap r !! n = None) as ->.
    { apply eq_None_not_Some. by rewrite (inv_info _ _ HI). }
    simpl. by rewrite andb_false_r.
Qed.

(** What [reached] tests. *)
Lemma reached_spec (mtId : nat) :
  reached h mtId = true ↔
  isRegistered h mtId = true ∧
  ∀ j, (j < mtId)%nat → (j ≤ QMetaType_User h)%nat ∨ isRegistered h j = true.
Proof.
  unfold reached. rewrite andb_true_iff, forallb_forall. split.
  - intros [Hr Hall]. split; [done|]. intros j Hj.
    destruct (le_gt_dec j (QMetaType_User h)) as [?|Hgt]; [by left|right].
    apply Hall, in_seq. lia.
  - intros [Hr Hall]. split; [done|]. intros j Hin%in_seq.
    destruct (Hall j) as [?|?]; [lia..|done].
Qed.

(** The loop started at the id [s]: the registry grows by static nodes, the
    descriptors of the registered ids it reaches are known afterwards, and
    every node it enters is such a descriptor or a super class of one. *)
Lemma scanLoop_grows fuel r (s : nat) mts r' :
  Inv h r → scanLoop h fuel r s mts = Some r' →
  grows h false r r' ∧
  (∀ (k : nat) mt,
     mts !! k = Some mt → isRegistered h (s + k) = true →
     (∀ j, (s ≤ j < s + k)%nat →
           (j ≤ QMetaType_User h)%nat ∨ isRegistered h j = true) →
     mt ≠ 0%N → known r' mt) ∧
  (∀ x, known r' x → ¬ known r x →
     ∃ (k : nat) mt,
       mts !! k = Some mt ∧ isRegistered h (s + k) = true ∧
       (∀ j, (s ≤ j < s + k)%nat →
             (j ≤ QMetaType_User h)%nat ∨ isRegistered h j = true) ∧
       derivesFrom h mt x).
Proof.
  revert r s; induction mts as [|mt mts IH]; intros r s HI; simpl.
  { intros [= <-]. split; [constructor|]. split; [by intros k mt ?|done]. }
  assert (∀ r1, grows h false r r1 → Inv h r1 →
            scanLoop h fuel r1 (S s) mts = Some r' →
            (s ≤ QMetaType_User h)%nat ∨ isRegistered h s = true →
            (isRegistered h s = true → mt ≠ 0%N → known r1 mt) →
            (∀ x, known r1 x → ¬ known r x →
                  isRegistered h s = true ∧ derivesFrom h mt x) →
            grows h false r r' ∧
            (∀ (k : nat) mt',
               (mt :: mts) !! k = Some mt' → isRegistered h (s + k) = true →
               (∀ j, (s ≤ j < s + k)%nat →
                     (j ≤ QMetaType_User h)%nat ∨ isRegistered h j = true) →
               mt' ≠ 0%N → known r' mt') ∧
            (∀ x, known r' x → ¬ known r x →
               ∃ (k : nat) mt',
                 (mt :: mts) !! k = Some mt' ∧ isRegistered h (s + k) = true ∧
                 (∀ j, (s ≤ j < s + k)%nat →
                       (j ≤ QMetaType_User h)%nat ∨ isRegistered h j = true) ∧
                 derivesFrom h mt' x)) as Hrest.
  { intros r1 Hg1 HI1 Hscan Hpass Hhere Hnew1.
    destruct (IH r1 (S s) HI1 Hscan) as (Hg & Hk & Hn).
    split; [by eapply grows_trans|]. split.
    - intros [|k] mt' Hl Hr Hp Hne; simpl in Hl.
      + injection Hl as <-. rewrite Nat.add_0_r in Hr.
        eapply grows_known; [done|]. by apply Hhere.
      + rewrite Nat.add_succ_r in Hr. apply (Hk k mt'); try done.
        intros j Hj. apply Hp. lia.
    - intros x Hx Hnx. destruct (decide (known r1 x)) as [Hx1|Hx1].
      + destruct (Hnew1 x Hx1 Hnx) as [Hr Hd]. exists 0%nat, mt.
        split; [done|]. rewrite Nat.add_0_r. split; [done|].
        split; [intros j Hj; lia|done].
      + destruct (Hn x Hx Hx1) as (k & mt' & Hl & Hr & Hp & Hd).
        exists (S k), mt'. split; [done|]. rewrite Nat.add_succ_r.
        split; [done|]. split; [|done]. intros j Hj.
        destruct (decide (j = s)) as [->|Hjs]; [done|]. apply Hp. lia. }
  destruct (_ || _) eqn:Hcond.
  - assert ((s ≤ QMetaType_User h)%nat ∨ isRegistered h s = true) as Hpass.
    { apply orb_true_iff in Hcond as [Hle%Nat.leb_le|?]; [by left|by right]. }
    destruct (isRegistered h s) eqn:Hreg; simpl.
    + destruct (N.eqb_spec mt 0) as [->|Hmt].
      * intros Hscan.
        apply (Hrest r (grows_refl _ _ _) HI Hscan Hpass); [done|].
        intros x Hx Hnx. done.
      * destruct (addMetaObject h fuel r mt false) as [[c r1]|] eqn:Hadd; [|done].
        intros Hscan.
        pose proof (addMetaObject_Adds _ _ _ _ _ _ _ Hadd) as Hadds.
        destruct (Adds_grows _ _ _ _ _ _ HI Hadds) as (Hg1 & Hkc & _ & Hres).
        pose proof (grows_Inv _ _ _ _ HI Hg1) as HI1.
        apply (Hrest r1 Hg1 HI1 Hscan Hpass).
        -- intros _ _. destruct (decide (known r mt)) as [Hkn|Hkn].
           ++ by eapply grows_known.
           ++ specialize (Hres Hkn). rewrite andb_false_r in Hres. by subst c.
        -- intros x Hx Hnx. split; [done|]. by eapply Adds_new.
    + intros Hscan.
      apply (Hrest r (grows_refl _ _ _) HI Hscan Hpass); [done|].
      intros x Hx Hnx. done.
  - intros [= <-]. split; [constructor|].
    assert (¬ ((s ≤ QMetaType_User h)%nat ∨ isRegistered h s = true)) as Hstop.
    { apply orb_false_iff in Hcond as [Hgt%Nat.leb_gt Hreg].
      intros [?|?]; [lia|congruence]. }
    split.
    + intros [|k] mt' Hl Hr Hp Hne.
      * rewrite Nat.add_0_r in Hr. destruct Hstop. by right.
      * destruct Hstop. apply Hp. lia.
    + intros x Hx Hnx. done.
Qed.

(** The loop changes nothing when the descriptors it reaches are known. *)
Lemma scanLoop_known fuel r (s : nat) mts :
  (∀ (k : nat) mt,
     mts !! k = Some mt → isRegistered h (s + k) = true →
     (∀ j, (s ≤ j < s + k)%nat →
           (j ≤ QMetaType_User h)%nat ∨ isRegistered h j = true) →
     mt ≠ 0%N → known r mt) →
  scanLoop h (S fuel) r s mts = Some r.
Proof.
  revert s; induction mts as [|mt mts IH]; intros s Hk; [done|].
  cbn [scanLoop]. destruct (_ || _) eqn:Hcond; [|done].
  assert ((s ≤ QMetaType_User h)%nat ∨ isRegistered h s = true) as Hpass.
  { apply orb_true_iff in Hcond as [Hle%Nat.leb_le|?]; [by left|by right]. }
  assert (scanLoop h (S fuel) r (S s) mts = Some r) as Hrest.
  { apply IH. intros k mt' Hl Hr Hp Hne. apply (Hk (S k) mt'); try done.
    - by rewrite Nat.add_succ_r.
    - intros j Hj. destruct (decide (j = s)) as [->|Hjs]; [done|].
      apply Hp. lia. }
  destruct (isRegistered h s) eqn:Hreg; cbn [negb]; [|done].
  destruct (N.eqb_spec mt 0) as [|Hmt]; [done|].
  rewrite addMetaObject_known; [done|].
  apply (Hk 0%nat mt); try done; [by rewrite Nat.add_0_r|intros j Hj; lia].
Qed.

Lemma scanMetaTypes_grows fuel r r' :
  Inv h r → scanMetaTypes h fuel r = Some r' →
  grows h false r r' ∧
  (∀ (i : nat) mt, metaTypes h !! i = Some mt → reached h i = true →
                   mt ≠ 0%N → known r' mt) ∧
  known r' (staticQtMetaObject h) ∧
  (∀ x, known r' x → ¬ known r x →
        derivesFrom h (staticQtMetaObject h) x ∨
        ∃ (i : nat) mt, metaTypes h !! i = Some mt ∧ reached h i = true ∧
                        derivesFrom h mt x) ∧
  scanMetaTypes h fuel r' = Some r'.
Proof.
  intros HI. unfold scanMetaTypes.
  destruct (scanLoop h fuel r 0 (metaTypes h)) as [r1|] eqn:Hscan; [|done].
  destruct (scanLoop_grows _ _ _ _ _ HI Hscan) as (Hg1 & Hk1 & Hn1).
  pose proof (grows_Inv _ _ _ _ HI Hg1) as HI1.
  destruct (addMetaObject h fuel r1 (staticQtMetaObject h) false)
    as [[c r2]|] eqn:Hadd; [|done].
  simpl. intros [= <-].
  pose proof (addMetaObject_Adds _ _ _ _ _ _ _ Hadd) as Hadds.
  destruct (Adds_grows _ _ _ _ _ _ HI1 Hadds) as (Hg2 & Hkc & _ & Hres).
  assert (known r2 (staticQtMetaObject h)) as Hkq.
  { destruct (decide (known r1 (staticQtMetaObject h))) as [Hkn|Hkn].
    - by eapply grows_known.
    - specialize (Hres Hkn). rewrite andb_false_r in Hres. by subst c. }
  assert (∀ (i : nat) mt, metaTypes h !! i = Some mt → reached h i = true →
                          mt ≠ 0%N → known r2 mt) as Hk2.
  { intros i mt Hl [Hr Hp]%reached_spec Hmt. eapply grows_known; [done|].
    apply (Hk1 i mt); try done. intros j Hj. apply Hp. lia. }
  split; [by eapply grows_trans|]. split; [done|]. split; [done|]. split.
  - intros x Hx Hnx. destruct (decide (known r1 x)) as [Hx1|Hx1].
    + right. destruct (Hn1 x Hx1 Hnx) as (i & mt & Hl & Hr & Hp & Hd).
      exists i, mt. split; [done|]. split; [|done].
      apply reached_spec. split; [done|]. intros j Hj. apply Hp. lia.
    + left. by eapply Adds_new.
  - destruct fuel as [|f]; [done|].
    rewrite scanLoop_known, addMetaObject_known; [done..|].
    intros k mt Hl Hr Hp Hmt. apply (Hk2 k mt); try done.
    apply reached_spec. split; [done|]. intros j Hj. apply Hp. lia.
Qed.

Lemma scanLoop_returns fuel r (s : nat) mts :
  (∀ mt, mt ∈ mts → mt ≠ 0%N → ∃ d, superChain h mt d ∧ (d < fuel)%nat) →
  ∃ r', scanLoop h fuel r s mts = Some r'.
Proof.
  revert r s; induction mts as [|mt mts IH]; intros r s Hd; simpl; [eauto|].
  assert (∀ x, x ∈ mts → x ≠ 0%N → ∃ d, superChain h x d ∧ (d < fuel)%nat)
    as Hd' by (intros x Hx; apply Hd; by right).
  destruct (_ || _); [|eauto].
  destruct (negb _); [by apply IH|].
  destruct (N.eqb_spec mt 0) as [|Hmt]; [by apply IH|].
  destruct (Hd mt) as (d & Hc & Hlt); [by left|done|].
  destruct (unknownChain_superChain h r _ _ Hc) as (k & Hk & Hle).
  destruct (addMetaObject_returns h fuel r mt false k Hk) as (c & r1 & ->);
    [lia|by left|].
  by apply IH.
Qed.

End Scan.

(** X6: a scan that returns, from any registry the calls lead to, leaves
    [staticQtMetaObject] known and the descriptor of every registered meta
    type that the loop reaches: the registered ids up to [QMetaType::User]
    and the registered ones that follow with no id in between that is not
    registered.  Every node it enters is such a descriptor,
    [staticQtMetaObject] or a super class of one of them, so that a type
    registered behind an unregistered id above [QMetaType::User] is not
    scanned.  The scan records no class name, tracks no object, makes no
    node dynamic and changes no counter and no [invalid] flag; a second
    scan with the same fuel changes nothing. *)
Theorem X6_scan_registers_static_only (h : Host) (evs : list Event)
    (r : Registry) (fuel : nat) (r' : Registry) :
  run h evs r → scanMetaTypes h fuel r = Some r' →
  (∀ (mtId : nat) mt, metaTypes h !! mtId = Some mt → reached h mtId = true →
                      mt ≠ 0%N → isKnownMetaObject r' mt = true) ∧
  isKnownMetaObject r' (staticQtMetaObject h) = true ∧
  (∀ x, isKnownMetaObject r' x = true → isKnownMetaObject r x = false →
        derivesFrom h (staticQtMetaObject h) x ∨
        ∃ (mtId : nat) mt, metaTypes h !! mtId = Some mt ∧
                           reached h mtId = true ∧ derivesFrom h mt x) ∧
  (∀ mtId, reached h mtId = true ↔
           isRegistered h mtId = true ∧
           ∀ j, (QMetaType_User h < j < mtId)%nat → isRegistered h j = true) ∧
  m_metaObjectNameMap r' = m_metaObjectNameMap r ∧
  m_metaObjectMap r' = m_metaObjectMap r ∧
  m_aliveInstances r' = m_aliveInstances r ∧
  (∀ n, isDynamic (infoOf r' n) = isDynamic (infoOf r n) ∧
        invalid (infoOf r' n) = invalid (infoOf r n) ∧
        selfCount (infoOf r' n) = selfCount (infoOf r n) ∧
        inclusiveCount (infoOf r' n) = inclusiveCount (infoOf r n) ∧
        selfAliveCount (infoOf r' n) = selfAliveCount (infoOf r n) ∧
        inclusiveAliveCount (infoOf r' n) = inclusiveAliveCount (infoOf r n)) ∧
  scanMetaTypes h fuel r' = Some r'.
Proof.
  intros HI%run_Inv Hscan.
  destruct (scanMetaTypes_grows _ _ _ _ HI Hscan)
    as (Hg & Hk & Hkq & Hnew & Hagain).
  destruct (grows_false _ _ _ HI Hg) as [Hnames Hdyn].
  destruct (grows_frame _ _ _ _ Hg) as (Hobjs & Halive & _).
  split; [intros i mt Hin Hr Hmt; apply isKnown_true; eauto|].
  split; [by apply isKnown_true|].
  split; [intros x Hx%isKnown_true Hnx%isKnown_false; by apply Hnew|].
  split.
  { intros i. rewrite reached_spec. split; intros [Hr Hp]; (split; [done|]).
    - intros j Hj. destruct (Hp j) as [?|?]; [lia..|done].
    - intros j Hj. destruct (le_gt_dec j (QMetaType_User h)); [by left|right].
      apply Hp. lia. }
  do 3 (split; [done|]). split; [|done].
  intros n. split; [apply Hdyn|].
  by destruct (grows_infoOf _ _ _ _ n HI Hg) as (name & st & dy & ->).
Qed.

(** X6 on [hostGap]: the scan of the constructor ends at the unregistered
    id 3. *)
Lemma X6_witness :
  (∀ (mtId : nat) mt, metaTypes hostGap !! mtId = Some mt →
                      reached hostGap mtId = true →
                      mt ≠ 0%N → isKnownMetaObject regGap_scanned mt = true) ∧
  isKnownMetaObject regGap_scanned (staticQtMetaObject hostGap) = true ∧
  (∀ x, isKnownMetaObject regGap_scanned x = true →
        isKnownMetaObject emptyRegistry x = false →
        derivesFrom hostGap (staticQtMetaObject hostGap) x ∨
        ∃ (mtId : nat) mt, metaTypes hostGap !! mtId = Some mt ∧
                           reached hostGap mtId = true ∧
                           derivesFrom hostGap mt x) ∧
  (∀ mtId, reached hostGap mtId = true ↔
           isRegistered hostGap mtId = true ∧
           ∀ j, (QMetaType_User hostGap < j < mtId)%nat →
                isRegistered hostGap j = true) ∧
  m_metaObjectNameMap regGap_scanned = m_metaObjectNameMap emptyRegistry ∧
  m_metaObjectMap regGap_scanned = m_metaObjectMap emptyRegistry ∧
  m_aliveInstances regGap_scanned = m_aliveInstances emptyRegistry ∧
  (∀ n, isDynamic (infoOf regGap_scanned n) = isDynamic (infoOf emptyRegistry n) ∧
        invalid (infoOf regGap_scanned n) = invalid (infoOf emptyRegistry n) ∧
        selfCount (infoOf regGap_scanned n) = selfCount (infoOf emptyRegistry n) ∧
        inclusiveCount (infoOf regGap_scanned n)
        = inclusiveCount (infoOf emptyRegistry n) ∧
        selfAliveCount (infoOf regGap_scanned n)
        = selfAliveCount (infoOf emptyRegistry n) ∧
        inclusiveAliveCount (infoOf regGap_scanned n)
        = inclusiveAliveCount (infoOf emptyRegistry n)) ∧
  scanMetaTypes hostGap 4 regGap_scanned = Some regGap_scanned.
Proof.
  apply (X6_scan_registers_static_only hostGap [] emptyRegistry 4 regGap_scanned
           (run_nil hostGap)).
  vm_compute. reflexivity.
Defined.

(** On [hostGap] the ids 4 and 5 are registered and not reached: their
    descriptors 3 and 2 are not known after the scan. *)
Lemma regGap_scanned_nodes :
  scanMetaTypes hostGap 4 emptyRegistry = Some regGap_scanned ∧
  isRegistered hostGap 4 = true ∧ reached hostGap 4 = false ∧
  isRegistered hostGap 5 = true ∧ reached hostGap 5 = false ∧
  isKnownMetaObject regGap_scanned 1%N = true ∧
  isKnownMetaObject regGap_scanned 2%N = false ∧
  isKnownMetaObject regGap_scanned 3%N = false ∧
  isKnownMetaObject regGap_scanned 4%N = true.
Proof. by vm_compute. Qed.

(** X7: the scan of the constructor returns as soon as the fuel exceeds
    the length of the super-class chain of every meta type and of
    [staticQtMetaObject]; the registry it leaves has no dynamic node, no
    canonical name, no tracked object, every counter zero, and classifies a
    node as static exactly when its descriptor lies in read-only
    storage. *)
Theorem X7_constructor_scan (h : Host) (fuel : nat) :
  (∀ mt, mt ∈ staticQtMetaObject h :: metaTypes h → mt ≠ 0%N →
         ∃ d, superChain h mt d ∧ (d < fuel)%nat) →
  staticQtMetaObject h ≠ 0%N →
  ∃ r', scanMetaTypes h fuel emptyRegistry = Some r' ∧
        m_metaObjectNameMap r' = ∅ ∧ m_metaObjectMap r' = ∅ ∧
        m_aliveInstances r' = ∅ ∧
        ∀ n, isDynamic (infoOf r' n) = false ∧
             invalid (infoOf r' n) = false ∧
             selfCount (infoOf r' n) = 0 ∧ inclusiveCount (infoOf r' n) = 0 ∧
             selfAliveCount (infoOf r' n) = 0 ∧
             inclusiveAliveCount (infoOf r' n) = 0 ∧
             (known r' n → isStatic (infoOf r' n) = isReadOnlyData h n) ∧
             aliveInstance r' n = n.
Proof.
  intros Hd Hq.
  assert (∃ r', scanMetaTypes h fuel emptyRegistry = Some r') as [r' Hscan].
  { unfold scanMetaTypes.
    destruct (scanLoop_returns h fuel emptyRegistry 0 (metaTypes h)) as [r1 ->].
    { intros mt Hin. apply Hd. by right. }
    destruct (Hd (staticQtMetaObject h)) as (d & Hc & Hlt); [by left|done|].
    destruct (unknownChain_superChain h r1 _ _ Hc) as (k & Hk & Hle).
    destruct (addMetaObject_returns h fuel r1 _ false k Hk) as (c & r2 & ->);
      [lia|by left|]. simpl; eauto. }
  exists r'. split; [done|].
  pose proof (Inv_empty h) as HI.
  destruct (scanMetaTypes_grows _ _ _ _ HI Hscan) as (Hg & _).
  destruct (grows_false _ _ _ HI Hg) as [Hnames Hdyn].
  destruct (grows_frame _ _ _ _ Hg) as (Hobjs & Halive & _).
  pose proof (grows_Inv _ _ _ _ HI Hg) as HI'.
  do 3 (split; [done|]). intros n.
  split; [by rewrite Hdyn|].
  destruct (grows_infoOf _ _ _ _ n HI Hg) as (name & st & dy & Hi).
  do 5 (split; [by rewrite Hi|]). split.
  - intros Hk. apply (inv_info _ _ HI') in Hk as [i Hin].
    unfold infoOf. rewrite Hin. simpl. by eapply inv_class.
  - unfold aliveInstance. by rewrite Halive.
Qed.

(** X7 on [hostScript]. *)
Lemma X7_witness :
  ∃ r', scanMetaTypes hostScript 4 emptyRegistry = Some r' ∧
        m_metaObjectNameMap r' = ∅ ∧ m_metaObjectMap r' = ∅ ∧
        m_aliveInstances r' = ∅ ∧
        ∀ n, isDynamic (infoOf r' n) = false ∧
             invalid (infoOf r' n) = false ∧
             selfCount (infoOf r' n) = 0 ∧ inclusiveCount (infoOf r' n) = 0 ∧
             selfAliveCount (infoOf r' n) = 0 ∧
             inclusiveAliveCount (infoOf r' n) = 0 ∧
             (known r' n → isStatic (infoOf r' n) = isReadOnlyData hostScript n) ∧
             aliveInstance r' n = n.
Proof.
  apply (X7_constructor_scan hostScript 4); [|discriminate].
  intros mt Hin Hmt. exists 1%nat. split; [|lia].
  apply elem_of_cons in Hin as [->|Hin].
  - apply superChain_step; [discriminate|]. apply superChain_null.
  - apply list_elem_of_singleton in Hin as ->.
    apply superChain_step; [discriminate|]. apply superChain_null.
Defined.

(** ** inheritsQObject and data *)

Section Inherits.
Variable h : Host.
Implicit Types (r : Registry) (m n c p mo obj q : N) (b : bool).

Lemma inheritsQObject_path fuel q r mo l :
  path (m_childParentMap r) mo l → (length l < fuel)%nat →
  inheritsQObject fuel q r mo = Some (bool_decide (q ∈ l)).
Proof.
  intros Hp; revert fuel; induction Hp as [|m l Hm Hp IH]; intros fuel Hlen.
  - destruct fuel; [simpl in Hlen; lia|]. done.
  - destruct fuel as [|f]; [simpl in Hlen; lia|]. simpl.
    destruct (N.eqb_spec m 0); [done|].
    destruct (N.eqb_spec m q) as [->|Hq].
    + f_equal. symmetry. apply bool_decide_eq_true. by left.
    + rewrite IH by (simpl in Hlen; lia). f_equal.
      apply bool_decide_ext. rewrite elem_of_cons. split; [by right|].
      intros [->|?]; done.
Qed.

Lemma inheritsQObject_lineage fuel q r mo :
  Inv h r → (size (m_childParentMap r) + 2 ≤ fuel)%nat →
  inheritsQObject fuel q r mo = Some (bool_decide (q ∈ lineage r mo)).
Proof.
  intros HI Hfuel. apply inheritsQObject_path; [apply lineage_path, HI|].
  pose proof (path_length _ _ _ (inv_forest _ _ HI)
                (lineage_path r mo (inv_forest _ _ HI))). lia.
Qed.

Lemma lineage_unknown r mo :
  Inv h r → mo ≠ 0%N → ¬ known r mo → lineage r mo = [mo].
Proof.
  intros HI Hmo Hk. eapply path_det; [apply lineage_path, HI|].
  apply path_unknown; [done|]. by apply eq_None_not_Some.
Qed.

Lemma lineage_null r : Inv h r → lineage r 0%N = [].
Proof.
  intros HI. eapply path_det; [apply lineage_path, HI|constructor].
Qed.

Lemma lineage_cons r mo :
  Inv h r → mo ≠ 0%N → lineage r mo = mo :: lineage r (parentOf r mo).
Proof.
  intros HI Hmo. eapply path_det; [apply lineage_path, HI|].
  constructor; [done|]. apply lineage_path, HI.
Qed.

(** The class name recorded for a node is the one of its descriptor. *)
Lemma run_className evs r m :
  run h evs r → known r m → className (infoOf r m) = mo_className h m.
Proof.
  intros Hrun; revert m.
  induction Hrun as [|evs r fuel ev r' Hrun IH Hstep]; intros m.
  { intros [? Hk]. simpl in Hk. by rewrite lookup_empty in Hk. }
  pose proof (run_Inv _ _ _ Hrun) as HI.
  assert (∀ b r1, grows h b r r1 → known r1 m →
                  className (infoOf r1 m) = mo_className h m) as Hgrow.
  { intros b r1 Hg Hk1. unfold infoOf.
    destruct (grows_info _ _ _ _ m HI Hg) as [Heq|(_ & _ & ->)]; [|done].
    rewrite Heq. apply IH. apply (inv_info _ _ HI).
    rewrite <-Heq. by apply (inv_info _ _ (grows_Inv _ _ _ _ HI Hg)). }
  destruct ev as [mo b|obj|obj]; simpl in Hstep.
  - destruct (addMetaObject _ _ _ _ _) as [[c r1]|] eqn:Hadd; [|done].
    injection Hstep as <-. apply addMetaObject_Adds in Hadd.
    destruct (Adds_grows _ _ _ _ _ _ HI Hadd) as (Hg & _). by eapply Hgrow.
  - destruct (objectAdded_spec _ _ _ _ _ HI Hstep) as (mo & r1 & _ & Hg & _ & -> & _).
    unfold known; simpl. rewrite addSelf_childParentMap. intros Hk.
    rewrite afterLoop_field, infoOf_addSelf by done.
    rewrite <-(Hgrow _ _ Hg Hk). by case_decide.
  - destruct (objectRemoved_maps _ _ _ _ Hstep) as (Hcp & _).
    unfold known. rewrite Hcp. intros Hk.
    rewrite (objectRemoved_field className fuel r obj r' m) by done. by apply IH.
Qed.

End Inherits.

(** X8: with fuel for the nodes of the registry [inheritsQObject] returns,
    and answers whether [QObject::staticMetaObject] is the descriptor or one
    of its ancestors in the child-parent map: never for [nullptr], for a
    descriptor the registry does not know only if it is that descriptor
    itself, otherwise as for the parent.  The answer for a known descriptor
    is the same after every later call. *)
Theorem X8_inheritsQObject (h : Host) (evs : list Event) (r : Registry)
    (fuel : nat) (qobject mo : MO) :
  run h evs r → (size (m_childParentMap r) + 2 ≤ fuel)%nat →
  inheritsQObject fuel qobject r mo = Some (bool_decide (qobject ∈ lineage r mo)) ∧
  inheritsQObject fuel qobject r 0%N = Some false ∧
  (mo ≠ 0%N → ¬ known r mo →
   inheritsQObject fuel qobject r mo = Some (bool_decide (mo = qobject))) ∧
  (mo ≠ 0%N → mo ≠ qobject →
   inheritsQObject fuel qobject r mo
   = inheritsQObject fuel qobject r (parentOf r mo)) ∧
  (∀ fuel1 ev r' fuel2,
     step h fuel1 r ev = Some r' → known r mo →
     (size (m_childParentMap r') + 2 ≤ fuel2)%nat →
     inheritsQObject fuel2 qobject r' mo = inheritsQObject fuel qobject r mo).
Proof.
  intros Hrun Hfuel. pose proof (run_Inv _ _ _ Hrun) as HI.
  rewrite !(inheritsQObject_lineage h) by done.
  split; [done|]. split; [|split; [|split]].
  - by rewrite (lineage_null h).
  - intros Hmo Hk. rewrite (lineage_unknown h) by done. f_equal.
    apply bool_decide_ext. rewrite list_elem_of_singleton. split; congruence.
  - intros Hmo Hq. rewrite (lineage_cons h r mo) by done. f_equal.
    apply bool_decide_ext. rewrite elem_of_cons. split; [|by right].
    intros [?|?]; [congruence|done].
  - intros fuel1 ev r' fuel2 Hstep Hk Hfuel2.
    rewrite (inheritsQObject_lineage h); [|by eapply step_Inv|done].
    by rewrite (step_lineage h fuel1 r ev r' mo).
Qed.

(** X8 on [hostABC] with one instance of [C], the class [A] standing for
    [QObject]. *)
Lemma X8_witness :
  inheritsQObject 7 1%N regABC_added 3%N
  = Some (bool_decide (1%N ∈ lineage regABC_added 3%N)) ∧
  inheritsQObject 7 1%N regABC_added 0%N = Some false ∧
  (3%N ≠ 0%N → ¬ known regABC_added 3%N →
   inheritsQObject 7 1%N regABC_added 3%N = Some (bool_decide (3%N = 1%N))) ∧
  (3%N ≠ 0%N → 3%N ≠ 1%N →
   inheritsQObject 7 1%N regABC_added 3%N
   = inheritsQObject 7 1%N regABC_added (parentOf regABC_added 3%N)) ∧
  (∀ fuel1 ev r' fuel2,
     step hostABC fuel1 regABC_added ev = Some r' → known regABC_added 3%N →
     (size (m_childParentMap r') + 2 ≤ fuel2)%nat →
     inheritsQObject fuel2 1%N r' 3%N = inheritsQObject 7 1%N regABC_added 3%N).
Proof.
  apply (X8_inheritsQObject hostABC _ regABC_added 7 1%N 3%N regABC_added_run).
  vm_compute. lia.
Defined.

(** X9: with fuel for the nodes of the registry [data] answers every role
    for every descriptor.  For a known descriptor the class name is the one
    of the descriptor, the validity is that of its entry, and each of the
    four counts is the counter of its entry when
    [QObject::staticMetaObject] is the descriptor or one of its ancestors,
    and ["-"] when it is not; for a descriptor the registry does not know,
    other than [QObject::staticMetaObject] itself, the class name is empty,
    the validity false and every count ["-"]. *)
Theorem X9_data_roles (h : Host) (evs : list Event) (r : Registry)
    (fuel : nat) (qobject mo : MO) :
  run h evs r → (size (m_childParentMap r) + 2 ≤ fuel)%nat →
  (∀ type, is_Some (data fuel qobject r mo type)) ∧
  (known r mo →
   ∀ type,
     data fuel qobject r mo type
     = Some (let inherits := bool_decide (qobject ∈ lineage r mo) in
             match type with
             | ClassName => QVariant_string (mo_className h mo)
             | Valid => QVariant_bool (negb (invalid (infoOf r mo)))
             | SelfCount => countOrDash inherits (selfCount (infoOf r mo))
             | InclusiveCount =>
                 countOrDash inherits (inclusiveCount (infoOf r mo))
             | SelfAliveCount =>
                 countOrDash inherits (selfAliveCount (infoOf r mo))
             | InclusiveAliveCount =>
                 countOrDash inherits (inclusiveAliveCount (infoOf r mo))
             end)) ∧
  (¬ known r mo → mo ≠ qobject →
   ∀ type, data fuel qobject r mo type
           = Some (match type with
                   | ClassName => QVariant_string ""
                   | Valid => QVariant_bool false
                   | _ => QVariant_string "-"
                   end)).
Proof.
  intros Hrun Hfuel. pose proof (run_Inv _ _ _ Hrun) as HI.
  pose proof (inheritsQObject_lineage h fuel qobject r mo HI Hfuel) as Hinh.
  split; [|split].
  - intros []; unfold data; rewrite ?Hinh; simpl; eauto.
  - intros Hk type. pose proof (run_className h evs r mo Hrun Hk) as Hname.
    assert (isValid r mo = negb (invalid (infoOf r mo))) as Hvalid.
    { apply (inv_info _ _ HI) in Hk as [i Hi]. unfold isValid, infoOf.
      by rewrite Hi. }
    destruct type; unfold data; rewrite ?Hinh, ?Hname, ?Hvalid; done.
  - intros Hk Hq.
    assert (m_metaObjectInfoMap r !! mo = None) as Hnone.
    { apply eq_None_not_Some. by rewrite (inv_info _ _ HI). }
    assert (bool_decide (qobject ∈ lineage r mo) = false) as Hfalse.
    { apply bool_decide_eq_false. destruct (decide (mo = 0%N)) as [->|Hmo].
      - rewrite (lineage_null h) by done. apply not_elem_of_nil.
      - rewrite (lineage_unknown h) by done.
        rewrite list_elem_of_singleton. congruence. }
    intros []; unfold data, isValid, infoOf; rewrite ?Hinh, ?Hnone, ?Hfalse; done.
Qed.

(** X9 on [hostABC] with one instance of [C]: the known descriptor 3. *)
Lemma X9_witness :
  (∀ type, is_Some (data 7 1%N regABC_added 3%N type)) ∧
  (known regABC_added 3%N →
   ∀ type,
     data 7 1%N regABC_added 3%N type
     = Some (let inherits := bool_decide (1%N ∈ lineage regABC_added 3%N) in
             match type with
             | ClassName => QVariant_string (mo_className hostABC 3%N)
             | Valid => QVariant_bool (negb (invalid (infoOf regABC_added 3%N)))
             | SelfCount =>
                 countOrDash inherits (selfCount (infoOf regABC_added 3%N))
             | InclusiveCount =>
                 countOrDash inherits (inclusiveCount (infoOf regABC_added 3%N))
             | SelfAliveCount =>
                 countOrDash inherits (selfAliveCount (infoOf regABC_added 3%N))
             | InclusiveAliveCount =>
                 countOrDash inherits
                   (inclusiveAliveCount (infoOf regABC_added 3%N))
             end)) ∧
  (¬ known regABC_added 3%N → 3%N ≠ 1%N →
   ∀ type, data 7 1%N regABC_added 3%N type
           = Some (match type with
                   | ClassName => QVariant_string ""
                   | Valid => QVariant_bool false
                   | _ => QVariant_string "-"
                   end)).
Proof.
  apply (X9_data_roles hostABC _ regABC_added 7 1%N 3%N regABC_added_run).
  vm_compute. lia.
Defined.

(** ** canonicalMetaObject *)

Section Canonical.
Variable h : Host.
Implicit Types (r : Registry) (m n c p mo obj a : N) (b : bool) (l : list N).

Lemma elem_of_insertAt (i : nat) x y l :
  y ∈ insertAt i x l ↔ y = x ∨ y ∈ l.
Proof.
  unfold insertAt. rewrite elem_of_app, elem_of_cons.
  pose proof (elem_of_app (take i l) (drop i l) y) as Happ.
  rewrite take_drop in Happ. tauto.
Qed.

Lemma elem_of_delete_other (i : nat) x y l :
  l !! i = Some x → y ∈ l → y ≠ x → y ∈ delete i l.
Proof.
  intros Hi Hy Hne. rewrite delete_take_drop.
  rewrite <-(take_drop_middle l i x Hi) in Hy.
  rewrite elem_of_app, elem_of_cons in Hy. rewrite elem_of_app.
  destruct Hy as [?|[?|?]]; [by left|done|by right].
Qed.

Lemma canonicalAlive_ext r r' :
  m_canonicalMetaObjectMap r' = m_canonicalMetaObjectMap r →
  m_aliveInstances r' = m_aliveInstances r →
  canonicalAlive r → canonicalAlive r'.
Proof. unfold canonicalAlive, poolOf. by intros -> ->. Qed.

Lemma addSelf_canonicalAlive r obj mo :
  canonicalAlive r → canonicalAlive (addSelf h r obj mo).
Proof.
  intros Hc. unfold addSelf.
  destruct (isDynamic _); [|by apply (canonicalAlive_ext r)].
  intros a c. unfold poolOf; simpl.
  destruct (decide (metaObject h obj = a)) as [<-|Ha].
  - rewrite lookup_insert_eq. intros [= <-]. rewrite lookup_insert_eq; simpl.
    apply elem_of_insertAt. by left.
  - rewrite lookup_insert_ne by done. intros Hac%Hc. unfold poolOf in Hac.
    destruct (decide (mo = c)) as [->|Hne].
    + rewrite lookup_insert_eq; simpl. apply elem_of_insertAt. by right.
    + by rewrite lookup_insert_ne.
Qed.

Lemma removeSelf_canonicalAlive r obj mo :
  canonicalAlive r → canonicalAlive (removeSelf r obj mo).
Proof.
  intros Hc. unfold removeSelf.
  destruct (isDynamic _); [|by apply (canonicalAlive_ext r)].
  intros a c. unfold poolOf; simpl.
  set (gone := default 0%N (m_dynamicMetaObjectMap r !! obj)).
  destruct (decide (gone = a)) as [<-|Ha]; [by rewrite lookup_delete_eq|].
  rewrite lookup_delete_ne by done. intros Hac%Hc. unfold poolOf in Hac.
  destruct (decide (mo = c)) as [->|Hne]; [|by rewrite lookup_insert_ne].
  rewrite lookup_insert_eq; simpl. case_bool_decide as Hfound; [|done].
  eapply elem_of_delete_other; eauto.
Qed.

Lemma run_canonicalAlive evs r : run h evs r → canonicalAlive r.
Proof.
  induction 1 as [|evs r fuel ev r' Hrun IH Hstep].
  { intros a c. simpl. by rewrite lookup_empty. }
  pose proof (run_Inv _ _ _ Hrun) as HI.
  destruct ev as [mo b|obj|obj]; simpl in Hstep.
  - destruct (addMetaObject _ _ _ _ _) as [[c r1]|] eqn:Hadd; [|done].
    injection Hstep as <-. apply addMetaObject_Adds in Hadd.
    destruct (Adds_grows _ _ _ _ _ _ HI Hadd) as (Hg & _).
    destruct (grows_frame _ _ _ _ Hg) as (_ & Ha & _ & Hc).
    by apply (canonicalAlive_ext r).
  - destruct (objectAdded_spec _ _ _ _ _ HI Hstep) as (mo & r1 & _ & Hg & _ & -> & _).
    destruct (grows_frame _ _ _ _ Hg) as (_ & Ha & _ & Hc).
    apply (canonicalAlive_ext (addSelf h r1 obj mo)); [done..|].
    apply addSelf_canonicalAlive. by apply (canonicalAlive_ext r).
  - revert Hstep. rewrite objectRemoved_eq. simpl.
    destruct (_ =? 0)%N; [intros [= <-]; by apply (canonicalAlive_ext r)|].
    destruct (_ =? 0); [intros [= <-]; by apply (canonicalAlive_ext r)|].
    destruct (walk _ _ _); [|done]. intros [= <-].
    eapply canonicalAlive_ext; [| |by apply (removeSelf_canonicalAlive r obj)];
      done.
Qed.

End Canonical.

(** X10: in every registry a sequence of calls leads to,
    [canonicalMetaObject] returns its argument when the canonical map has
    no entry for it, and otherwise the recorded node, which is then a known
    node classified dynamic and not static whose pool of alive instances
    holds the argument; [aliveInstance] of that node is an entry of the
    pool, at most the argument. *)
Theorem X10_canonicalMetaObject (h : Host) (evs : list Event) (r : Registry)
    (a : MO) :
  run h evs r →
  (m_canonicalMetaObjectMap r !! a = None → canonicalMetaObject r a = a) ∧
  (∀ c, m_canonicalMetaObjectMap r !! a = Some c →
        canonicalMetaObject r a = c ∧
        isKnownMetaObject r c = true ∧
        isDynamic (infoOf r c) = true ∧ isStatic (infoOf r c) = false ∧
        a ∈ poolOf r c ∧
        aliveInstance r c ∈ poolOf r c ∧ (aliveInstance r c ≤ a)%N).
Proof.
  intros Hrun. unfold canonicalMetaObject. split; [by intros ->|].
  intros c Hc. rewrite Hc. split; [done|].
  pose proof (run_Inv _ _ _ Hrun) as HI.
  pose proof (run_canonicalAlive _ _ _ Hrun _ _ Hc) as Ha.
  unfold poolOf in *.
  destruct (m_aliveInstances r !! c) as [pool|] eqn:Hpool;
    [|by apply elem_of_nil in Ha].
  simpl in Ha.
  destruct (aliveInstance_spec _ _ _ c Hrun) as (_ & _ & Hspec).
  destruct (Hspec _ Hpool) as (Hd & _ & Hhead & Hmin).
  assert (is_Some (m_metaObjectInfoMap r !! c)) as [i Hi].
  { unfold infoOf in Hd. by destruct (m_metaObjectInfoMap r !! c). }
  assert (known r c) as Hk by (apply (inv_info _ _ HI); by exists i).
  split; [unfold isKnownMetaObject; by apply bool_decide_eq_true|].
  split; [done|]. split.
  { unfold infoOf in *. rewrite Hi in *. simpl in *.
    by apply (inv_flags _ _ HI _ _ Hi). }
  split; [done|]. split; [|by apply Hmin].
  simpl. rewrite Hhead. destruct pool; [by apply elem_of_nil in Ha|].
  simpl. by left.
Qed.

Lemma regScript_two_run :
  run hostScript
    (eventsScript_scanned ++ [EvObjectAdded 10%N; EvObjectAdded 11%N])
    regScript_two.
Proof. apply (runFrom_empty hostScript 8). vm_compute. reflexivity. Defined.

(** X10 on [hostScript]: descriptor 3 of object 11 resolves to node 2. *)
Lemma X10_witness :
  (m_canonicalMetaObjectMap regScript_two !! 3%N = None →
   canonicalMetaObject regScript_two 3%N = 3%N) ∧
  (∀ c, m_canonicalMetaObjectMap regScript_two !! 3%N = Some c →
        canonicalMetaObject regScript_two 3%N = c ∧
        isKnownMetaObject regScript_two c = true ∧
        isDynamic (infoOf regScript_two c) = true ∧
        isStatic (infoOf regScript_two c) = false ∧
        3%N ∈ poolOf regScript_two c ∧
        aliveInstance regScript_two c ∈ poolOf regScript_two c ∧
        (aliveInstance regScript_two c ≤ 3)%N).
Proof.
  apply (X10_canonicalMetaObject hostScript _ regScript_two 3%N
           regScript_two_run).
Defined.

(** ** The pools of alive instances *)

Section PoolContents.
Variable h : Host.
Implicit Types (r : Registry) (m n c p mo obj o d x y : N) (b : bool)
  (l : list N).

Lemma occurrences_app d l1 l2 :
  occurrences d (l1 ++ l2) = (occurrences d l1 + occurrences d l2)%nat.
Proof. unfold occurrences. by rewrite filter_app, length_app. Qed.

Lemma occurrences_cons d x l :
  occurrences d (x :: l)
  = ((if decide (x = d) then 1 else 0) + occurrences d l)%nat.
Proof. unfold occurrences. rewrite filter_cons. by destruct (decide _). Qed.

Lemma occurrences_insertAt d (i : nat) x l :
  occurrences d (insertAt i x l)
  = ((if decide (x = d) then 1 else 0) + occurrences d l)%nat.
Proof.
  unfold insertAt. rewrite occurrences_app, occurrences_cons.
  pose proof (occurrences_app d (take i l) (drop i l)) as Happ.
  rewrite take_drop in Happ. lia.
Qed.

Lemma occurrences_delete d (i : nat) x l :
  l !! i = Some x →
  occurrences d l
  = ((if decide (x = d) then 1 else 0) + occurrences d (delete i l))%nat.
Proof.
  intros Hi. rewrite delete_take_drop, occurrences_app.
  pose proof (f_equal (occurrences d) (take_drop_middle l i x Hi)) as Hmid.
  rewrite occurrences_app, occurrences_cons in Hmid. lia.
Qed.

Lemma occurrences_pos d l : (0 < occurrences d l)%nat ↔ d ∈ l.
Proof.
  unfold occurrences. split.
  - intros Hpos. destruct (filter _ l) as [|y k] eqn:Hf; simpl in Hpos; [lia|].
    assert (y ∈ filter (λ y, y = d) l) as Hy by (rewrite Hf; by left).
    by apply list_elem_of_filter in Hy as [-> ?].
  - intros Hd. assert (d ∈ filter (λ y, y = d) l) as Hy
      by by apply list_elem_of_filter.
    destruct (filter _ l); [by apply elem_of_nil in Hy|simpl; lia].
Qed.

Lemma length_insertAt (i : nat) x l : length (insertAt i x l) = S (length l).
Proof.
  unfold insertAt. rewrite length_app. simpl.
  pose proof (f_equal length (take_drop i l)) as Hlen.
  rewrite length_app in Hlen. lia.
Qed.

Lemma lower_bound_found l x :
  StronglySorted N.le l → x ∈ l → l !! lower_bound l x = Some x.
Proof.
  induction l as [|y l IH]; intros Hs Hx; [by apply elem_of_nil in Hx|].
  simpl. destruct (N.ltb_spec y x) as [Hlt|Hge].
  - simpl. apply IH; [by inversion Hs|].
    apply elem_of_cons in Hx as [->|Hx]; [lia|done].
  - simpl. f_equal. pose proof (sorted_head_min l y x Hs Hx). lia.
Qed.

Lemma poolOf_addSelf r obj mo n :
  poolOf (addSelf h r obj mo) n
  = if decide (isDynamic (infoOf r mo) = true ∧ n = mo)
    then insertAt (lower_bound (poolOf r mo) (metaObject h obj))
           (metaObject h obj) (poolOf r mo)
    else poolOf r n.
Proof.
  unfold addSelf, poolOf.
  change (isDynamic (incSelf (infoOf (set_metaObjectMap <[obj:=mo]> r) mo)))
    with (isDynamic (infoOf r mo)).
  destruct (isDynamic (infoOf r mo)); simpl.
  - destruct (decide (n = mo)) as [->|Hne].
    + rewrite decide_True by done. by rewrite lookup_insert_eq.
    + rewrite decide_False by (by intros [_ ?]). by rewrite lookup_insert_ne.
  - done.
Qed.

Lemma poolOf_removeSelf r obj mo n :
  poolOf (removeSelf r obj mo) n
  = if decide (isDynamic (infoOf r mo) = true ∧ n = mo)
    then let d := default 0%N (m_dynamicMetaObjectMap r !! obj) in
         let i := lower_bound (poolOf r mo) d in
         if bool_decide (poolOf r mo !! i = Some d)
         then delete i (poolOf r mo) else poolOf r mo
    else poolOf r n.
Proof.
  unfold removeSelf, poolOf.
  change (isDynamic (infoOf (set_metaObjectMap (delete obj) r) mo))
    with (isDynamic (infoOf r mo)).
  destruct (isDynamic (infoOf r mo)); simpl.
  - destruct (decide (n = mo)) as [->|Hne].
    + rewrite decide_True by done. by rewrite lookup_insert_eq.
    + rewrite decide_False by (by intros [_ ?]). by rewrite lookup_insert_ne.
  - done.
Qed.

Lemma addSelf_dynamicMap r obj mo :
  m_dynamicMetaObjectMap (addSelf h r obj mo)
  = if isDynamic (infoOf r mo)
    then <[obj := metaObject h obj]> (m_dynamicMetaObjectMap r)
    else m_dynamicMetaObjectMap r.
Proof.
  unfold addSelf.
  change (isDynamic (incSelf (infoOf (set_metaObjectMap <[obj:=mo]> r) mo)))
    with (isDynamic (infoOf r mo)).
  by destruct (isDynamic (infoOf r mo)).
Qed.

Lemma removeSelf_dynamicMap r obj mo :
  m_dynamicMetaObjectMap (removeSelf r obj mo)
  = if isDynamic (infoOf r mo)
    then delete obj (m_dynamicMetaObjectMap r)
    else m_dynamicMetaObjectMap r.
Proof.
  unfold removeSelf.
  change (isDynamic (infoOf (set_metaObjectMap (delete obj) r) mo))
    with (isDynamic (infoOf r mo)).
  by destruct (isDynamic (infoOf r mo)).
Qed.

End PoolContents.

Section PoolInvariant.
Variable h : Host.
Implicit Types (r : Registry) (m n c p mo obj o d x y : N) (b : bool)
  (l : list N).

Lemma dynamic_known r n : Inv h r → isDynamic (infoOf r n) = true → known r n.
Proof.
  intros HI Hd. apply (inv_info _ _ HI). unfold infoOf in Hd.
  by destruct (m_metaObjectInfoMap r !! n).
Qed.

Lemma poolOf_not_dynamic r n :
  Inv h r → isDynamic (infoOf r n) ≠ true → poolOf r n = [].
Proof.
  intros HI Hd. unfold poolOf.
  destruct (m_aliveInstances r !! n) as [pool|] eqn:Hpool; [|done].
  by destruct (inv_pools _ _ HI _ _ Hpool) as [_ ?].
Qed.

Lemma poolOf_sorted r n : Inv h r → StronglySorted N.le (poolOf r n).
Proof.
  intros HI. unfold poolOf.
  destruct (m_aliveInstances r !! n) as [pool|] eqn:Hpool; [|constructor].
  by destruct (inv_pools _ _ HI _ _ Hpool) as [? _].
Qed.

Lemma trackedAs_unknown r n d : Inv h r → ¬ known r n → trackedAs h r n d = 0%nat.
Proof.
  intros HI Hk. unfold trackedAs. apply map_size_empty_iff.
  apply map_empty_filter_2. intros o m Ho [Hm _]. simpl in Hm. subst m.
  by apply Hk, (inv_objs _ _ HI o).
Qed.

Lemma isDynamic_addSelf r obj mo n :
  isDynamic (infoOf (addSelf h r obj mo) n) = isDynamic (infoOf r n).
Proof. rewrite infoOf_addSelf. by destruct (decide _). Qed.

Lemma isDynamic_removeSelf r obj mo n :
  isDynamic (infoOf (removeSelf r obj mo) n) = isDynamic (infoOf r n).
Proof. rewrite infoOf_removeSelf. by destruct (decide _). Qed.

Lemma occurrences_addSelf r obj mo n d :
  occurrences d (poolOf (addSelf h r obj mo) n)
  = ((if decide (isDynamic (infoOf r mo) = true ∧ n = mo ∧ metaObject h obj = d)
      then 1 else 0) + occurrences d (poolOf r n))%nat.
Proof.
  rewrite poolOf_addSelf.
  destruct (decide (isDynamic (infoOf r mo) = true ∧ n = mo)) as [[Hd ->]|Hno].
  - rewrite occurrences_insertAt.
    destruct (decide (metaObject h obj = d)) as [Hx|Hx].
    + by rewrite decide_True.
    + by rewrite decide_False by (by intros (_ & _ & ?)).
  - by rewrite decide_False by (intros (? & ? & _); by apply Hno).
Qed.

Lemma trackedAs_addSelf_le r obj mo n d :
  (trackedAs h (addSelf h r obj mo) n d
   ≤ (if decide (mo = n ∧ metaObject h obj = d) then 1 else 0)
     + trackedAs h r n d)%nat.
Proof.
  unfold trackedAs. rewrite addSelf_metaObjectMap.
  pose proof (size_filter_insert_le
    (λ om : N * N, om.2 = n ∧ metaObject h om.1 = d) (m_metaObjectMap r) obj mo)
    as Hle.
  simpl in Hle. lia.
Qed.

Lemma trackedAs_addSelf_fresh r obj mo n d :
  m_metaObjectMap r !! obj = None →
  trackedAs h (addSelf h r obj mo) n d
  = ((if decide (mo = n ∧ metaObject h obj = d) then 1 else 0)
     + trackedAs h r n d)%nat.
Proof.
  intros Hfresh. unfold trackedAs. rewrite addSelf_metaObjectMap.
  rewrite size_filter_insert by done. simpl. by destruct (decide _).
Qed.

Lemma trackedAs_removeSelf r obj mo n d :
  m_metaObjectMap r !! obj = Some mo →
  trackedAs h r n d
  = ((if decide (mo = n ∧ metaObject h obj = d) then 1 else 0)
     + trackedAs h (removeSelf r obj mo) n d)%nat.
Proof.
  intros Hobj. unfold trackedAs. rewrite removeSelf_metaObjectMap.
  rewrite (size_filter_delete _ _ obj mo Hobj). simpl. by destruct (decide _).
Qed.

(** The descriptor of a tracked object of a dynamic node is found in the
    pool of the node. *)
Lemma tracked_found r obj mo :
  Inv h r → Pooled h r → m_metaObjectMap r !! obj = Some mo →
  isDynamic (infoOf r mo) = true →
  let d := default 0%N (m_dynamicMetaObjectMap r !! obj) in
  d = metaObject h obj ∧
  poolOf r mo !! lower_bound (poolOf r mo) d = Some d.
Proof.
  intros HI HP Hobj Hd. simpl.
  rewrite (pooled_dyn _ _ HP _ _ Hobj Hd). simpl. split; [done|].
  apply lower_bound_found; [by apply poolOf_sorted|].
  apply occurrences_pos.
  pose proof (pooled_le _ _ HP mo (metaObject h obj) Hd) as Hle.
  pose proof (trackedAs_removeSelf r obj mo mo (metaObject h obj) Hobj) as Ht.
  rewrite decide_True in Ht by done. lia.
Qed.

Lemma occurrences_removeSelf r obj mo n d :
  Inv h r → Pooled h r → m_metaObjectMap r !! obj = Some mo →
  occurrences d (poolOf r n)
  = ((if decide (isDynamic (infoOf r mo) = true ∧ n = mo ∧ metaObject h obj = d)
      then 1 else 0) + occurrences d (poolOf (removeSelf r obj mo) n))%nat.
Proof.
  intros HI HP Hobj. rewrite poolOf_removeSelf.
  destruct (decide (isDynamic (infoOf r mo) = true ∧ n = mo)) as [[Hd ->]|Hno].
  - destruct (tracked_found r obj mo HI HP Hobj Hd) as [Heq Hfound].
    simpl. rewrite bool_decide_eq_true_2 by done.
    rewrite (occurrences_delete d _ _ _ Hfound), Heq.
    destruct (decide (metaObject h obj = d)) as [Hx|Hx].
    + by rewrite decide_True.
    + by rewrite decide_False by (by intros (_ & _ & ?)).
  - by rewrite decide_False by (intros (? & ? & _); by apply Hno).
Qed.

End PoolInvariant.

Section PoolRuns.
Variable h : Host.
Implicit Types (r : Registry) (m n c p mo obj o d x y : N) (b : bool)
  (l : list N).

Lemma Pooled_ext r r' :
  m_metaObjectMap r' = m_metaObjectMap r →
  m_aliveInstances r' = m_aliveInstances r →
  m_dynamicMetaObjectMap r' = m_dynamicMetaObjectMap r →
  (∀ n, isDynamic (infoOf r' n) = isDynamic (infoOf r n)) →
  (∀ n, selfAliveCount (infoOf r' n) = selfAliveCount (infoOf r n)) →
  Pooled h r → Pooled h r'.
Proof.
  intros Ho Ha Hdm Hd Hs HP.
  split; unfold trackedAs, poolOf; rewrite ?Ho, ?Ha, ?Hdm; intros *;
    rewrite ?Hd, ?Hs; apply HP.
Qed.

Lemma PooledExact_ext r r' :
  m_metaObjectMap r' = m_metaObjectMap r →
  m_aliveInstances r' = m_aliveInstances r →
  (∀ n, isDynamic (infoOf r' n) = isDynamic (infoOf r n)) →
  PooledExact h r → PooledExact h r'.
Proof.
  intros Ho Ha Hd HP n d. unfold trackedAs, poolOf. rewrite Ho, Ha, Hd.
  apply HP.
Qed.

Lemma grows_pools b r r1 n :
  Inv h r → grows h b r r1 →
  poolOf r1 n = poolOf r n ∧
  (∀ d, trackedAs h r1 n d = trackedAs h r n d) ∧
  (known r n → infoOf r1 n = infoOf r n) ∧
  (¬ known r n → poolOf r n = [] ∧ (∀ d, trackedAs h r n d = 0%nat) ∧
                 selfAliveCount (infoOf r1 n) = 0).
Proof.
  intros HI Hg. destruct (grows_frame _ _ _ _ Hg) as (Ho & Ha & _ & _).
  unfold poolOf, trackedAs. rewrite Ho, Ha. repeat split.
  - by apply (grows_known_info h b).
  - apply poolOf_not_dynamic with (h := h); [done|].
    intros Hd. by apply H, (dynamic_known h).
  - intros d. by apply trackedAs_unknown.
  - destruct (grows_infoOf _ _ _ _ n HI Hg) as (name & st & dy & ->). simpl.
    unfold infoOf. destruct (m_metaObjectInfoMap r !! n) eqn:Hi; [|done].
    exfalso. apply H, (inv_info _ _ HI). by eexists.
Qed.

Lemma grows_Pooled b r r1 : Inv h r → grows h b r r1 → Pooled h r → Pooled h r1.
Proof.
  intros HI Hg HP. destruct (grows_frame _ _ _ _ Hg) as (Ho & Ha & Hdm & _).
  split.
  - intros o n Hon Hd. rewrite Ho in Hon. rewrite Hdm.
    destruct (grows_pools b r r1 n HI Hg) as (_ & _ & Hk & _).
    rewrite Hk in Hd by by eapply inv_objs. by apply (pooled_dyn _ _ HP o n).
  - intros n d Hd. destruct (grows_pools b r r1 n HI Hg) as (-> & -> & Hk & Hu).
    destruct (decide (known r n)) as [Hkn|Hkn].
    + rewrite Hk in Hd by done. by apply HP.
    + destruct (Hu Hkn) as (_ & -> & _). lia.
  - intros n Hd. destruct (grows_pools b r r1 n HI Hg) as (-> & _ & Hk & Hu).
    destruct (decide (known r n)) as [Hkn|Hkn].
    + rewrite Hk in * by done. by apply HP.
    + destruct (Hu Hkn) as (-> & _ & ->). done.
  - intros n. destruct (grows_pools b r r1 n HI Hg) as (-> & _). apply HP.
Qed.

Lemma grows_PooledExact b r r1 :
  Inv h r → grows h b r r1 → PooledExact h r → PooledExact h r1.
Proof.
  intros HI Hg HP n d Hd.
  destruct (grows_pools b r r1 n HI Hg) as (-> & -> & Hk & Hu).
  destruct (decide (known r n)) as [Hkn|Hkn].
  - rewrite Hk in Hd by done. by apply HP.
  - destruct (Hu Hkn) as (-> & -> & _). done.
Qed.

Lemma addSelf_Pooled r obj mo :
  metaObject h obj ≠ 0%N → Pooled h r → Pooled h (addSelf h r obj mo).
Proof.
  intros Hnn HP. split.
  - intros o n. rewrite addSelf_metaObjectMap, isDynamic_addSelf, addSelf_dynamicMap.
    destruct (decide (o = obj)) as [->|Hne].
    + rewrite lookup_insert_eq. intros [= <-] ->. by rewrite lookup_insert_eq.
    + rewrite lookup_insert_ne by done. intros Hon Hd.
      pose proof (pooled_dyn _ _ HP _ _ Hon Hd) as Hdyn.
      destruct (isDynamic (infoOf r mo)); [by rewrite lookup_insert_ne|done].
  - intros n d. rewrite isDynamic_addSelf. intros Hd.
    pose proof (pooled_le _ _ HP n d Hd) as Hle.
    pose proof (trackedAs_addSelf_le h r obj mo n d) as Ht.
    rewrite occurrences_addSelf.
    destruct (decide (mo = n ∧ metaObject h obj = d)) as [[-> Hx]|Hno].
    + rewrite decide_True by done. lia.
    + lia.
  - intros n. rewrite isDynamic_addSelf. intros Hd.
    pose proof (pooled_len _ _ HP n Hd) as Hlen.
    rewrite infoOf_addSelf, poolOf_addSelf.
    destruct (decide (n = mo)) as [->|Hne].
    + rewrite decide_True by done. rewrite length_insertAt. simpl. lia.
    + by rewrite decide_False by (by intros [_ ?]).
  - intros n. rewrite poolOf_addSelf. destruct (decide _); [|apply HP].
    rewrite elem_of_insertAt. intros [?|?]; [done|]. by eapply pooled_nonnull.
Qed.

Lemma addSelf_PooledExact r obj mo :
  m_metaObjectMap r !! obj = None →
  PooledExact h r → PooledExact h (addSelf h r obj mo).
Proof.
  intros Hfresh HP n d. rewrite isDynamic_addSelf. intros Hd.
  rewrite occurrences_addSelf, trackedAs_addSelf_fresh by done.
  rewrite (HP n d Hd).
  destruct (decide (mo = n ∧ metaObject h obj = d)) as [[-> Hx]|Hno].
  - by rewrite decide_True.
  - rewrite decide_False; [done|]. intros (_ & -> & ?). by apply Hno.
Qed.

Lemma removeSelf_Pooled r obj mo :
  Inv h r → m_metaObjectMap r !! obj = Some mo →
  Pooled h r → Pooled h (removeSelf r obj mo).
Proof.
  intros HI Hobj HP. split.
  - intros o n. rewrite removeSelf_metaObjectMap, isDynamic_removeSelf,
      removeSelf_dynamicMap.
    destruct (decide (o = obj)) as [->|Hne]; [by rewrite lookup_delete_eq|].
    rewrite lookup_delete_ne by done. intros Hon Hd.
    pose proof (pooled_dyn _ _ HP _ _ Hon Hd) as Hdyn.
    destruct (isDynamic (infoOf r mo)); [by rewrite lookup_delete_ne|done].
  - intros n d. rewrite isDynamic_removeSelf. intros Hd.
    pose proof (pooled_le _ _ HP n d Hd) as Hle.
    pose proof (trackedAs_removeSelf h r obj mo n d Hobj) as Ht.
    pose proof (occurrences_removeSelf h r obj mo n d HI HP Hobj) as Ho.
    destruct (decide (mo = n ∧ metaObject h obj = d)) as [[-> Hx]|Hno].
    + rewrite decide_True in Ho by done. lia.
    + rewrite decide_False in Ho; [lia|]. intros (_ & -> & ?). by apply Hno.
  - intros n. rewrite isDynamic_removeSelf. intros Hd.
    pose proof (pooled_len _ _ HP n Hd) as Hlen.
    rewrite infoOf_removeSelf, poolOf_removeSelf.
    destruct (decide (n = mo)) as [->|Hne].
    + rewrite decide_True by done.
      destruct (tracked_found h r obj mo HI HP Hobj Hd) as [_ Hfound].
      simpl in *. rewrite bool_decide_eq_true_2 by done.
      rewrite length_delete by by eexists.
      apply lookup_lt_Some in Hfound. lia.
    + by rewrite decide_False by (by intros [_ ?]).
  - intros n. rewrite poolOf_removeSelf. destruct (decide _); [|apply HP].
    simpl. case_bool_decide; [|apply HP].
    intros ?%list_elem_of_delete_inv. by eapply pooled_nonnull.
Qed.

Lemma removeSelf_PooledExact r obj mo :
  Inv h r → m_metaObjectMap r !! obj = Some mo → Pooled h r →
  PooledExact h r → PooledExact h (removeSelf r obj mo).
Proof.
  intros HI Hobj HP HE n d. rewrite isDynamic_removeSelf. intros Hd.
  pose proof (HE n d Hd) as Heq.
  pose proof (trackedAs_removeSelf h r obj mo n d Hobj) as Ht.
  pose proof (occurrences_removeSelf h r obj mo n d HI HP Hobj) as Ho.
  destruct (decide (mo = n ∧ metaObject h obj = d)) as [[-> Hx]|Hno].
  - rewrite decide_True in Ho by done. lia.
  - rewrite decide_False in Ho; [lia|]. intros (_ & -> & ?). by apply Hno.
Qed.

End PoolRuns.

Section PoolSteps.
Variable h : Host.
Implicit Types (r : Registry) (m n c p mo obj o d x y : N) (b : bool)
  (l : list N).

Lemma Adds_nonnull b r mo c r' : Inv h r → Adds h b r mo c r' → mo ≠ 0%N.
Proof.
  intros HI HA. inversion HA; subst; [|done..].
  intros ->. destruct H as [? Hk].
  by rewrite (forest_null _ (inv_forest _ _ HI)) in Hk.
Qed.

Lemma afterLoop_Pooled f r l :
  (∀ i, isDynamic (f i) = isDynamic i) →
  (∀ i, selfAliveCount (f i) = selfAliveCount i) →
  Pooled h r → Pooled h (afterLoop f r l).
Proof.
  intros Hd Hs. apply Pooled_ext; try done.
  - intros n. by apply (afterLoop_field isDynamic).
  - intros n. by apply (afterLoop_field selfAliveCount).
Qed.

Lemma afterLoop_PooledExact f r l :
  (∀ i, isDynamic (f i) = isDynamic i) →
  PooledExact h r → PooledExact h (afterLoop f r l).
Proof.
  intros Hd. apply PooledExact_ext; try done.
  intros n. by apply (afterLoop_field isDynamic).
Qed.

Lemma Pooled_empty : Pooled h emptyRegistry.
Proof.
  split; unfold poolOf, trackedAs; simpl.
  - intros o n. by rewrite lookup_empty.
  - intros n d. unfold infoOf. simpl. by rewrite lookup_empty.
  - intros n. unfold infoOf. simpl. by rewrite lookup_empty.
  - intros n. rewrite lookup_empty. simpl. apply not_elem_of_nil.
Qed.

Lemma run_Pooled evs r : run h evs r → Pooled h r.
Proof.
  induction 1 as [|evs r fuel ev r' Hrun IH Hstep]; [apply Pooled_empty|].
  pose proof (run_Inv _ _ _ Hrun) as HI.
  destruct ev as [mo b|obj|obj]; simpl in Hstep.
  - destruct (addMetaObject _ _ _ _ _) as [[c r1]|] eqn:Hadd; [|done].
    injection Hstep as <-. apply addMetaObject_Adds in Hadd.
    destruct (Adds_grows _ _ _ _ _ _ HI Hadd) as (Hg & _).
    by apply (grows_Pooled h b r).
  - destruct (objectAdded_spec _ _ _ _ _ HI Hstep)
      as (mo & r1 & HA & Hg & _ & -> & _).
    apply afterLoop_Pooled; [done..|].
    apply addSelf_Pooled; [by eapply Adds_nonnull|].
    by apply (grows_Pooled h _ r r1 HI Hg).
  - destruct (m_metaObjectMap r !! obj) as [mo|] eqn:Hobj.
    + pose proof (tracked_is_counted _ _ _ _ _ Hrun Hobj) as Hpos.
      destruct (objectRemoved_spec h fuel r obj mo r' HI Hobj) as (_ & _ & -> & _);
        [lia|done|].
      apply afterLoop_Pooled; [done..|]. by apply removeSelf_Pooled.
    + rewrite objectRemoved_untracked in Hstep by done. by injection Hstep as <-.
Qed.

Lemma run_PooledExact evs r : run h evs r → wellOrdered evs → PooledExact h r.
Proof.
  induction 1 as [|evs r fuel ev r' Hrun IH Hstep]; intros Hw.
  { intros n d. unfold infoOf. simpl. by rewrite lookup_empty. }
  specialize (IH (wellOrdered_prefix _ _ Hw)).
  pose proof (run_Inv _ _ _ Hrun) as HI.
  destruct (run_Counts _ _ _ Hrun (wellOrdered_prefix _ _ Hw)) as [_ Hdom].
  pose proof (Hw evs ev [] eq_refl) as Hev.
  destruct ev as [mo b|obj|obj]; simpl in Hstep, Hev.
  - destruct (addMetaObject _ _ _ _ _) as [[c r1]|] eqn:Hadd; [|done].
    injection Hstep as <-. apply addMetaObject_Adds in Hadd.
    destruct (Adds_grows _ _ _ _ _ _ HI Hadd) as (Hg & _).
    by apply (grows_PooledExact h b r).
  - rewrite <-Hdom in Hev. apply not_elem_of_dom in Hev.
    destruct (objectAdded_spec _ _ _ _ _ HI Hstep)
      as (mo & r1 & HA & Hg & _ & -> & _).
    apply afterLoop_PooledExact; [done|].
    apply addSelf_PooledExact.
    + destruct (grows_frame _ _ _ _ Hg) as (-> & _). done.
    + by apply (grows_PooledExact h _ r r1 HI Hg).
  - rewrite <-Hdom in Hev. apply elem_of_dom in Hev as [mo Hobj].
    pose proof (tracked_is_counted _ _ _ _ _ Hrun Hobj) as Hpos.
    destruct (objectRemoved_spec h fuel r obj mo r' HI Hobj) as (_ & _ & -> & _);
      [lia|done|].
    apply afterLoop_PooledExact; [done|].
    apply removeSelf_PooledExact; [done..| |done]. by eapply run_Pooled.
Qed.

End PoolSteps.

Lemma trackedAs_pos (h : Host) (r : Registry) (n d : MO) :
  (0 < trackedAs h r n d)%nat ↔
  ∃ o, m_metaObjectMap r !! o = Some n ∧ metaObject h o = d.
Proof.
  unfold trackedAs. split.
  - intros Hpos.
    destruct (map_choose (filter (λ om : N * N, om.2 = n ∧ metaObject h om.1 = d)
                            (m_metaObjectMap r))) as (o & m & Hom).
    { intros Hempty. rewrite Hempty, map_size_empty in Hpos. lia. }
    apply map_lookup_filter_Some in Hom as (Hom & Hm & Hd). simpl in *.
    subst m. by exists o.
  - intros (o & Ho & Hd).
    rewrite (size_filter_delete _ _ o n Ho). simpl.
    rewrite decide_True by done. lia.
Qed.

(** X11: after any sequence of calls no pool of alive instances holds
    [nullptr], so [aliveInstance] returns [nullptr] only for [nullptr] and
    for a node whose pool exists and is empty.  The pool of a node
    classified dynamic has [selfAliveCount] entries; for every tracked
    object of such a node the dynamic map records its descriptor, the pool
    holds it, and [aliveInstance] of the node is not [nullptr] and at most
    that descriptor. *)
Theorem X11_pool_of_dynamic_node (h : Host) (evs : list Event) (r : Registry)
    (n : MO) :
  run h evs r →
  (aliveInstance r n = 0%N ↔ n = 0%N ∨ m_aliveInstances r !! n = Some []) ∧
  (isDynamic (infoOf r n) = true →
   selfAliveCount (infoOf r n) = Z.of_nat (length (poolOf r n)) ∧
   ∀ o, m_metaObjectMap r !! o = Some n →
        m_dynamicMetaObjectMap r !! o = Some (metaObject h o) ∧
        metaObject h o ∈ poolOf r n ∧
        aliveInstance r n ≠ 0%N ∧ (aliveInstance r n ≤ metaObject h o)%N).
Proof.
  intros Hrun. pose proof (run_Inv _ _ _ Hrun) as HI.
  pose proof (run_Pooled _ _ _ Hrun) as HP.
  pose proof (pooled_nonnull _ _ HP n) as Hnn.
  pose proof (poolOf_sorted h r n HI) as Hsorted.
  assert (n = 0%N → m_aliveInstances r !! n = None) as Hnull.
  { intros ->. destruct (m_aliveInstances r !! 0%N) as [pool|] eqn:Hpool; [|done].
    destruct (inv_pools _ _ HI _ _ Hpool) as [_ Hd].
    destruct (dynamic_known h r 0%N HI Hd) as [? Hk].
    by rewrite (forest_null _ (inv_forest _ _ HI)) in Hk. }
  unfold aliveInstance, poolOf in *. split.
  - destruct (m_aliveInstances r !! n) as [[|x pool]|]; simpl in *.
    + split; [by right|done].
    + split.
      * intros ->. exfalso. apply Hnn. by left.
      * by intros [?%Hnull|?].
    + split; [by left|]. by intros [?|?].
  - intros Hd. split; [by apply (pooled_len _ _ HP n)|].
    intros o Ho. split; [by apply (pooled_dyn _ _ HP o n)|].
    assert (metaObject h o ∈ poolOf r n) as Hin.
    { apply occurrences_pos.
      pose proof (pooled_le _ _ HP n (metaObject h o) Hd) as Hle.
      assert (0 < trackedAs h r n (metaObject h o))%nat
        by (apply trackedAs_pos; by exists o).
      lia. }
    unfold poolOf in Hin. split; [done|].
    destruct (m_aliveInstances r !! n) as [[|x pool]|]; simpl in *;
      try by apply elem_of_nil in Hin.
    split; [|by eapply sorted_head_min].
    intros ->. apply Hnn. by left.
Qed.

(** X11 on [hostScript]: node 2 with the objects 10 and 11. *)
Lemma X11_witness :
  (aliveInstance regScript_two 2%N = 0%N ↔
   2%N = 0%N ∨ m_aliveInstances regScript_two !! 2%N = Some []) ∧
  (isDynamic (infoOf regScript_two 2%N) = true →
   selfAliveCount (infoOf regScript_two 2%N)
   = Z.of_nat (length (poolOf regScript_two 2%N)) ∧
   ∀ o, m_metaObjectMap regScript_two !! o = Some 2%N →
        m_dynamicMetaObjectMap regScript_two !! o
        = Some (metaObject hostScript o) ∧
        metaObject hostScript o ∈ poolOf regScript_two 2%N ∧
        aliveInstance regScript_two 2%N ≠ 0%N ∧
        (aliveInstance regScript_two 2%N ≤ metaObject hostScript o)%N).
Proof.
  apply (X11_pool_of_dynamic_node hostScript _ regScript_two 2%N
           regScript_two_run).
Defined.

(** X12: when every object is added while not alive and removed while
    alive, the pool of a node classified dynamic holds exactly the
    descriptors of the objects tracked under the node, each as often as
    objects have it.  Once the node has a pool, [aliveInstance] returns
    [nullptr] exactly when no object is tracked under the node, which is
    when [selfAliveCount] is zero, and otherwise the descriptor of an object
    tracked under the node. *)
Theorem X12_pool_holds_tracked_descriptors (h : Host) (evs : list Event)
    (r : Registry) (n : MO) :
  run h evs r → wellOrdered evs → isDynamic (infoOf r n) = true →
  (∀ d, occurrences d (poolOf r n) = trackedAs h r n d) ∧
  (∀ d, d ∈ poolOf r n ↔
        ∃ o, m_metaObjectMap r !! o = Some n ∧ metaObject h o = d) ∧
  (m_aliveInstances r !! n ≠ None →
   (aliveInstance r n = 0%N ↔ ∀ o, m_metaObjectMap r !! o ≠ Some n) ∧
   (aliveInstance r n = 0%N ↔ selfAliveCount (infoOf r n) = 0) ∧
   (aliveInstance r n ≠ 0%N →
    ∃ o, m_metaObjectMap r !! o = Some n ∧ metaObject h o = aliveInstance r n)).
Proof.
  intros Hrun Hw Hd.
  pose proof (run_PooledExact _ _ _ Hrun Hw) as HE.
  pose proof (run_Pooled _ _ _ Hrun) as HP.
  assert (∀ d, d ∈ poolOf r n ↔
               ∃ o, m_metaObjectMap r !! o = Some n ∧ metaObject h o = d) as Hin.
  { intros d. by rewrite <-occurrences_pos, (HE n d Hd), trackedAs_pos. }
  split; [intros d; by apply HE|]. split; [done|].
  intros Hpool. pose proof (pooled_len _ _ HP n Hd) as Hlen.
  pose proof (pooled_nonnull _ _ HP n) as Hnn.
  unfold aliveInstance, poolOf in *.
  destruct (m_aliveInstances r !! n) as [[|x pool]|]; simpl in *; [| |done].
  - split; [|done]. split; [|done]. intros _ o Ho.
    apply (not_elem_of_nil (metaObject h o)), Hin. by exists o.
  - assert (x ≠ 0%N) as Hx by (intros ->; apply Hnn; by left).
    split; [|split].
    + split; [done|]. intros Hnone. destruct (proj1 (Hin x)) as (o & Ho & _);
        [by left|]. by destruct (Hnone o).
    + split; [done|lia].
    + intros _. apply Hin. by left.
Qed.

(** X12 on [hostScript]: node 2 with the objects 10 and 11. *)
Lemma X12_witness :
  (∀ d, occurrences d (poolOf regScript_two 2%N)
        = trackedAs hostScript regScript_two 2%N d) ∧
  (∀ d, d ∈ poolOf regScript_two 2%N ↔
        ∃ o, m_metaObjectMap regScript_two !! o = Some 2%N ∧
             metaObject hostScript o = d) ∧
  (m_aliveInstances regScript_two !! 2%N ≠ None →
   (aliveInstance regScript_two 2%N = 0%N ↔
    ∀ o, m_metaObjectMap regScript_two !! o ≠ Some 2%N) ∧
   (aliveInstance regScript_two 2%N = 0%N ↔
    selfAliveCount (infoOf regScript_two 2%N) = 0) ∧
   (aliveInstance regScript_two 2%N ≠ 0%N →
    ∃ o, m_metaObjectMap regScript_two !! o = Some 2%N ∧
         metaObject hostScript o = aliveInstance regScript_two 2%N)).
Proof.
  apply (X12_pool_holds_tracked_descriptors hostScript _ regScript_two 2%N
           regScript_two_run);
    [apply orderedFrom_wellOrdered; vm_compute; reflexivity
    |vm_compute; reflexivity].
Defined.

(** ** An object added and removed again *)

Section RoundTrip.
Variable h : Host.
Implicit Types (r : Registry) (m n c p mo obj o d x y : N) (b : bool)
  (l : list N).

Lemma insertAt_cons_S (i : nat) d y l :
  insertAt (S i) d (y :: l) = y :: insertAt i d l.
Proof. done. Qed.

(** [std::lower_bound] finds again what was inserted at the position it
    gave, and erasing it there restores the pool. *)
Lemma lower_bound_insertAt l d :
  lower_bound (insertAt (lower_bound l d) d l) d = lower_bound l d ∧
  insertAt (lower_bound l d) d l !! lower_bound l d = Some d ∧
  delete (lower_bound l d) (insertAt (lower_bound l d) d l) = l.
Proof.
  induction l as [|y l (IH1 & IH2 & IH3)]; simpl.
  - unfold insertAt. simpl. by rewrite N.ltb_irrefl.
  - destruct (y <? d)%N eqn:Hlt.
    + rewrite insertAt_cons_S. simpl. rewrite Hlt, IH1. simpl.
      split; [done|]. split; [done|]. by rewrite IH3.
    + unfold insertAt. simpl. by rewrite N.ltb_irrefl.
Qed.

Lemma poolOf_afterLoop f r l n : poolOf (afterLoop f r l) n = poolOf r n.
Proof. done. Qed.

Lemma poolOf_add_remove r obj mo l n :
  poolOf (removeSelf (afterLoop incInclusive (addSelf h r obj mo) l) obj mo) n
  = poolOf r n.
Proof.
  rewrite poolOf_removeSelf. simpl.
  rewrite (afterLoop_field isDynamic) by done.
  rewrite isDynamic_addSelf, !poolOf_afterLoop, !poolOf_addSelf, addSelf_dynamicMap.
  destruct (decide (isDynamic (infoOf r mo) = true ∧ n = mo)) as [[Hd ->]|Hno];
    [|done].
  rewrite decide_True by done. rewrite Hd, lookup_insert_eq. simpl.
  destruct (lower_bound_insertAt (poolOf r mo) (metaObject h obj))
    as (-> & Hfound & Hdel).
  by rewrite bool_decide_eq_true_2.
Qed.

End RoundTrip.

(** X13: an object added and then removed, after any sequence of calls.
    The object is tracked in between and not afterwards, every other
    tracked object stays; every pool of alive instances and both alive
    counters of every node are as before the two calls; [selfCount] of the
    object's node and [inclusiveCount] of that node and its ancestors are
    one higher, the creation counters of the other nodes unchanged.  The
    node, when classified dynamic, has a pool from then on. *)
Theorem X13_added_then_removed (h : Host) (evs : list Event)
    (r r' r'' : Registry) (fuel1 fuel2 : nat) (obj : Obj) :
  run h evs r →
  objectAdded h fuel1 r obj = Some r' →
  objectRemoved fuel2 r' obj = Some r'' →
  ∃ mo, m_metaObjectMap r' !! obj = Some mo ∧
        m_metaObjectMap r'' = delete obj (m_metaObjectMap r) ∧
        (∀ n, poolOf r'' n = poolOf r n) ∧
        (∀ n, selfAliveCount (infoOf r'' n) = selfAliveCount (infoOf r n) ∧
              inclusiveAliveCount (infoOf r'' n)
              = inclusiveAliveCount (infoOf r n) ∧
              selfCount (infoOf r'' n)
              = selfCount (infoOf r n) + (if decide (n = mo) then 1 else 0) ∧
              inclusiveCount (infoOf r'' n)
              = inclusiveCount (infoOf r n)
                + (if decide (n ∈ lineage r'' mo) then 1 else 0)) ∧
        (isDynamic (infoOf r'' mo) = true →
         m_aliveInstances r'' !! mo = Some (poolOf r mo)).
Proof.
  intros Hrun Hadd Hrem.
  pose proof (run_Inv _ _ _ Hrun) as HI.
  assert (run h (evs ++ [EvObjectAdded obj]) r') as Hrun'
    by (by eapply run_snoc).
  pose proof (run_Inv _ _ _ Hrun') as HI'.
  destruct (objectAdded_spec _ _ _ _ _ HI Hadd)
    as (mo & r1 & HA & Hg & Hk & Hr' & Hlin & Hnd).
  assert (m_metaObjectMap r' !! obj = Some mo) as Hobj.
  { rewrite Hr'. simpl. by rewrite addSelf_metaObjectMap, lookup_insert_eq. }
  pose proof (tracked_is_counted _ _ _ _ _ Hrun' Hobj) as Hpos.
  destruct (objectRemoved_spec h fuel2 r' obj mo r'' HI' Hobj)
    as (_ & _ & Hr'' & Hnd'); [lia|done|].
  destruct (grows_frame _ _ _ _ Hg) as (Ho & Ha & _ & _).
  assert (lineage r'' mo = lineage r1 mo) as Hlin''.
  { rewrite <-Hlin. apply lineage_ext. rewrite Hr''. simpl.
    by rewrite removeSelf_childParentMap. }
  assert (∀ n, poolOf r'' n = poolOf r n) as Hpools.
  { intros n. rewrite Hr'', poolOf_afterLoop, Hr', poolOf_add_remove.
    unfold poolOf. by rewrite Ha. }
  exists mo. split; [done|]. split; [|split; [done|split]].
  - rewrite Hr''. simpl. rewrite removeSelf_metaObjectMap, Hr'. simpl.
    by rewrite addSelf_metaObjectMap, delete_insert_eq, Ho.
  - intros n. rewrite Hlin''.
    destruct (grows_infoOf _ _ _ _ n HI Hg) as (name & st & dy & Hinfo).
    rewrite Hr'', Hlin, infoOf_afterLoop, infoOf_removeSelf by done.
    rewrite Hr', infoOf_afterLoop, infoOf_addSelf, Hinfo by done.
    destruct (decide (n ∈ lineage r1 mo)), (decide (n = mo)); simpl;
      repeat split; lia.
  - intros Hd. rewrite Hr'' in Hd |- *. simpl.
    rewrite (afterLoop_field isDynamic), isDynamic_removeSelf in Hd by done.
    rewrite <-(Hpools mo), Hr''. unfold poolOf, removeSelf. simpl.
    change (isDynamic (infoOf (set_metaObjectMap (delete obj) r') mo))
      with (isDynamic (infoOf r' mo)).
    rewrite Hd. simpl. by rewrite lookup_insert_eq.
Qed.

(** X13 on [hostScript]: object 10 added after the scan and removed. *)
Lemma X13_witness :
  ∃ mo, m_metaObjectMap regScript_one !! 10%N = Some mo ∧
        m_metaObjectMap regScript_gone
        = delete 10%N (m_metaObjectMap regScript_scanned) ∧
        (∀ n, poolOf regScript_gone n = poolOf regScript_scanned n) ∧
        (∀ n, selfAliveCount (infoOf regScript_gone n)
              = selfAliveCount (infoOf regScript_scanned n) ∧
              inclusiveAliveCount (infoOf regScript_gone n)
              = inclusiveAliveCount (infoOf regScript_scanned n) ∧
              selfCount (infoOf regScript_gone n)
              = selfCount (infoOf regScript_scanned n)
                + (if decide (n = mo) then 1 else 0) ∧
              inclusiveCount (infoOf regScript_gone n)
              = inclusiveCount (infoOf regScript_scanned n)
                + (if decide (n ∈ lineage regScript_gone mo) then 1 else 0)) ∧
        (isDynamic (infoOf regScript_gone mo) = true →
         m_aliveInstances regScript_gone !! mo
         = Some (poolOf regScript_scanned mo)).
Proof.
  apply (X13_added_then_removed hostScript _ regScript_scanned regScript_one
           regScript_gone 8 8 10%N regScript_scanned_run);
    vm_compute; reflexivity.
Defined.

(** ** The client under calls and responses in any order *)

Lemma clientStep_spec (c : Client) (ev : ClientEvent) :
  invoked (clientStep c ev)
  = invoked c ++ (if negb (m_ready c) && m_ready (clientStep c ev)
                  then ["requestIndex"] else []) ∧
  (m_ready c = true → m_ready (clientStep c ev) = true) ∧
  indexChanged (clientStep c ev)
  = (indexChanged c + length (received [ev]))%nat ∧
  m_iconsIndex (clientStep c ev)
  = default (m_iconsIndex c) (last (received [ev])).
Proof.
  destruct ev as [id|index]; simpl.
  - unfold filePath. destruct (bool_decide _), (m_ready c) eqn:Hr; simpl;
      rewrite ?Hr, ?app_nil_r; repeat split; done || lia.
  - destruct (m_ready c); simpl; rewrite ?app_nil_r; repeat split; lia || done.
Qed.

(** X14: whatever the order of [filePath] calls and index responses, a
    client sends at most one [requestIndex]: one exactly when the latch was
    not set before and is set afterwards, none otherwise, and a set latch
    stays set, also when a response leaves a queried id without a path.
    [indexChanged] is emitted once per response, and the index is the one
    of the last response, or the old one when there was none. *)
Theorem X14_one_request_whatever_the_order (c : Client) (evs : list ClientEvent) :
  invoked (clientRun c evs)
  = invoked c ++ (if negb (m_ready c) && m_ready (clientRun c evs)
                  then ["requestIndex"] else []) ∧
  (length (invoked (clientRun c evs)) ≤ S (length (invoked c)))%nat ∧
  (m_ready c = true → m_ready (clientRun c evs) = true) ∧
  indexChanged (clientRun c evs) = (indexChanged c + length (received evs))%nat ∧
  m_iconsIndex (clientRun c evs) = default (m_iconsIndex c) (last (received evs)).
Proof.
  assert (invoked (clientRun c evs)
          = invoked c ++ (if negb (m_ready c) && m_ready (clientRun c evs)
                          then ["requestIndex"] else []) ∧
          (m_ready c = true → m_ready (clientRun c evs) = true) ∧
          indexChanged (clientRun c evs)
          = (indexChanged c + length (received evs))%nat ∧
          m_iconsIndex (clientRun c evs)
          = default (m_iconsIndex c) (last (received evs))) as (H1 & H2 & H3 & H4).
  { revert c. induction evs as [|ev evs IH]; intros c; simpl.
    - rewrite andb_negb_l, app_nil_r. repeat split; done || lia.
    - destruct (IH (clientStep c ev)) as (I1 & I2 & I3 & I4).
      destruct (clientStep_spec c ev) as (S1 & S2 & S3 & S4).
      rewrite I1, I3, I4, S1, S3, S4. repeat split.
      + destruct (m_ready c) eqn:Hr; simpl.
        * rewrite S2 by done. simpl. by rewrite !app_nil_r.
        * destruct (m_ready (clientStep c ev)) eqn:Hr1; simpl.
          -- rewrite I2 by done. by rewrite app_nil_r.
          -- by rewrite <-app_assoc.
      + intros Hr. by apply I2, S2.
      + destruct ev; simpl; lia.
      + destruct ev as [id|index]; simpl; [done|].
        rewrite last_cons. by destruct (last _). }
  repeat split; try done.
  rewrite H1, length_app. destruct (negb _ && _); simpl; lia.
Qed.

(** X14 on a new client: a miss, a response without the id, two more
    calls. *)
Lemma X14_witness :
  let evs := [CallFilePath 7; IndexResponse ["a/b.png"]; CallFilePath 7;
              CallFilePath 0] in
  invoked (clientRun newClient evs)
  = invoked newClient ++ (if negb (m_ready newClient)
                             && m_ready (clientRun newClient evs)
                          then ["requestIndex"] else []) ∧
  (length (invoked (clientRun newClient evs)) ≤ S (length (invoked newClient)))%nat ∧
  (m_ready newClient = true → m_ready (clientRun newClient evs) = true) ∧
  indexChanged (clientRun newClient evs)
  = (indexChanged newClient + length (received evs))%nat ∧
  m_iconsIndex (clientRun newClient evs)
  = default (m_iconsIndex newClient) (last (received evs)).
Proof.
  apply (X14_one_request_whatever_the_order newClient
           [CallFilePath 7; IndexResponse ["a/b.png"]; CallFilePath 7;
            CallFilePath 0]).
Defined.

(** ** The name map *)

Section Names.
Variable h : Host.
Implicit Types (r : Registry) (m n c p mo obj o d x y : N) (b : bool)
  (l : list N).

Lemma Named_ext r r' :
  m_metaObjectNameMap r' = m_metaObjectNameMap r →
  (∀ n, isDynamic (infoOf r' n) = isDynamic (infoOf r n)) →
  Named h r → Named h r'.
Proof.
  intros Hn Hd HN. split; intros *; rewrite Hn, Hd; apply HN.
Qed.

Lemma infoOf_insertNode r mo parent st b n :
  infoOf (insertNode h r mo parent st b) n
  = if decide (n = mo)
    then describe (mo_className h mo) st (negb st && b) (infoOf r mo)
    else infoOf r n.
Proof.
  unfold infoOf at 1. simpl. destruct (decide (n = mo)) as [->|Hne].
  - by rewrite lookup_insert_eq.
  - by rewrite lookup_insert_ne.
Qed.

Lemma grows_Named b r r' : Inv h r → grows h b r r' → Named h r → Named h r'.
Proof.
  intros HI Hg HN.
  induction Hg as [r|r r1 mo parent Hg IH Hmo Hk Hp0 Hpk Hres Hfree]; [done|].
  specialize (IH HI HN). pose proof (grows_Inv _ _ _ _ HI Hg) as HI1.
  set (flag := negb (isReadOnlyData h mo) && b) in *.
  assert (∀ n, n ≠ mo →
            isDynamic (infoOf (insertNode h (if flag
              then set_nameMap <[mo_className h mo := mo]> r1 else r1)
              mo parent (isReadOnlyData h mo) b) n)
            = isDynamic (infoOf r1 n)) as Hother.
  { intros n Hn. rewrite infoOf_insertNode, decide_False by done.
    by destruct flag. }
  assert (isDynamic (infoOf (insertNode h (if flag
              then set_nameMap <[mo_className h mo := mo]> r1 else r1)
              mo parent (isReadOnlyData h mo) b) mo) = flag) as Hself.
  { rewrite infoOf_insertNode, decide_True by done. done. }
  split.
  - intros k c Hkc.
    assert (m_metaObjectNameMap r1 !! k = Some c ∨
            (flag = true ∧ k = mo_className h mo ∧ c = mo)) as [Hold|(Hf & -> & ->)].
    { revert Hkc. simpl. destruct flag; simpl; [|by left].
      destruct (decide (k = mo_className h mo)) as [->|Hne].
      - rewrite lookup_insert_eq. intros [= <-]. by right.
      - rewrite lookup_insert_ne by done. by left. }
    + assert (c ≠ mo) as Hc.
      { intros ->. by apply Hk, (inv_names _ _ HI1 k). }
      rewrite Hother by done. by apply IH.
    + by rewrite Hself.
  - intros c. destruct (decide (c = mo)) as [->|Hc].
    + rewrite Hself. intros Hf. rewrite Hf. simpl. by rewrite lookup_insert_eq.
    + rewrite Hother by done. intros Hd.
      pose proof (named_dynamic _ _ IH c Hd) as Hname.
      simpl. destruct flag eqn:Hf; simpl; [|done].
      rewrite lookup_insert_ne; [done|].
      intros Heq. rewrite <-Heq, Hfree in Hname; done.
Qed.

Lemma run_Named evs r : run h evs r → Named h r.
Proof.
  induction 1 as [|evs r fuel ev r' Hrun IH Hstep].
  { split; simpl.
    - intros k c. by rewrite lookup_empty.
    - intros c. unfold infoOf. simpl. by rewrite lookup_empty. }
  pose proof (run_Inv _ _ _ Hrun) as HI.
  destruct ev as [mo b|obj|obj]; simpl in Hstep.
  - destruct (addMetaObject _ _ _ _ _) as [[c r1]|] eqn:Hadd; [|done].
    injection Hstep as <-. apply addMetaObject_Adds in Hadd.
    destruct (Adds_grows _ _ _ _ _ _ HI Hadd) as (Hg & _).
    by apply (grows_Named _ _ _ HI Hg).
  - destruct (objectAdded_spec _ _ _ _ _ HI Hstep)
      as (mo & r1 & HA & Hg & _ & -> & _).
    apply (Named_ext r1); [by simpl; rewrite addSelf_nameMap| |
                           by apply (grows_Named _ _ _ HI Hg)].
    intros n. by rewrite (afterLoop_field isDynamic), isDynamic_addSelf.
  - destruct (objectRemoved_maps _ _ _ _ Hstep) as (_ & _ & Hn).
    apply (Named_ext r); [done| |done].
    intros n. by apply (objectRemoved_field isDynamic fuel r obj).
Qed.

End Names.

(** X15: after any sequence of calls the name map holds exactly the nodes
    classified dynamic, each under its class name: an entry leads to a
    known node of that name, classified dynamic and outside read-only
    storage, and every node classified dynamic is the entry of its class
    name.  So no two nodes classified dynamic share a class name. *)
Theorem X15_dynamic_names_unique (h : Host) (evs : list Event) (r : Registry) :
  run h evs r →
  (∀ k c, m_metaObjectNameMap r !! k = Some c →
          isKnownMetaObject r c = true ∧ className (infoOf r c) = k ∧
          isDynamic (infoOf r c) = true ∧ isReadOnlyData h c = false) ∧
  (∀ c, isDynamic (infoOf r c) = true →
        m_metaObjectNameMap r !! className (infoOf r c) = Some c) ∧
  (∀ a b, isDynamic (infoOf r a) = true → isDynamic (infoOf r b) = true →
          className (infoOf r a) = className (infoOf r b) → a = b).
Proof.
  intros Hrun. pose proof (run_Inv _ _ _ Hrun) as HI.
  pose proof (run_Named _ _ _ Hrun) as HN.
  assert (∀ c, isDynamic (infoOf r c) = true →
               m_metaObjectNameMap r !! className (infoOf r c) = Some c) as Hcanon.
  { intros c Hd.
    rewrite (run_className h evs r c Hrun) by by apply (dynamic_known h).
    by apply HN. }
  split; [|split; [done|]].
  - intros k c Hkc. destruct (named_entry _ _ HN _ _ Hkc) as [Hname Hd].
    assert (known r c) as Hk by by eapply inv_names.
    split; [by apply isKnown_true|].
    split; [by rewrite (run_className h evs r c Hrun)|]. split; [done|].
    apply (inv_info _ _ HI) in Hk as [i Hi].
    unfold infoOf in Hd. rewrite Hi in Hd. simpl in Hd.
    rewrite <-(inv_class _ _ HI _ _ Hi). by apply (inv_flags _ _ HI c).
  - intros a b Ha Hb Heq. pose proof (Hcanon a Ha) as H1.
    pose proof (Hcanon b Hb) as H2. rewrite Heq, H2 in H1. by injection H1.
Qed.

(** X15 on [hostScript], with the objects 10 and 11. *)
Lemma X15_witness :
  (∀ k c, m_metaObjectNameMap regScript_two !! k = Some c →
          isKnownMetaObject regScript_two c = true ∧
          className (infoOf regScript_two c) = k ∧
          isDynamic (infoOf regScript_two c) = true ∧
          isReadOnlyData hostScript c = false) ∧
  (∀ c, isDynamic (infoOf regScript_two c) = true →
        m_metaObjectNameMap regScript_two !! className (infoOf regScript_two c)
        = Some c) ∧
  (∀ a b, isDynamic (infoOf regScript_two a) = true →
          isDynamic (infoOf regScript_two b) = true →
          className (infoOf regScript_two a) = className (infoOf regScript_two b) →
          a = b).
Proof.
  apply (X15_dynamic_names_unique hostScript _ regScript_two regScript_two_run).
Defined.

(** X16: after any sequence of calls a node whose descriptor has no super
    class has no parent, and the parent of any other node is a known node
    that carries the class name of the super class: the super class itself
    when that lies in read-only storage, and otherwise the super class or
    the node classified dynamic that stands for its name. *)
Theorem X16_parent_named_like_super (h : Host) (evs : list Event)
    (r : Registry) (m : MO) :
  run h evs r → isKnownMetaObject r m = true →
  (parentOf r m = 0%N ↔ superClass h m = 0%N) ∧
  (superClass h m ≠ 0%N →
   isKnownMetaObject r (parentOf r m) = true ∧
   className (infoOf r (parentOf r m)) = mo_className h (superClass h m)) ∧
  (isReadOnlyData h (superClass h m) = true → parentOf r m = superClass h m) ∧
  (parentOf r m ≠ superClass h m →
   isDynamic (infoOf r (parentOf r m)) = true ∧
   m_metaObjectNameMap r !! mo_className h (superClass h m)
   = Some (parentOf r m)).
Proof.
  intros Hrun [p Hp]%isKnown_true. pose proof (run_Inv _ _ _ Hrun) as HI.
  pose proof (run_Named _ _ _ Hrun) as HN.
  destruct (inv_super _ _ HI _ _ Hp) as [Hp0 Hres].
  unfold parentOf. rewrite Hp. simpl. split; [done|]. split; [|split].
  - intros Hs. assert (p ≠ 0%N) as Hpn by (intros ?; by apply Hs, Hp0).
    assert (known r p) as Hk by (by eapply forest_closed; [apply HI|..]).
    split; [by apply isKnown_true|].
    rewrite (run_className h evs r p Hrun Hk).
    destruct Hres as [->|[_ Hname]]; [done|].
    by apply (named_entry _ _ HN) in Hname as [? _].
  - intros Hro. destruct Hres as [->|[Hno _]]; [done|congruence].
  - intros Hne. destruct Hres as [->|[_ Hname]]; [done|].
    split; [|done]. by apply (named_entry _ _ HN) in Hname as [_ ?].
Qed.

(** X16 on [hostScript]: node 2, [ScriptObject], below node 1, [Base]. *)
Lemma X16_witness :
  (parentOf regScript_two 2%N = 0%N ↔ superClass hostScript 2%N = 0%N) ∧
  (superClass hostScript 2%N ≠ 0%N →
   isKnownMetaObject regScript_two (parentOf regScript_two 2%N) = true ∧
   className (infoOf regScript_two (parentOf regScript_two 2%N))
   = mo_className hostScript (superClass hostScript 2%N)) ∧
  (isReadOnlyData hostScript (superClass hostScript 2%N) = true →
   parentOf regScript_two 2%N = superClass hostScript 2%N) ∧
  (parentOf regScript_two 2%N ≠ superClass hostScript 2%N →
   isDynamic (infoOf regScript_two (parentOf regScript_two 2%N)) = true ∧
   m_metaObjectNameMap regScript_two
     !! mo_className hostScript (superClass hostScript 2%N)
   = Some (parentOf regScript_two 2%N)).
Proof.
  apply (X16_parent_named_like_super hostScript _ regScript_two 2%N
           regScript_two_run).
  vm_compute. reflexivity.
Defined.

(** ** The signals emitted *)

Section Signals.
Variable h : Host.
Implicit Types (r : Registry) (m n c p mo obj o d x y : N) (b : bool)
  (l : list N) (s : Signal).

Lemma count_signal_app s es1 es2 :
  count_signal s (es1 ++ es2) = (count_signal s es1 + count_signal s es2)%nat.
Proof. unfold count_signal. by rewrite filter_app, length_app. Qed.

Lemma count_signal_cons s e es :
  count_signal s (e :: es)
  = ((if decide (e = s) then 1 else 0) + count_signal s es)%nat.
Proof. unfold count_signal. rewrite filter_cons. by destruct (decide _). Qed.

Lemma count_dataChanged n l :
  NoDup l →
  count_signal (dataChanged n) (dataChanged <$> l)
  = if decide (n ∈ l) then 1%nat else 0%nat.
Proof.
  induction 1 as [|x l Hx Hnd IH]; [done|].
  rewrite fmap_cons, count_signal_cons, IH.
  destruct (decide (x = n)) as [->|Hne].
  - rewrite decide_True by done. rewrite decide_False by done.
    rewrite decide_True by by left. done.
  - rewrite decide_False by (by intros [= ?]).
    destruct (decide (n ∈ l)) as [Hin|Hin].
    + by rewrite decide_True by by right.
    + rewrite decide_False; [done|]. by intros [->|?]%elem_of_cons.
Qed.

Lemma count_other_dataChanged s l :
  (∀ n, s ≠ dataChanged n) → count_signal s (dataChanged <$> l) = 0%nat.
Proof.
  intros Hs. induction l as [|x l IH]; [done|].
  rewrite fmap_cons, count_signal_cons, IH.
  by rewrite decide_False by (intros Heq; by apply (Hs x)).
Qed.

Lemma signalled_afterLoop f r l s :
  signalled s (afterLoop f r l)
  = (signalled s r + count_signal s (dataChanged <$> l))%nat.
Proof. unfold signalled. simpl. apply count_signal_app. Qed.

Lemma Logged_loop f r l :
  NoDup l → Logged r →
  (∀ i, 2 * inclusiveCount (f i) - inclusiveAliveCount (f i)
        = 2 * inclusiveCount i - inclusiveAliveCount i + 1) →
  Logged (afterLoop f r l).
Proof.
  intros Hnd HL Hf. split.
  - intros m. rewrite signalled_afterLoop, count_other_dataChanged by done.
    rewrite Nat.add_0_r. apply HL.
  - intros m. rewrite signalled_afterLoop, count_other_dataChanged by done.
    rewrite Nat.add_0_r. apply HL.
  - intros n. rewrite signalled_afterLoop, count_dataChanged by done.
    rewrite infoOf_afterLoop by done.
    pose proof (logged_changes _ HL n) as Hn.
    destruct (decide (n ∈ l)); [rewrite Hf|]; lia.
Qed.

Lemma Logged_ext r r' :
  emitted r' = emitted r → m_childParentMap r' = m_childParentMap r →
  (∀ n, inclusiveCount (infoOf r' n) = inclusiveCount (infoOf r n)) →
  (∀ n, inclusiveAliveCount (infoOf r' n) = inclusiveAliveCount (infoOf r n)) →
  Logged r → Logged r'.
Proof.
  intros He Hcp Hc Ha HL.
  split; intros *; unfold signalled, isKnownMetaObject; rewrite He, ?Hcp, ?Hc, ?Ha;
    apply HL.
Qed.

Lemma grows_Logged b r r' : grows h b r r' → Logged r → Logged r'.
Proof.
  intros Hg HL.
  induction Hg as [r|r r1 mo parent Hg IH Hmo Hk Hp0 Hpk Hres Hfree]; [done|].
  specialize (IH HL).
  set (r2 := if negb (isReadOnlyData h mo) && b
             then set_nameMap <[mo_className h mo := mo]> r1 else r1).
  assert (emitted r2 = emitted r1 ∧ m_childParentMap r2 = m_childParentMap r1 ∧
          ∀ n, infoOf r2 n = infoOf r1 n) as (He & Hcp & Hi)
    by (unfold r2; by destruct (negb _ && b)).
  assert (isKnownMetaObject r1 mo = false) as Hkf by by apply isKnown_false.
  assert (∀ m, isKnownMetaObject
                 (insertNode h r2 mo parent (isReadOnlyData h mo) b) m
               = if decide (m = mo) then true else isKnownMetaObject r1 m) as Hkn.
  { intros m. unfold isKnownMetaObject. simpl. rewrite Hcp.
    destruct (decide (m = mo)) as [->|Hne].
    - rewrite lookup_insert_eq. by apply bool_decide_eq_true_2.
    - by rewrite lookup_insert_ne. }
  split.
  - intros m. unfold signalled. simpl. rewrite He.
    fold (count_signal (beforeMetaObjectAdded m)
            (emitted r1 ++ [beforeMetaObjectAdded mo; afterMetaObjectAdded mo])).
    rewrite count_signal_app, !count_signal_cons, Hkn.
    pose proof (logged_before _ IH m) as Hm. unfold signalled in Hm.
    fold (count_signal (beforeMetaObjectAdded m) (emitted r1)) in Hm. rewrite Hm.
    destruct (decide (m = mo)) as [->|Hne].
    + rewrite Hkf, decide_True by done. by rewrite decide_False.
    + rewrite decide_False by (intros [= ?]; done). rewrite decide_False by done.
      simpl. unfold count_signal. simpl. lia.
  - intros m. unfold signalled. simpl. rewrite He.
    fold (count_signal (afterMetaObjectAdded m)
            (emitted r1 ++ [beforeMetaObjectAdded mo; afterMetaObjectAdded mo])).
    rewrite count_signal_app, !count_signal_cons, Hkn.
    pose proof (logged_after _ IH m) as Hm. unfold signalled in Hm.
    fold (count_signal (afterMetaObjectAdded m) (emitted r1)) in Hm. rewrite Hm.
    destruct (decide (m = mo)) as [->|Hne].
    + rewrite Hkf, decide_False by done. by rewrite decide_True.
    + rewrite decide_False by done. rewrite decide_False by (intros [= ?]; done).
      simpl. unfold count_signal. simpl. lia.
  - intros n. unfold signalled. simpl. rewrite He.
    fold (count_signal (dataChanged n)
            (emitted r1 ++ [beforeMetaObjectAdded mo; afterMetaObjectAdded mo])).
    rewrite count_signal_app, !count_signal_cons.
    rewrite !decide_False by done.
    pose proof (logged_changes _ IH n) as Hn. unfold signalled in Hn.
    fold (count_signal (dataChanged n) (emitted r1)) in Hn.
    rewrite infoOf_insertNode, !Hi.
    unfold count_signal at 2. simpl.
    destruct (decide (n = mo)) as [->|Hne]; simpl; lia.
Qed.

End Signals.

Section SignalRuns.
Variable h : Host.
Implicit Types (r : Registry) (m n c p mo obj o d x y : N) (b : bool)
  (l : list N) (s : Signal).

Lemma addSelf_Logged r obj mo : Logged r → Logged (addSelf h r obj mo).
Proof.
  apply Logged_ext.
  - apply addSelf_emitted.
  - apply addSelf_childParentMap.
  - intros n. rewrite infoOf_addSelf. by destruct (decide _).
  - intros n. rewrite infoOf_addSelf. by destruct (decide _).
Qed.

Lemma removeSelf_Logged r obj mo : Logged r → Logged (removeSelf r obj mo).
Proof.
  apply Logged_ext.
  - apply removeSelf_emitted.
  - apply removeSelf_childParentMap.
  - intros n. rewrite infoOf_removeSelf. by destruct (decide _).
  - intros n. rewrite infoOf_removeSelf. by destruct (decide _).
Qed.

Lemma run_Logged evs r : run h evs r → Logged r.
Proof.
  induction 1 as [|evs r fuel ev r' Hrun IH Hstep].
  { split; intros m; unfold signalled, isKnownMetaObject, infoOf; simpl;
      rewrite lookup_empty; done. }
  pose proof (run_Inv _ _ _ Hrun) as HI.
  destruct ev as [mo b|obj|obj]; simpl in Hstep.
  - destruct (addMetaObject _ _ _ _ _) as [[c r1]|] eqn:Hadd; [|done].
    injection Hstep as <-. apply addMetaObject_Adds in Hadd.
    destruct (Adds_grows _ _ _ _ _ _ HI Hadd) as (Hg & _).
    by apply (grows_Logged h b r).
  - destruct (objectAdded_spec _ _ _ _ _ HI Hstep)
      as (mo & r1 & HA & Hg & _ & -> & _ & Hnd).
    apply Logged_loop; [done| |intros i; simpl; lia].
    apply addSelf_Logged. by apply (grows_Logged h _ r r1 Hg).
  - destruct (m_metaObjectMap r !! obj) as [mo|] eqn:Hobj.
    + pose proof (tracked_is_counted _ _ _ _ _ Hrun Hobj) as Hpos.
      destruct (objectRemoved_spec h fuel r obj mo r' HI Hobj)
        as (_ & _ & -> & Hnd); [lia|done|].
      apply Logged_loop; [done| |intros i; simpl; lia].
      by apply removeSelf_Logged.
    + rewrite objectRemoved_untracked in Hstep by done. by injection Hstep as <-.
Qed.

End SignalRuns.

(** X17: after any sequence of calls [beforeMetaObjectAdded] and
    [afterMetaObjectAdded] have been emitted exactly once for every known
    node and never for another descriptor, and [dataChanged] has been
    emitted for a node once for every object counted in its
    [inclusiveCount] and once more for every such object removed again:
    [2 * inclusiveCount - inclusiveAliveCount] times. *)
Theorem X17_signals_emitted (h : Host) (evs : list Event) (r : Registry)
    (m : MO) :
  run h evs r →
  signalled (beforeMetaObjectAdded m) r
  = (if isKnownMetaObject r m then 1%nat else 0%nat) ∧
  signalled (afterMetaObjectAdded m) r
  = (if isKnownMetaObject r m then 1%nat else 0%nat) ∧
  Z.of_nat (signalled (dataChanged m) r)
  = 2 * inclusiveCount (infoOf r m) - inclusiveAliveCount (infoOf r m).
Proof.
  intros HL%run_Logged. split; [apply HL|]. split; apply HL.
Qed.

(** X17 on [hostScript]: node 1, [Base], after object 10 came and went. *)
Lemma X17_witness :
  signalled (beforeMetaObjectAdded 1%N) regScript_gone
  = (if isKnownMetaObject regScript_gone 1%N then 1%nat else 0%nat) ∧
  signalled (afterMetaObjectAdded 1%N) regScript_gone
  = (if isKnownMetaObject regScript_gone 1%N then 1%nat else 0%nat) ∧
  Z.of_nat (signalled (dataChanged 1%N) regScript_gone)
  = 2 * inclusiveCount (infoOf regScript_gone 1%N)
    - inclusiveAliveCount (infoOf regScript_gone 1%N).
Proof.
  apply (X17_signals_emitted hostScript
           (eventsScript_scanned ++ [EvObjectAdded 10%N; EvObjectRemoved 10%N])
           regScript_gone 1%N).
  apply (runFrom_empty hostScript 8). vm_compute. reflexivity.
Defined.

(** ** The inclusive counters as sums *)

Section Sums.
Variable h : Host.
Implicit Types (r : Registry) (m n c p mo obj o d x y : N) (b : bool)
  (l : list N) (f : MetaObjectInfo → Z).

Lemma sumZ_perm (l1 l2 : list Z) : l1 ≡ₚ l2 → sumZ l1 = sumZ l2.
Proof. induction 1; simpl in *; lia. Qed.

Lemma fmap_ext_in {B} (f1 f2 : N → B) l :
  (∀ x, x ∈ l → f1 x = f2 x) → f1 <$> l = f2 <$> l.
Proof.
  induction l as [|x l IH]; intros Hf; [done|].
  rewrite !fmap_cons. f_equal.
  - apply Hf. by left.
  - apply IH. intros y Hy. apply Hf. by right.
Qed.

Lemma sumZ_bump (g : N → Z) mo (c : Z) l :
  NoDup l →
  sumZ ((λ m, g m + (if decide (m = mo) then c else 0)) <$> l)
  = sumZ (g <$> l) + (if decide (mo ∈ l) then c else 0).
Proof.
  induction 1 as [|x l Hx Hnd IH]; [done|].
  rewrite !fmap_cons. simpl. rewrite IH.
  destruct (decide (x = mo)) as [->|Hne].
  - rewrite (decide_False (P := mo ∈ l)) by done.
    rewrite decide_True by by left. lia.
  - destruct (decide (mo ∈ l)) as [Hin|Hin].
    + rewrite decide_True by by right. lia.
    + rewrite decide_False; [lia|]. by intros [?|?]%elem_of_cons.
Qed.

Lemma elem_of_nodes r m : m ∈ nodes r ↔ known r m.
Proof. unfold nodes, known. by rewrite elem_of_elements, elem_of_dom. Qed.

Lemma subtreeSum_bump f r r' mo (c : Z) n :
  m_childParentMap r' = m_childParentMap r →
  (∀ m, f (infoOf r' m) = f (infoOf r m) + (if decide (m = mo) then c else 0)) →
  known r mo →
  subtreeSum f r' n
  = subtreeSum f r n + (if decide (n ∈ lineage r mo) then c else 0).
Proof.
  intros Hcp Hf Hk. unfold subtreeSum, nodes. rewrite Hcp.
  rewrite (fmap_ext_in _
    (λ m, (if bool_decide (n ∈ lineage r m) then f (infoOf r m) else 0)
          + (if decide (m = mo)
             then (if decide (n ∈ lineage r mo) then c else 0) else 0))).
  - rewrite sumZ_bump by apply NoDup_elements.
    rewrite (decide_True (P := mo ∈ _)); [done|]. by apply elem_of_nodes.
  - intros m _. rewrite (lineage_ext r r' m Hcp), Hf.
    destruct (decide (m = mo)) as [->|Hne].
    + destruct (decide (n ∈ lineage r mo)).
      * by rewrite bool_decide_eq_true_2.
      * by rewrite bool_decide_eq_false_2.
    + case_bool_decide; lia.
Qed.

Lemma subtreeSum_grow f b r1 r2 mo p n :
  Inv h r1 → grows h b r1 r2 → ¬ known r1 mo →
  m_childParentMap r2 = <[mo := p]> (m_childParentMap r1) →
  f defaultInfo = 0 → (∀ name st dy i, f (describe name st dy i) = f i) →
  subtreeSum f r2 n = subtreeSum f r1 n.
Proof.
  intros HI Hg Hk Hcp H0 Hd. unfold subtreeSum, nodes. rewrite Hcp.
  rewrite dom_insert_L.
  assert (mo ∉ dom (m_childParentMap r1)) as Hfresh
    by (intros ?%elem_of_dom; by apply Hk).
  rewrite (sumZ_perm _ _ (fmap_Permutation _ _ _
    (elements_union_singleton (dom (m_childParentMap r1)) mo Hfresh))).
  rewrite fmap_cons. simpl.
  assert (f (infoOf r2 mo) = 0) as ->.
  { destruct (grows_infoOf _ _ _ _ mo HI Hg) as (name & st & dy & ->).
    rewrite Hd. unfold infoOf.
    destruct (m_metaObjectInfoMap r1 !! mo) eqn:Hi; [|done].
    exfalso. apply Hk, (inv_info _ _ HI). by eexists. }
  rewrite (fmap_ext_in _
    (λ m, if bool_decide (n ∈ lineage r1 m) then f (infoOf r1 m) else 0)).
  - destruct (bool_decide _); lia.
  - intros m Hm%elem_of_elements%elem_of_dom.
    rewrite (grows_lineage _ _ _ _ _ HI Hg Hm).
    by rewrite (grows_known_info _ _ _ _ _ HI Hg Hm).
Qed.

Lemma grows_Summed b r r' : Inv h r → grows h b r r' → Summed r → Summed r'.
Proof.
  intros HI Hg HS.
  induction Hg as [r|r r1 mo parent Hg IH Hmo Hk Hp0 Hpk Hres Hfree]; [done|].
  specialize (IH HI HS). pose proof (grows_Inv _ _ _ _ HI Hg) as HI1.
  pose proof (grows_node h b r1 r1 mo parent (grows_refl h b r1)
                Hmo Hk Hp0 Hpk Hres Hfree) as Hg1.
  set (r2 := insertNode h _ mo parent (isReadOnlyData h mo) b) in *.
  assert (m_childParentMap r2 = <[mo := parent]> (m_childParentMap r1)) as Hcp
    by (unfold r2; simpl; by destruct (negb _ && b)).
  split; intros n.
  - rewrite (subtreeSum_grow selfCount b r1 r2 mo parent n) by done.
    destruct (grows_infoOf _ _ _ _ n HI1 Hg1) as (name & st & dy & ->).
    apply IH.
  - rewrite (subtreeSum_grow selfAliveCount b r1 r2 mo parent n) by done.
    destruct (grows_infoOf _ _ _ _ n HI1 Hg1) as (name & st & dy & ->).
    apply IH.
Qed.

Lemma Summed_added r obj mo :
  Inv h r → known r mo → NoDup (lineage r mo) → Summed r →
  Summed (afterLoop incInclusive (addSelf h r obj mo) (lineage r mo)).
Proof.
  intros HI Hk Hnd HS.
  set (r' := afterLoop incInclusive (addSelf h r obj mo) (lineage r mo)).
  assert (m_childParentMap r' = m_childParentMap r) as Hcp
    by apply addSelf_childParentMap.
  assert (∀ m, infoOf r' m
               = (if decide (m ∈ lineage r mo) then incInclusive else id)
                   ((if decide (m = mo) then incSelf else id) (infoOf r m)))
    as Hinfo.
  { intros m. unfold r'. rewrite infoOf_afterLoop, infoOf_addSelf by done.
    by destruct (decide (m ∈ _)), (decide (m = mo)). }
  split; intros n.
  - rewrite (subtreeSum_bump selfCount r r' mo 1 n Hcp); [|
      intros m; rewrite Hinfo;
      by destruct (decide (m ∈ _)), (decide (m = mo)); simpl; lia|done].
    rewrite Hinfo, <-(summed_created _ HS n).
    destruct (decide (n ∈ _)), (decide (n = mo)); simpl; lia.
  - rewrite (subtreeSum_bump selfAliveCount r r' mo 1 n Hcp); [|
      intros m; rewrite Hinfo;
      by destruct (decide (m ∈ _)), (decide (m = mo)); simpl; lia|done].
    rewrite Hinfo, <-(summed_alive _ HS n).
    destruct (decide (n ∈ _)), (decide (n = mo)); simpl; lia.
Qed.

Lemma Summed_removed r obj mo :
  Inv h r → known r mo → NoDup (lineage r mo) → Summed r →
  Summed (afterLoop decInclusiveAlive (removeSelf r obj mo) (lineage r mo)).
Proof.
  intros HI Hk Hnd HS.
  set (r' := afterLoop decInclusiveAlive (removeSelf r obj mo) (lineage r mo)).
  assert (m_childParentMap r' = m_childParentMap r) as Hcp
    by apply removeSelf_childParentMap.
  assert (∀ m, infoOf r' m
               = (if decide (m ∈ lineage r mo) then decInclusiveAlive else id)
                   ((if decide (m = mo) then decSelfAlive else id) (infoOf r m)))
    as Hinfo.
  { intros m. unfold r'. rewrite infoOf_afterLoop, infoOf_removeSelf by done.
    by destruct (decide (m ∈ _)), (decide (m = mo)). }
  split; intros n.
  - rewrite (subtreeSum_bump selfCount r r' mo 0 n Hcp); [|
      intros m; rewrite Hinfo;
      by destruct (decide (m ∈ _)), (decide (m = mo)); simpl; lia|done].
    rewrite Hinfo, <-(summed_created _ HS n).
    destruct (decide (n ∈ _)), (decide (n = mo)); simpl; lia.
  - rewrite (subtreeSum_bump selfAliveCount r r' mo (-1) n Hcp); [|
      intros m; rewrite Hinfo;
      by destruct (decide (m ∈ _)), (decide (m = mo)); simpl; lia|done].
    rewrite Hinfo, <-(summed_alive _ HS n).
    destruct (decide (n ∈ _)), (decide (n = mo)); simpl; lia.
Qed.

Lemma run_Summed evs r : run h evs r → Summed r.
Proof.
  induction 1 as [|evs r fuel ev r' Hrun IH Hstep].
  { split; intros n; unfold subtreeSum, nodes, infoOf; simpl;
      by rewrite lookup_empty, dom_empty_L, elements_empty. }
  pose proof (run_Inv _ _ _ Hrun) as HI.
  destruct ev as [mo b|obj|obj]; simpl in Hstep.
  - destruct (addMetaObject _ _ _ _ _) as [[c r1]|] eqn:Hadd; [|done].
    injection Hstep as <-. apply addMetaObject_Adds in Hadd.
    destruct (Adds_grows _ _ _ _ _ _ HI Hadd) as (Hg & _).
    by apply (grows_Summed b r r1 HI Hg).
  - destruct (objectAdded_spec _ _ _ _ _ HI Hstep)
      as (mo & r1 & HA & Hg & Hk & -> & _ & Hnd).
    apply Summed_added; [by eapply grows_Inv|done..|].
    by apply (grows_Summed _ r r1 HI Hg).
  - destruct (m_metaObjectMap r !! obj) as [mo|] eqn:Hobj.
    + pose proof (tracked_is_counted _ _ _ _ _ Hrun Hobj) as Hpos.
      destruct (objectRemoved_spec h fuel r obj mo r' HI Hobj)
        as (Hk & _ & -> & Hnd); [lia|done|].
      by apply Summed_removed.
    + rewrite objectRemoved_untracked in Hstep by done. by injection Hstep as <-.
Qed.

End Sums.

(** X18: after any sequence of calls, also when objects are added twice or
    removed twice, [inclusiveCount] of every node is the sum of [selfCount]
    over the node and its descendants, and [inclusiveAliveCount] the sum of
    [selfAliveCount] over them; the nodes summed over are the known
    descriptors, each once. *)
Theorem X18_inclusive_counts_are_sums (h : Host) (evs : list Event)
    (r : Registry) (n : MO) :
  run h evs r →
  inclusiveCount (infoOf r n) = subtreeSum selfCount r n ∧
  inclusiveAliveCount (infoOf r n) = subtreeSum selfAliveCount r n ∧
  NoDup (nodes r) ∧
  ∀ m, m ∈ nodes r ↔ isKnownMetaObject r m = true.
Proof.
  intros HS%run_Summed. split; [apply HS|]. split; [apply HS|].
  split; [unfold nodes; apply NoDup_elements|].
  intros m. by rewrite elem_of_nodes, isKnown_true.
Qed.

(** X18 on [hostScript]: [QObject] (8) with the objects 10 and 11 below. *)
Lemma X18_witness :
  inclusiveCount (infoOf regScript_two 8%N)
  = subtreeSum selfCount regScript_two 8%N ∧
  inclusiveAliveCount (infoOf regScript_two 8%N)
  = subtreeSum selfAliveCount regScript_two 8%N ∧
  NoDup (nodes regScript_two) ∧
  ∀ m, m ∈ nodes regScript_two ↔ isKnownMetaObject regScript_two m = true.
Proof.
  apply (X18_inclusive_counts_are_sums hostScript _ regScript_two 8%N
           regScript_two_run).
Defined.

(** ** The canonical map and the class names *)

Section CanonicalNames.
Variable h : Host.
Implicit Types (r : Registry) (m n c p mo obj o d x y a : N) (b : bool)
  (l : list N).

Lemma resolves_ext r r' a c :
  (∀ k x, m_metaObjectNameMap r !! k = Some x →
          m_metaObjectNameMap r' !! k = Some x) →
  resolves h r a c → resolves h r' a c.
Proof. intros Hn [->|[Hro Hname]]; [by left|right; split; auto]. Qed.

Lemma addSelf_canonicalMap r obj mo :
  m_canonicalMetaObjectMap (addSelf h r obj mo)
  = if isDynamic (infoOf r mo)
    then <[metaObject h obj := mo]> (m_canonicalMetaObjectMap r)
    else m_canonicalMetaObjectMap r.
Proof.
  unfold addSelf.
  change (isDynamic (incSelf (infoOf (set_metaObjectMap <[obj:=mo]> r) mo)))
    with (isDynamic (infoOf r mo)).
  by destruct (isDynamic (infoOf r mo)).
Qed.

Lemma objectRemoved_canonicalMap fuel r obj r' a c :
  objectRemoved fuel r obj = Some r' →
  m_canonicalMetaObjectMap r' !! a = Some c →
  m_canonicalMetaObjectMap r !! a = Some c.
Proof.
  rewrite objectRemoved_eq. simpl.
  destruct (_ =? 0)%N; [by intros [= <-]|].
  destruct (_ =? 0); [by intros [= <-]|].
  destruct (walk _ _ _); [|done]. intros [= <-]. simpl.
  unfold removeSelf.
  destruct (isDynamic _); simpl; [|done].
  by intros [_ ?]%lookup_delete_Some.
Qed.

Lemma run_canonicalResolves evs r : run h evs r → canonicalResolves h r.
Proof.
  induction 1 as [|evs r fuel ev r' Hrun IH Hstep].
  { intros a c. simpl. by rewrite lookup_empty. }
  pose proof (run_Inv _ _ _ Hrun) as HI.
  destruct ev as [mo b|obj|obj]; simpl in Hstep.
  - destruct (addMetaObject _ _ _ _ _) as [[c r1]|] eqn:Hadd; [|done].
    injection Hstep as <-. apply addMetaObject_Adds in Hadd.
    destruct (Adds_grows _ _ _ _ _ _ HI Hadd) as (Hg & _).
    destruct (grows_frame _ _ _ _ Hg) as (_ & _ & _ & Hc).
    intros a c'. rewrite Hc. intros Hac%IH.
    eapply resolves_ext; [|done]. intros k x. by apply (grows_names h b r r1 k x Hg).
  - destruct (objectAdded_spec _ _ _ _ _ HI Hstep)
      as (mo & r1 & HA & Hg & _ & -> & _).
    destruct (Adds_grows _ _ _ _ _ _ HI HA) as (_ & _ & Hres & _).
    destruct (grows_frame _ _ _ _ Hg) as (_ & _ & _ & Hc).
    assert (∀ a c, m_canonicalMetaObjectMap (addSelf h r1 obj mo) !! a = Some c →
                   resolves h r1 a c) as Hnew.
    { intros a c. rewrite addSelf_canonicalMap.
      assert (m_canonicalMetaObjectMap r1 !! a = Some c → resolves h r1 a c) as Hold.
      { rewrite Hc. intros Hac%IH. eapply resolves_ext; [|done].
        intros k x. by apply (grows_names h _ r r1 k x Hg). }
      destruct (isDynamic _); [|done].
      destruct (decide (metaObject h obj = a)) as [<-|Hne].
      - rewrite lookup_insert_eq. by intros [= <-].
      - by rewrite lookup_insert_ne. }
    intros a c Hac. apply (resolves_ext r1); [|by apply Hnew].
    intros k x. simpl. by rewrite addSelf_nameMap.
  - destruct (objectRemoved_maps _ _ _ _ Hstep) as (_ & _ & Hn).
    intros a c Hac%(objectRemoved_canonicalMap _ _ _ _ _ _ Hstep)%IH.
    eapply resolves_ext; [|done]. intros k x. by rewrite Hn.
Qed.

End CanonicalNames.

(** X19: after any sequence of calls [canonicalMetaObject] answers with a
    descriptor of the same class name as its argument.  A descriptor the
    canonical map resolves lies outside read-only storage, and its node
    carries its class name; a descriptor in read-only storage is returned
    as it is. *)
Theorem X19_canonical_keeps_class_name (h : Host) (evs : list Event)
    (r : Registry) (a : MO) :
  run h evs r →
  mo_className h (canonicalMetaObject r a) = mo_className h a ∧
  (isReadOnlyData h a = true → canonicalMetaObject r a = a) ∧
  (∀ c, m_canonicalMetaObjectMap r !! a = Some c →
        isReadOnlyData h a = false ∧ className (infoOf r c) = mo_className h a).
Proof.
  intros Hrun. pose proof (run_Inv _ _ _ Hrun) as HI.
  pose proof (run_Named _ _ _ Hrun) as HN.
  pose proof (run_canonicalResolves _ _ _ Hrun a) as HR.
  pose proof (run_canonicalAlive _ _ _ Hrun a) as HA.
  assert (∀ c, m_canonicalMetaObjectMap r !! a = Some c →
               isReadOnlyData h a = false ∧ mo_className h c = mo_className h a ∧
               known r c) as Hkey.
  { intros c Hc. specialize (HR c Hc). specialize (HA c Hc).
    assert (isDynamic (infoOf r c) = true) as Hd.
    { destruct (decide (isDynamic (infoOf r c) = true)) as [?|Hno]; [done|].
      rewrite (poolOf_not_dynamic h r c HI Hno) in HA.
      by apply elem_of_nil in HA. }
    pose proof (dynamic_known h r c HI Hd) as Hk.
    split; [|split; [|done]].
    - destruct HR as [->|[? _]]; [|done].
      apply (inv_info _ _ HI) in Hk as [i Hi].
      unfold infoOf in Hd. rewrite Hi in Hd. simpl in Hd.
      rewrite <-(inv_class _ _ HI _ _ Hi). by apply (inv_flags _ _ HI a).
    - destruct HR as [->|[_ Hname]]; [done|].
      by apply (named_entry _ _ HN) in Hname as [? _]. }
  unfold canonicalMetaObject.
  destruct (m_canonicalMetaObjectMap r !! a) as [c|] eqn:Hc.
  - destruct (Hkey c eq_refl) as (Hro & Hname & Hk).
    split; [done|]. split; [congruence|].
    intros ? [= <-]. split; [done|].
    by rewrite (run_className h evs r c Hrun Hk).
  - split; [done|]. split; [done|]. by intros.
Qed.

(** X19 on [hostScript]: descriptor 3 of object 11, merged into node 2. *)
Lemma X19_witness :
  mo_className hostScript (canonicalMetaObject regScript_two 3%N)
  = mo_className hostScript 3%N ∧
  (isReadOnlyData hostScript 3%N = true →
   canonicalMetaObject regScript_two 3%N = 3%N) ∧
  (∀ c, m_canonicalMetaObjectMap regScript_two !! 3%N = Some c →
        isReadOnlyData hostScript 3%N = false ∧
        className (infoOf regScript_two c) = mo_className hostScript 3%N).
Proof.
  apply (X19_canonical_keeps_class_name hostScript _ regScript_two 3%N
           regScript_two_run).
Defined.

(** X20: what the registry answers about an object just added, after any
    sequence of calls.  The object is tracked under a node that is its
    descriptor or the canonical node of the descriptor's class name.  When
    that node is classified dynamic, [canonicalMetaObject] leads from the
    descriptor to the node, the descriptor is among the alive instances of
    the node, and [aliveInstance] of the node is not [nullptr]; when it is
    not, the canonical map, the dynamic map and the pools are left as they
    were, and [aliveInstance] returns the node itself. *)
Theorem X20_added_object_resolves (h : Host) (evs : list Event)
    (r r' : Registry) (fuel : nat) (obj : Obj) :
  run h evs r → objectAdded h fuel r obj = Some r' →
  ∃ mo, m_metaObjectMap r' !! obj = Some mo ∧
        metaObject h obj ≠ 0%N ∧
        resolves h r' (metaObject h obj) mo ∧
        (isDynamic (infoOf r' mo) = true →
         canonicalMetaObject r' (metaObject h obj) = mo ∧
         m_dynamicMetaObjectMap r' !! obj = Some (metaObject h obj) ∧
         metaObject h obj ∈ poolOf r' mo ∧
         aliveInstance r' mo ≠ 0%N ∧
         (aliveInstance r' mo ≤ metaObject h obj)%N) ∧
        (isDynamic (infoOf r' mo) = false →
         m_canonicalMetaObjectMap r' = m_canonicalMetaObjectMap r ∧
         m_dynamicMetaObjectMap r' = m_dynamicMetaObjectMap r ∧
         m_aliveInstances r' = m_aliveInstances r ∧
         aliveInstance r' mo = mo).
Proof.
  intros Hrun Hadd. pose proof (run_Inv _ _ _ Hrun) as HI.
  assert (run h (evs ++ [EvObjectAdded obj]) r') as Hrun'
    by (by eapply run_snoc).
  pose proof (run_Inv _ _ _ Hrun') as HI'.
  pose proof (run_Pooled _ _ _ Hrun') as HP.
  destruct (objectAdded_spec _ _ _ _ _ HI Hadd)
    as (mo & r1 & HA & Hg & Hk & Hr' & _).
  destruct (Adds_grows _ _ _ _ _ _ HI HA) as (_ & _ & Hres & _).
  destruct (grows_frame _ _ _ _ Hg) as (_ & Ha & Hdm & Hc).
  assert (m_metaObjectMap r' !! obj = Some mo) as Hobj.
  { rewrite Hr'. simpl. by rewrite addSelf_metaObjectMap, lookup_insert_eq. }
  assert (isDynamic (infoOf r' mo) = isDynamic (infoOf r1 mo)) as Hdyn.
  { rewrite Hr'. by rewrite (afterLoop_field isDynamic), isDynamic_addSelf. }
  exists mo. split; [done|]. split; [apply (Adds_nonnull h _ _ _ _ _ HI HA)|].
  split; [|split].
  - apply (resolves_ext h r1); [|done]. intros k x. rewrite Hr'. simpl.
    by rewrite addSelf_nameMap.
  - intros Hd.
    assert (metaObject h obj ∈ poolOf r' mo) as Hin.
    { apply occurrences_pos.
      pose proof (pooled_le _ _ HP mo (metaObject h obj) Hd) as Hle.
      assert (0 < trackedAs h r' mo (metaObject h obj))%nat
        by (apply trackedAs_pos; by exists obj).
      lia. }
    split; [|split; [by apply (pooled_dyn _ _ HP obj mo)|split; [done|]]].
    + unfold canonicalMetaObject. rewrite Hr'. simpl.
      rewrite addSelf_canonicalMap. rewrite <-Hdyn, Hd.
      by rewrite lookup_insert_eq.
    + pose proof (pooled_nonnull _ _ HP mo) as Hnn.
      pose proof (poolOf_sorted h r' mo HI') as Hsorted.
      unfold aliveInstance, poolOf in *.
      destruct (m_aliveInstances r' !! mo) as [[|x pool]|]; simpl in *;
        try by apply elem_of_nil in Hin.
      split; [|by eapply sorted_head_min].
      intros ->. apply Hnn. by left.
  - intros Hd. rewrite Hdyn in Hd.
    assert (m_canonicalMetaObjectMap r' = m_canonicalMetaObjectMap r ∧
            m_dynamicMetaObjectMap r' = m_dynamicMetaObjectMap r ∧
            m_aliveInstances r' = m_aliveInstances r) as (H1 & H2 & H3).
    { rewrite Hr'. simpl. rewrite addSelf_canonicalMap, addSelf_dynamicMap, Hd.
      split; [done|]. split; [done|].
      unfold addSelf.
      change (isDynamic (incSelf (infoOf (set_metaObjectMap <[obj:=mo]> r1) mo)))
        with (isDynamic (infoOf r1 mo)).
      by rewrite Hd. }
    do 3 (split; [done|]).
    unfold aliveInstance.
    destruct (m_aliveInstances r' !! mo) as [pool|] eqn:Hpool; [|done].
    destruct (inv_pools _ _ HI' _ _ Hpool) as [_ Hd'].
    rewrite Hdyn, Hd in Hd'. done.
Qed.

(** X20 on [hostScript]: object 11, whose descriptor 3 is merged. *)
Lemma X20_witness :
  ∃ mo, m_metaObjectMap regScript_two !! 11%N = Some mo ∧
        metaObject hostScript 11%N ≠ 0%N ∧
        resolves hostScript regScript_two (metaObject hostScript 11%N) mo ∧
        (isDynamic (infoOf regScript_two mo) = true →
         canonicalMetaObject regScript_two (metaObject hostScript 11%N) = mo ∧
         m_dynamicMetaObjectMap regScript_two !! 11%N
         = Some (metaObject hostScript 11%N) ∧
         metaObject hostScript 11%N ∈ poolOf regScript_two mo ∧
         aliveInstance regScript_two mo ≠ 0%N ∧
         (aliveInstance regScript_two mo ≤ metaObject hostScript 11%N)%N) ∧
        (isDynamic (infoOf regScript_two mo) = false →
         m_canonicalMetaObjectMap regScript_two
         = m_canonicalMetaObjectMap regScript_one ∧
         m_dynamicMetaObjectMap regScript_two
         = m_dynamicMetaObjectMap regScript_one ∧
         m_aliveInstances regScript_two = m_aliveInstances regScript_one ∧
         aliveInstance regScript_two mo = mo).
Proof.
  apply (X20_added_object_resolves hostScript _ regScript_one regScript_two
           8 11%N regScript_one_run).
  vm_compute. reflexivity.
Defined.

(** X21: the queries on a descriptor, after any sequence of calls.
    [isStatic] answers true exactly for the known descriptors in read-only
    storage; such a node is valid, not classified dynamic, and its own alive
    instance.  For a descriptor the registry does not know, [isStatic] and
    [isValid] answer false, [parentOf] [nullptr], [aliveInstance] the
    descriptor itself, and [childrenOf] nothing unless the descriptor is
    [nullptr], whose children are the roots. *)
Theorem X21_queries (h : Host) (evs : list Event) (r : Registry) (m : MO) :
  run h evs r →
  isStaticMO r m = isKnownMetaObject r m && isReadOnlyData h m ∧
  (isStaticMO r m = true →
   isValid r m = true ∧ isDynamic (infoOf r m) = false ∧ aliveInstance r m = m) ∧
  (isKnownMetaObject r m = false →
   isStaticMO r m = false ∧ isValid r m = false ∧ parentOf r m = 0%N ∧
   aliveInstance r m = m ∧ (m ≠ 0%N → childrenOf r m = [])) ∧
  (∀ x, x ∈ childrenOf r 0%N ↔
        isKnownMetaObject r x = true ∧ parentOf r x = 0%N).
Proof.
  intros Hrun. pose proof (run_Inv _ _ _ Hrun) as HI.
  pose proof (run_Mirror _ _ _ Hrun) as HM.
  assert (m_aliveInstances r !! m = None →  aliveInstance r m = m) as Hself
    by (unfold aliveInstance; by intros ->).
  assert (isDynamic (infoOf r m) = false → aliveInstance r m = m) as Hnd.
  { intros Hd. apply Hself.
    destruct (m_aliveInstances r !! m) as [pool|] eqn:Hpool; [|done].
    destruct (inv_pools _ _ HI _ _ Hpool) as [_ Hd']. congruence. }
  unfold isStaticMO, isValid, infoOf in *.
  destruct (m_metaObjectInfoMap r !! m) as [i|] eqn:Hi; simpl in *.
  - assert (known r m) as Hk by (apply (inv_info _ _ HI); by eexists).
    pose proof (proj2 (isKnown_true r m) Hk) as Hkt. rewrite Hkt. simpl.
    destruct (inv_flags _ _ HI _ _ Hi) as [Hinv Hds].
    split; [by apply (inv_class _ _ HI m)|]. split; [|split; [done|]].
    + intros Hs. rewrite (Hinv Hs). split; [done|].
      assert (isDynamic i = false) as Hd.
      { destruct (isDynamic i); [|done]. by rewrite Hds in Hs. }
      split; [done|]. by apply Hnd.
    + intros x. rewrite (mirror_children _ HM). unfold parentOf.
      rewrite isKnown_true. unfold known. split.
      * intros Hx. rewrite Hx. by split; [eexists|].
      * intros [[p Hp] H0]. rewrite Hp in *. simpl in H0. by subst.
  - assert (¬ known r m) as Hk.
    { intros Hk%(inv_info _ _ HI). rewrite Hi in Hk. by destruct Hk. }
    pose proof (proj2 (isKnown_false r m) Hk) as Hkf. rewrite Hkf. simpl.
    split; [done|]. split; [done|]. split.
    + intros _. do 2 (split; [done|]).
      assert (m_childParentMap r !! m = None) as Hnone
        by (by apply eq_None_not_Some).
      unfold parentOf. rewrite Hnone. split; [done|]. split; [by apply Hnd|].
      intros Hm0. destruct (childrenOf r m) as [|x l] eqn:Hch; [done|].
      exfalso. apply Hk.
      apply (forest_closed _ (inv_forest _ _ HI) x m); [|done].
      apply (mirror_children _ HM). rewrite Hch. by left.
    + intros x. rewrite (mirror_children _ HM). unfold parentOf.
      rewrite isKnown_true. unfold known. split.
      * intros Hx. rewrite Hx. by split; [eexists|].
      * intros [[p Hp] H0]. rewrite Hp in *. simpl in H0. by subst.
Qed.

(** X21 on [hostScript]: descriptor 3, merged and so not known. *)
Lemma X21_witness :
  isStaticMO regScript_two 3%N
  = isKnownMetaObject regScript_two 3%N && isReadOnlyData hostScript 3%N ∧
  (isStaticMO regScript_two 3%N = true →
   isValid regScript_two 3%N = true ∧
   isDynamic (infoOf regScript_two 3%N) = false ∧
   aliveInstance regScript_two 3%N = 3%N) ∧
  (isKnownMetaObject regScript_two 3%N = false →
   isStaticMO regScript_two 3%N = false ∧ isValid regScript_two 3%N = false ∧
   parentOf regScript_two 3%N = 0%N ∧
   aliveInstance regScript_two 3%N = 3%N ∧
   (3%N ≠ 0%N → childrenOf regScript_two 3%N = [])) ∧
  (∀ x, x ∈ childrenOf regScript_two 0%N ↔
        isKnownMetaObject regScript_two x = true ∧
        parentOf regScript_two x = 0%N).
Proof.
  apply (X21_queries hostScript _ regScript_two 3%N regScript_two_run).
Defined.
